(** * ARSandbox remote streaming: RemoteServer and SandboxClient

    A shallow embedding of [RemoteServer.cpp] and [SandboxClient.cpp]:
    the 16-bit elevation codec, the grid snapshot messages, the server's
    per-client protocol state machine with its streaming-client counter,
    the broadcast pass, the client's receive callback, and the
    line/bathymetry intersection routine.

    Floating-point code is written once, over an interface of the
    arithmetic operations the C++ uses ([Numeric]).  The interface has
    an IEEE 754 instance (binary32 for [GLfloat], binary64 for
    [Scalar]), which is what the program runs, and an instance over the
    rationals, which is the program with rounding left out; statements
    that speak of exact values (a bound, a root equal to one half) are
    proved for the latter and evaluated on the former. *)

From Stdlib Require Import ZArith QArith Qround Qabs Lia Lqa Bool.
From Stdlib Require Import Floats.SpecFloat.
From stdpp Require Import base option list gmap.

Set Default Proof Using "Type".
Local Open Scope Z_scope.

(** ** Arithmetic interface *)

Class Numeric (F : Type) := {
  of_int : Z -> F;            (* conversion of an integer, also integral literals *)
  half : F;                   (* the literal 0.5 *)
  nadd : F -> F -> F;
  nsub : F -> F -> F;
  nmul : F -> F -> F;
  ndiv : F -> F -> F;
  nneg : F -> F;
  nsqrt : F -> F;              (* Math::sqrt *)
  nltb : F -> F -> bool;
  nleb : F -> F -> bool;
  neqb : F -> F -> bool;
  floor_int : F -> Z;         (* GLsizei(Math::floor(x)) *)
  trunc_int : F -> Z          (* conversion to an integer type, toward zero *)
}.

Declare Scope num_scope.
Delimit Scope num_scope with num.
Notation "x + y" := (nadd x y) : num_scope.
Notation "x - y" := (nsub x y) : num_scope.
Notation "x * y" := (nmul x y) : num_scope.
Notation "x / y" := (ndiv x y) : num_scope.
Notation "- x" := (nneg x) : num_scope.
Notation "x <? y" := (nltb x y) : num_scope.
Notation "x <=? y" := (nleb x y) : num_scope.
Notation "x >? y" := (nltb y x) : num_scope.
Notation "x >=? y" := (nleb y x) : num_scope.
Notation "x =? y" := (neqb x y) : num_scope.

(** *** IEEE 754 binary formats, on Rocq's [spec_float]. *)

Module IEEE.

(** Integer part toward zero of a float; the conversion is undefined in
    C++ on infinities and NaN, which are sent to 0 here. *)
Definition trunc (x : spec_float) : Z :=
  match x with
  | S754_finite s m e =>
      let a := match e with
               | Zneg p => Z.shiftr (Zpos m) (Zpos p)
               | _ => Z.shiftl (Zpos m) e
               end in
      if s then - a else a
  | _ => 0
  end.

(** Largest integer below a float (0 on infinities and NaN). *)
Definition floor (x : spec_float) : Z :=
  match x with
  | S754_finite s m e =>
      match e with
      | Zneg p =>
          if s then - Z.shiftr (Zpos m + Z.shiftl 1 (Zpos p) - 1) (Zpos p)
          else Z.shiftr (Zpos m) (Zpos p)
      | _ => if s then - Z.shiftl (Zpos m) e else Z.shiftl (Zpos m) e
      end
  | _ => 0
  end.

Section Format.
Variables prec emax : Z.

Definition ops : Numeric spec_float := {|
  of_int n := binary_normalize prec emax n 0 false;
  half := binary_normalize prec emax 1 (-1) false;
  nadd := SFadd prec emax;
  nsub := SFsub prec emax;
  nmul := SFmul prec emax;
  ndiv := SFdiv prec emax;
  nneg := SFopp;
  nsqrt := SFsqrt prec emax;
  nltb := SFltb;
  nleb := SFleb;
  neqb := SFeqb;
  floor_int := floor;
  trunc_int := trunc
|}.

(** Conversion of a value of a narrower format to this one. *)
Definition widen (x : spec_float) : spec_float :=
  match x with
  | S754_finite s m e => binary_round prec emax s m e
  | _ => x
  end.
End Format.

(** Memory image of a binary32 value ([Misc::Float32]). *)
Definition image32 (x : spec_float) : Z :=
  match x with
  | S754_zero s => if s then 2 ^ 31 else 0
  | S754_infinity s => (if s then 2 ^ 31 else 0) + 0x7f800000
  | S754_nan => 0x7fc00000
  | S754_finite s m e =>
      (if s then 2 ^ 31 else 0)
      + (if Zpos m <? 2 ^ 23 then Zpos m
         else (e + 150) * 2 ^ 23 + (Zpos m - 2 ^ 23))
  end.

Definition binary32 : Numeric spec_float := ops 24 128.
Definition binary64 : Numeric spec_float := ops 53 1024.

(** The float [m * 2^e] in binary32 and binary64. *)
Definition f32 (m e : Z) : spec_float := binary_normalize 24 128 m e false.
Definition f64 (m e : Z) : spec_float := binary_normalize 53 1024 m e false.

(** The binary32 value with a given memory image. *)
Definition of_image32 (z : Z) : spec_float :=
  let s := Z.testbit z 31 in
  let e := Z.land (Z.shiftr z 23) 255 in
  let m := Z.land z (2 ^ 23 - 1) in
  if e =? 0 then
    match m with Zpos p => S754_finite s p (-149) | _ => S754_zero s end
  else if e =? 255 then
    if m =? 0 then S754_infinity s else S754_nan
  else
    match m + 2 ^ 23 with Zpos p => S754_finite s p (e - 150) | _ => S754_nan end.


End IEEE.

(** *** Exact arithmetic on the rationals.

    A value is a rational or undefined ([None]): a quotient by zero and
    the root of a negative number are undefined, an operation on an
    undefined operand is undefined, and a comparison with one is false.
    The square root is not rational: the instance takes the function
    standing for [Math::sqrt] as an argument. *)

Module Exact.

Definition real : Type := option Q.

Definition lift2 (f : Q -> Q -> Q) (x y : real) : real :=
  match x, y with
  | Some a, Some b => Some (f a b)
  | _, _ => None
  end.

Definition test2 (f : Q -> Q -> bool) (x y : real) : bool :=
  match x, y with
  | Some a, Some b => f a b
  | _, _ => false
  end.

Definition quotient (x y : real) : real :=
  match x, y with
  | Some a, Some b => if Qeq_bool b 0 then None else Some (a / b)%Q
  | _, _ => None
  end.

Definition root (sq : Q -> Q) (x : real) : real :=
  match x with
  | Some a => if Qle_bool 0 a then Some (sq a) else None
  | None => None
  end.

Definition Qltb (x y : Q) : bool := negb (Qle_bool y x).

Definition Qtrunc (x : Q) : Z := Z.quot (Qnum x) (Zpos (Qden x)).

(** Equality of values: of the rationals, not of their fractions. *)
Definition eqv (x y : real) : Prop :=
  match x, y with
  | Some a, Some b => (a == b)%Q
  | None, None => True
  | _, _ => False
  end.

Definition ops (sq : Q -> Q) : Numeric real := {|
  of_int n := Some (inject_Z n);
  half := Some (1 # 2);
  nadd := lift2 Qplus;
  nsub := lift2 Qminus;
  nmul := lift2 Qmult;
  ndiv := quotient;
  nneg := option_map Qopp;
  nsqrt := root sq;
  nltb := test2 Qltb;
  nleb := test2 Qle_bool;
  neqb := test2 Qeq_bool;
  floor_int x := match x with Some a => Qfloor a | None => 0 end;
  trunc_int x := match x with Some a => Qtrunc a | None => 0 end
|}.

(** A rational approximation of the square root, to 2^-32. *)
Definition sqrt32 (x : Q) : Q :=
  Z.sqrt (Qfloor (x * inject_Z (2 ^ 64))) # (2 ^ 32).

End Exact.

(** ** Bytes on the wire and the buffered TCP pipe *)

Definition byte := Byte.byte.

Definition Z_of_byte (b : byte) : Z := Z.of_N (Byte.to_N b).

Definition byte_of_Z (z : Z) : byte :=
  default Byte.x00 (Byte.of_N (Z.to_N (z mod 256))).

(** Little-endian value of a byte string and its inverse on [n] bytes. *)
Fixpoint le_value (bs : list byte) : Z :=
  match bs with
  | [] => 0
  | b :: bs' => Z_of_byte b + 256 * le_value bs'
  end.

Fixpoint le_bytes (n : nat) (v : Z) : list byte :=
  match n with
  | O => []
  | S n' => byte_of_Z v :: le_bytes n' (v / 256)
  end.

(** Memory image of an [n]-byte integer on a host; [be] says the host is
    big-endian. *)
Definition host_bytes (be : bool) (n : nat) (v : Z) : list byte :=
  if be then reverse (le_bytes n v) else le_bytes n v.

Definition host_value (be : bool) (bs : list byte) : Z :=
  le_value (if be then reverse bs else bs).

(** Exceptions: a computation on a state either completes or throws
    [std::runtime_error]; the state mutated so far survives the throw. *)
Inductive outcome (St : Type) : Type :=
  | Done (s : St)
  | Raised (s : St).
Arguments Done {St} s.
Arguments Raised {St} s.

Definition and_then {St} (o : outcome St) (k : St -> outcome St) : outcome St :=
  match o with
  | Done s => k s
  | Raised s => Raised s
  end.

Definition outcome_map {St T} (f : St -> T) (o : outcome St) : outcome T :=
  match o with
  | Done s => Done (f s)
  | Raised s => Raised (f s)
  end.

Definition final {St} (o : outcome St) : St :=
  match o with Done s | Raised s => s end.

Definition completed {St} (o : outcome St) : bool :=
  match o with Done _ => true | Raised _ => false end.

(** [for(i=i0; i<i0+n; ++i) body] with exceptions leaving the loop. *)
Fixpoint for_loop {St} (n : nat) (i : Z) (body : Z -> St -> outcome St) (s : St)
  : outcome St :=
  match n with
  | O => Done s
  | S n' => and_then (body i s) (for_loop n' (i + 1) body)
  end.

(** [Comm::TCPPipe] as the program sees it.  [inbound] is what the peer
    sends until the connection ends; a read past its end throws.
    [outbound] is what has been delivered to the peer.  [credit] bounds
    the bytes the connection still accepts before writes throw ([None]:
    the connection stays up).  Write buffering is not modelled: [flush]
    is the identity. *)
Record TCPPipe : Type := mkPipe {
  inbound : list byte;
  swapOnRead : bool;
  outbound : list byte;
  credit : option nat
}.

Definition setSwapOnRead (b : bool) (p : TCPPipe) : TCPPipe :=
  mkPipe (inbound p) b (outbound p) (credit p).

Definition write_raw (bs : list byte) (p : TCPPipe) : outcome TCPPipe :=
  match credit p with
  | None => Done (mkPipe (inbound p) (swapOnRead p) (outbound p ++ bs) None)
  | Some c =>
      if (length bs <=? c)%nat
      then Done (mkPipe (inbound p) (swapOnRead p) (outbound p ++ bs)
                        (Some (c - length bs)%nat))
      else Raised (mkPipe (inbound p) (swapOnRead p) (outbound p ++ take c bs)
                          (Some O))
  end.

(** [read_raw n p]: the next [n] bytes, or [None] when the read throws. *)
Definition read_raw (n : nat) (p : TCPPipe) : option (list byte * TCPPipe) :=
  if (n <=? length (inbound p))%nat
  then Some (take n (inbound p),
             mkPipe (drop n (inbound p)) (swapOnRead p) (outbound p) (credit p))
  else None.

Section Host.
Variable be : bool.   (* byte order of the host running the code *)

(** [pipe.write<T>(v)] for an [n]-byte integer type [T]. *)
Definition write_int (n : nat) (v : Z) (p : TCPPipe) : outcome TCPPipe :=
  write_raw (host_bytes be n v) p.

(** [pipe.read<T>()]: the bytes are stored as they come and reversed in
    place when swap-on-read is set. *)
Definition read_int (n : nat) (p : TCPPipe) : option (Z * TCPPipe) :=
  match read_raw n p with
  | Some (bs, p') =>
      Some (host_value be (if swapOnRead p then reverse bs else bs), p')
  | None => None
  end.

(** [pipe.read(array,count)] for [n]-byte elements. *)
Fixpoint read_ints (n count : nat) (p : TCPPipe) : option (list Z * TCPPipe) :=
  match count with
  | O => Some ([], p)
  | S count' =>
      match read_int n p with
      | Some (v, p') =>
          match read_ints n count' p' with
          | Some (vs, p'') => Some (v :: vs, p'')
          | None => None
          end
      | None => None
      end
  end.
End Host.

(** ** The elevation codec *)

Module RemoteServer.

Inductive ClientStates : Type := START | STREAMING.

#[global] Instance ClientStates_eq_dec : EqDecision ClientStates.
Proof. solve_decision. Defined.

(** Addresses of heap-allocated [Client] objects and dispatcher keys. *)
Definition loc := positive.
Definition ListenerKey := positive.

(** [struct Client].  [position] and [direction] hold the three
    [Misc::Float32] values last received, as their 32-bit images;
    they are indeterminate ([None]) until the first update. *)
Record Client : Type := mkClient {
  clientPipe : TCPPipe;
  listenerKey : ListenerKey;
  state : ClientStates;
  position : option (list Z);
  direction : option (list Z)
}.

(** The members of [RemoteServer] the communication thread works on.
    [clients] holds pointers into [heap]; [listeners] is the
    dispatcher's table of client listeners (key to [userData]), and
    [nextKey] the key its next [addIOEventListener] returns. *)
Record Server : Type := mkServer {
  clients : list loc;
  heap : gmap loc Client;
  numClients : Z;
  listeners : gmap ListenerKey loc;
  nextKey : ListenerKey
}.

(** State after the constructor. *)
Definition init : Server := mkServer [] ∅ 0 ∅ 1%positive.

Definition UINT_MAX1 : Z := 2 ^ 32.

(** [*cIt=clients.back(); clients.pop_back();] at index [i]. *)
Definition swap_remove (i : nat) (l : list loc) : list loc :=
  match last l with
  | Some b => take (pred (length l)) (<[i := b]> l)
  | None => l
  end.

(** [disconnectClient].  [None] is undefined behaviour: the pointer is
    in the list but the object is gone. *)
Definition disconnectClient (client : loc) (removeListener : bool)
    (s : Server) : option Server :=
  match list_find (λ c, c = client) (clients s) with
  | None => Some s
  | Some (i, _) =>
      cl ← heap s !! client;
      Some (mkServer
              (swap_remove i (clients s))
              (delete client (heap s))
              (if decide (state cl = STREAMING)
               then (numClients s - 1) mod UINT_MAX1 else numClients s)
              (if removeListener
               then delete (listenerKey cl) (listeners s) else listeners s)
              (nextKey s))
  end.

Section Codec.
Context {F : Type} `{Numeric F}.
Local Open Scope num_scope.

(** [struct GridBuffers]; [init] allocates (h-1)*(w-1) and h*w cells. *)
Record GridBuffers : Type := mkGrids {
  bathymetry : list F;
  waterLevel : list F
}.

Definition allocated (gridSize : Z * Z) (gb : GridBuffers) : Prop :=
  Z.of_nat (length (bathymetry gb)) = ((gridSize.2 - 1) * (gridSize.1 - 1))%Z ∧
  Z.of_nat (length (waterLevel gb)) = (gridSize.2 * gridSize.1)%Z.

(** [eScale] and [eOffset] of [communicationThreadMethod]. *)
Definition eScale (elevationRange : F * F) : F :=
  of_int 65535 / (elevationRange.2 - elevationRange.1).

Definition eOffset (elevationRange : F * F) : F :=
  half - elevationRange.1 * eScale elevationRange.

(** The value handed to [clientPipe.write<Misc::UInt16>] for one sample. *)
Definition quantize (elevationRange : F * F) (e : F) : Z :=
  let se := e * eScale elevationRange + eOffset elevationRange in
  if se <=? of_int 0 then 0
  else if se >=? of_int 65535 then 65535
  else (trunc_int se) mod 65536.

Variable be : bool.

(** One iteration of an inner loop: the sample under the pointer is
    quantized and written, then the pointer advances. *)
Definition write_sample (elevationRange : F * F) (grid : list F)
    (st : nat * TCPPipe) : outcome (nat * TCPPipe) :=
  let '(ptr, p) := st in
  match write_int be 2 (quantize elevationRange
                          (default (of_int 0) (grid !! ptr))) p with
  | Done p' => Done (S ptr, p')
  | Raised p' => Raised (ptr, p')
  end.

(** The [try] block of the broadcast for one client. *)
Definition sendGrids (gridSize : Z * Z) (elevationRange : F * F)
    (gb : GridBuffers) (p : TCPPipe) : outcome TCPPipe :=
  outcome_map snd
    (and_then
       (for_loop (Z.to_nat (gridSize.2 - 1)) 0
          (λ _, for_loop (Z.to_nat (gridSize.1 - 1)) 0
                  (λ _, write_sample elevationRange (bathymetry gb)))
          (O, p))
       (λ st,
          for_loop (Z.to_nat gridSize.2) 0
            (λ _, for_loop (Z.to_nat gridSize.1) 0
                    (λ _, write_sample elevationRange (waterLevel gb)))
            (O, st.2))).
End Codec.
Arguments GridBuffers F : clear implicits.

Section Protocol.
Context {F : Type} `{Numeric F}.
Variable be : bool.                  (* byte order of the server host *)
Variable float32_image : F -> Z.     (* memory image of a [Misc::Float32] *)
Variable gridSize : Z * Z.
Variable cellSize : F * F.
Variable elevationRange : F * F.

Definition with_client (c : loc) (cl : Client) (s : Server) : Server :=
  mkServer (clients s) (<[c := cl]> (heap s)) (numClients s)
           (listeners s) (nextKey s).

Definition with_pipe (p : TCPPipe) (cl : Client) : Client :=
  mkClient p (listenerKey cl) (state cl) (position cl) (direction cl).

(** The writes of [newConnectionCallback], up to [flush]. *)
Definition sendHandshake (p : TCPPipe) : outcome TCPPipe :=
  and_then (write_int be 4 0x12345678 p) (λ p,
  and_then (write_int be 4 gridSize.1 p) (λ p,
  and_then (write_int be 4 (float32_image cellSize.1) p) (λ p,
  and_then (write_int be 4 gridSize.2 p) (λ p,
  and_then (write_int be 4 (float32_image cellSize.2) p) (λ p,
  and_then (write_int be 4 (float32_image elevationRange.1) p) (λ p,
  write_int be 4 (float32_image elevationRange.2) p)))))).

(** [newConnectionCallback] for a connection whose [new Client]
    returns the address [l]; [inb] and [cr] describe the peer. *)
Definition newConnectionCallback (l : loc) (inb : list byte)
    (cr : option nat) (s : Server) : Server :=
  match sendHandshake (mkPipe inb false [] cr) with
  | Done p =>
      mkServer (clients s ++ [l])
               (<[l := mkClient p (nextKey s) START None None]> (heap s))
               (numClients s)
               (<[nextKey s := l]> (listeners s))
               (Pos.succ (nextKey s))
  | Raised _ => s
  end.

(** The [try] block of [clientMessageCallback]: the client and the
    counter after it, completed or thrown. *)
Definition handleMessage (cl : Client) (n : Z) : outcome (Client * Z) :=
  match state cl with
  | START =>
      match read_int be 4 (clientPipe cl) with
      | None => Raised (cl, n)
      | Some (token, p) =>
          let cl1 := with_pipe p cl in
          if decide (token = 0x78563412) then
            Done (mkClient (setSwapOnRead true p) (listenerKey cl)
                           STREAMING (position cl) (direction cl),
                  (n + 1) mod UINT_MAX1)
          else if decide (token ≠ 0x12345678) then Raised (cl1, n)
          else
            Done (mkClient p (listenerKey cl) STREAMING
                           (position cl) (direction cl),
                  (n + 1) mod UINT_MAX1)
      end
  | STREAMING =>
      match read_int be 2 (clientPipe cl) with
      | None => Raised (cl, n)
      | Some (token, p) =>
          let cl1 := with_pipe p cl in
          if decide (token = 0) then
            match read_ints be 4 3 p with
            | None => Raised (cl1, n)
            | Some (pos, p2) =>
                let cl2 := mkClient p2 (listenerKey cl) (state cl)
                                    (Some pos) (direction cl) in
                match read_ints be 4 3 p2 with
                | None => Raised (cl2, n)
                | Some (dir, p3) =>
                    Done (mkClient p3 (listenerKey cl) (state cl)
                                   (Some pos) (Some dir), n)
                end
            end
          else Raised (cl1, n)
      end
  end.

(** [clientMessageCallback] with [userData = client]: the returned
    flag asks the dispatcher to drop the listener. *)
Definition clientMessageCallback (client : loc) (s : Server)
    : option (bool * Server) :=
  cl ← heap s !! client;
  match handleMessage cl (numClients s) with
  | Done (cl', n') =>
      Some (false, mkServer (clients s) (<[client := cl']> (heap s)) n'
                            (listeners s) (nextKey s))
  | Raised (cl', n') =>
      s' ← disconnectClient client false
             (mkServer (clients s) (<[client := cl']> (heap s)) n'
                       (listeners s) (nextKey s));
      Some (true, s')
  end.

(** The dispatcher delivering a read event to listener [k]. *)
Definition dispatchClientEvent (k : ListenerKey) (s : Server)
    : option Server :=
  client ← listeners s !! k;
  '(remove, s') ← clientMessageCallback client s;
  Some (if remove : bool
        then mkServer (clients s') (heap s') (numClients s')
                      (delete k (listeners s')) (nextKey s')
        else s').

(** First loop of the broadcast: every streaming client is sent the
    grids; those whose write throws are collected. *)
Definition broadcast_step (gb : GridBuffers F)
    (acc : option (Server * list loc)) (c : loc)
    : option (Server * list loc) :=
  '(s, deadClients) ← acc;
  cl ← heap s !! c;
  if decide (state cl = STREAMING) then
    match sendGrids be gridSize elevationRange gb (clientPipe cl) with
    | Done p => Some (with_client c (with_pipe p cl) s, deadClients)
    | Raised p =>
        Some (with_client c (with_pipe p cl) s, deadClients ++ [c])
    end
  else Some (s, deadClients).

Definition disconnect_step (acc : option Server) (c : loc)
    : option Server :=
  s ← acc; disconnectClient c true s.

(** [communicationThreadMethod] once [grids.lockNewValue()] holds. *)
Definition broadcast (gb : GridBuffers F) (s : Server) : option Server :=
  '(s1, deadClients) ← foldl (broadcast_step gb) (Some (s, [])) (clients s);
  foldl disconnect_step (Some s1) deadClients.

(** What happens on the communication thread. *)
Inductive Event : Type :=
  | NewConnection (l : loc) (inb : list byte) (cr : option nat)
  | ClientReadable (k : ListenerKey)
  | NewGrids (gb : GridBuffers F).

Definition exec (ev : Event) (s : Server) : option Server :=
  match ev with
  | NewConnection l inb cr =>
      if decide (heap s !! l = None)
      then Some (newConnectionCallback l inb cr s) else None
  | ClientReadable k => dispatchClientEvent k s
  | NewGrids gb => broadcast gb s
  end.

Inductive reachable : Server -> Prop :=
  | reach_init : reachable init
  | reach_step s ev s' :
      reachable s -> exec ev s = Some s' -> reachable s'.

(** Number of list entries that point to a streaming client. *)
Definition streaming (s : Server) (c : loc) : bool :=
  match heap s !! c with
  | Some cl => bool_decide (state cl = STREAMING)
  | None => false
  end.

Definition numStreaming (s : Server) : Z :=
  Z.of_nat (length (filter (λ c, streaming s c = true) (clients s))).
End Protocol.
Arguments Event F : clear implicits.
(** *** Construction, the request schedule, the client icons, destruction *)

Section Lifecycle.
Context {F : Type} `{Numeric F}.
Local Open Scope num_scope.

(** The literal [0.05f]: the quotient 5/100, correctly rounded. *)
Definition literal_0_05 : F := of_int 5 / of_int 100.

(** The elevation range the constructor keeps, from the third
    coordinates of the water table's domain: the second statement
    reads the minimum the first one has already lowered. *)
Definition constructor_elevationRange (domain : F * F) : F * F :=
  let r0 := domain.1 in
  let r1 := domain.2 in
  let r0 := r0 - (r1 - r0) * literal_0_05 in
  let r1 := r1 + (r1 - r0) * literal_0_05 in
  (r0, r1).

(** [Math::floor] on a floating-point number: an infinity or a NaN
    (the values for which [x - x] is not zero) is returned as it is. *)
Definition Math_floor (x : F) : F :=
  if x - x =? of_int 0 then of_int (floor_int x) else x.

(** The members [frame] works on besides [numClients]. *)
Record Schedule : Type := mkSchedule {
  requestInterval : F;
  nextRequestTime : F
}.

(** [frame]: the flag says that [requestGrids] was called; [granted]
    is what that call returns. *)
Definition frame (numClients : Z) (granted : bool) (applicationTime : F)
    (sch : Schedule) : bool * Schedule :=
  if (numClients >? 0)%Z && (applicationTime >=? nextRequestTime sch) then
    (true,
     if granted
     then mkSchedule (requestInterval sch)
            ((Math_floor (applicationTime / requestInterval sch) + of_int 1)
             * requestInterval sch)
     else sch)
  else (false, sch).

End Lifecycle.
Arguments Schedule F : clear implicits.

(** What the loop over [clients] in [communicationThreadMethod] reads
    from a streaming client to build its transformation: the members
    [position] and [direction]. *)
Definition Pose : Type := option (list Z) * option (list Z).

Definition positions_step (s : Server) (acc : option (list Pose)) (c : loc)
    : option (list Pose) :=
  positions ← acc;
  cl ← heap s !! c;
  if decide (state cl = STREAMING)
  then Some (positions ++ [(position cl, direction cl)])
  else Some positions.

(** The entry a listed client contributes, if any. *)
Definition streaming_pose (s : Server) (c : loc) : option Pose :=
  cl ← heap s !! c;
  if decide (state cl = STREAMING)
  then Some (position cl, direction cl) else None.

(** The entries of [positions] after the loop, one per
    [positions.push_back]. *)
Definition collectPositions (s : Server) : option (list Pose) :=
  foldl (positions_step s) (Some []) (clients s).

(** The destructor's loop [delete *cIt]: the heap afterwards; deleting
    an object that is gone is undefined. *)
Definition destructor_step (acc : option (gmap loc Client)) (c : loc)
    : option (gmap loc Client) :=
  h ← acc;
  _ ← h !! c;
  Some (delete c h).

Definition destructor (s : Server) : option (gmap loc Client) :=
  foldl destructor_step (Some (heap s)) (clients s).

End RemoteServer.

(** Modelled from the spec: [Threads::TripleBuffer] of the Vrui toolkit,
    which the repository uses but does not contain.  The writer fills the
    slot that is neither locked by the reader nor the most recent one and
    publishes it; the reader locks the most recent slot. *)
Module TripleBuffer.
Record t (A : Type) : Type := mk {
  buffer : list A;              (* three slots *)
  lockedIndex : nat;
  mostRecentIndex : nat
}.
Arguments mk {A} _ _ _.
Arguments buffer {A} _.
Arguments lockedIndex {A} _.
Arguments mostRecentIndex {A} _.

Definition nextIndex {A} (tb : t A) : nat :=
  let n := (S (lockedIndex tb) mod 3)%nat in
  if decide (n = mostRecentIndex tb) then (S n mod 3)%nat else n.

(** Slot handed out by [startNewValue]. *)
Definition startNewValue {A} (tb : t A) : option A := buffer tb !! nextIndex tb.

(** Storing through the reference [startNewValue] returned. *)
Definition store {A} (v : A) (tb : t A) : t A :=
  mk (<[nextIndex tb := v]> (buffer tb)) (lockedIndex tb) (mostRecentIndex tb).

Definition postNewValue {A} (tb : t A) : t A :=
  mk (buffer tb) (lockedIndex tb) (nextIndex tb).

Definition lockNewValue {A} (tb : t A) : bool * t A :=
  (bool_decide (lockedIndex tb ≠ mostRecentIndex tb),
   mk (buffer tb) (mostRecentIndex tb) (mostRecentIndex tb)).

Definition getLockedValue {A} (tb : t A) : option A := buffer tb !! lockedIndex tb.

(** The value a reader gets at its next [lockNewValue]. *)
Definition mostRecent {A} (tb : t A) : option A := buffer tb !! mostRecentIndex tb.
End TripleBuffer.

Module SandboxClient.
Section Grids.
Context {F : Type} `{Numeric F}.
Local Open Scope num_scope.

Record GridBuffers : Type := mkGrids {
  bathymetry : list F;
  waterLevel : list F
}.

Definition allocated (gridSize : Z * Z) (gb : GridBuffers) : Prop :=
  Z.of_nat (length (bathymetry gb)) = ((gridSize.2 - 1) * (gridSize.1 - 1))%Z ∧
  Z.of_nat (length (waterLevel gb)) = (gridSize.2 * gridSize.1)%Z.

(** The members of [SandboxClient] the communication thread works on;
    [listening] says the dispatcher still has the pipe's listener,
    [connected] that the pipe has not been deleted. *)
Record Client : Type := mkClient {
  pipe : TCPPipe;
  connected : bool;
  listening : bool;
  grids : TripleBuffer.t GridBuffers
}.

Variable be : bool.                  (* byte order of the client host *)
Variable gridSize : Z * Z.
Variable elevationRange : F * F.

(** [eScale] and [eOffset] of [readGrids]. *)
Definition eScale : F := (elevationRange.2 - elevationRange.1) / of_int 65535.
Definition eOffset : F := elevationRange.1.

Definition dequantize (code : Z) : F := of_int code * eScale + eOffset.

(** One iteration of an inner loop of [readGrids]: a code is read,
    its elevation stored under the pointer, and the pointer advances. *)
Definition read_sample (st : nat * TCPPipe * list F)
    : outcome (nat * TCPPipe * list F) :=
  let '(ptr, p, grid) := st in
  match read_int be 2 p with
  | Some (code, p') => Done (S ptr, p', <[ptr := dequantize code]> grid)
  | None => Raised st
  end.

(** The two loop nests of [readGrids] on the slot [gb]. *)
Definition receiveGrids (gb : GridBuffers) (p : TCPPipe)
    : outcome (TCPPipe * GridBuffers) :=
  match for_loop (Z.to_nat (gridSize.2 - 1)) 0
          (λ _, for_loop (Z.to_nat (gridSize.1 - 1)) 0 (λ _, read_sample))
          (O, p, bathymetry gb) with
  | Raised (_, p1, b) => Raised (p1, mkGrids b (waterLevel gb))
  | Done (_, p1, b) =>
      match for_loop (Z.to_nat gridSize.2) 0
              (λ _, for_loop (Z.to_nat gridSize.1) 0 (λ _, read_sample))
              (O, p1, waterLevel gb) with
      | Raised (_, p2, w) => Raised (p2, mkGrids b w)
      | Done (_, p2, w) => Done (p2, mkGrids b w)
      end
  end.

(** [readGrids]. *)
Definition readGrids (c : Client) : outcome Client :=
  let gb := default (mkGrids [] []) (TripleBuffer.startNewValue (grids c)) in
  match receiveGrids gb (pipe c) with
  | Done (p, gb') =>
      Done (mkClient p (connected c) (listening c)
              (TripleBuffer.postNewValue (TripleBuffer.store gb' (grids c))))
  | Raised (p, gb') =>
      Raised (mkClient p (connected c) (listening c)
                (TripleBuffer.store gb' (grids c)))
  end.

(** [serverMessageCallback]: the flag asks the dispatcher to drop the
    listener. *)
Definition serverMessageCallback (c : Client) : bool * Client :=
  match readGrids c with
  | Done c' => (false, c')
  | Raised c' => (false, c')
  end.

(** The dispatcher of [communicationThreadMethod] delivering a read
    event on the pipe. *)
Definition dispatchNextEvent (c : Client) : Client :=
  if listening c then
    let '(remove, c') := serverMessageCallback c in
    if remove : bool
    then mkClient (pipe c') (connected c') false (grids c') else c'
  else c.
End Grids.
Arguments GridBuffers F : clear implicits.
Arguments Client F : clear implicits.

Section Intersect.
Context {F Sc : Type} {NF : Numeric F} {NS : Numeric Sc}.
Local Open Scope num_scope.

Variable widen : F -> Sc.             (* [Scalar(x)] for a [GLfloat] x *)
Variable gridSize : Z * Z.
Variable cellSize : F * F.
Variable locked : list F.             (* [grids.getLockedValue().bathymetry] *)

(** [Math::max], [Math::min] and [Math::clamp] of the Vrui toolkit. *)
Definition Math_max (v1 v2 : Sc) : Sc := if v1 >=? v2 then v1 else v2.
Definition Math_min (v1 v2 : Sc) : Sc := if v1 <=? v2 then v1 else v2.
Definition Math_clamp (v lo hi : Z) : Z :=
  if (v <? lo)%Z then lo else if (v >? hi)%Z then hi else v.

Definition Point : Type := Sc * Sc * Sc.

Definition coord (i : nat) (p : Point) : Sc :=
  match i with O => p.1.1 | 1%nat => p.1.2 | _ => p.2 end.

Definition dim (i : nat) : Z :=
  match i with O => gridSize.1 | _ => gridSize.2 end.

(** Conversion of a point to grid coordinates. *)
Definition to_grid (p : Point) : Point :=
  (coord 0 p / widen cellSize.1 - half,
   coord 1 p / widen cellSize.2 - half,
   coord 2 p).

Definition difference (p q : Point) : Point :=
  (coord 0 p - coord 0 q, coord 1 p - coord 1 q, coord 2 p - coord 2 q).

(** [Geometry::affineCombination(p,q,w)]: p*(1-w)+q*w by component. *)
Definition affineCombination (p q : Point) (w : Sc) : Point :=
  let w1 := of_int 1 - w in
  (coord 0 p * w1 + coord 0 q * w,
   coord 1 p * w1 + coord 1 q * w,
   coord 2 p * w1 + coord 2 q * w).

(** Clipping of the interval (l0,l1) against one lower and one upper
    boundary; [None] is the early [return Scalar(1)]. *)
Definition clip_lower (b g0 g1 gdi : Sc) (l : Sc * Sc) : option (Sc * Sc) :=
  if g0 <? b then
    if g1 >? b then Some (Math_max l.1 ((b - g0) / gdi), l.2) else None
  else if g1 <? b then
    if g0 >? b then Some (l.1, Math_min l.2 ((b - g0) / gdi)) else None
  else Some l.

Definition clip_upper (b g0 g1 gdi : Sc) (l : Sc * Sc) : option (Sc * Sc) :=
  if g0 >? b then
    if g1 <? b then Some (Math_max l.1 ((b - g0) / gdi), l.2) else None
  else if g1 >? b then
    if g0 <? b then Some (l.1, Math_min l.2 ((b - g0) / gdi)) else None
  else Some l.

Definition clip_axis (gp0 gp1 gd : Point) (i : nat) (l : Sc * Sc)
    : option (Sc * Sc) :=
  l' ← clip_lower (of_int 0) (coord i gp0) (coord i gp1) (coord i gd) l;
  clip_upper (of_int (dim i - 2)) (coord i gp0) (coord i gp1) (coord i gd) l'.

Definition clip (gp0 gp1 gd : Point) : option (Sc * Sc) :=
  l ← clip_axis gp0 gp1 gd 0 (of_int 0, of_int 1);
  clip_axis gp0 gp1 gd 1 l.

(** One axis of the search for the parameter at which the segment
    leaves the cell [cp]. *)
Definition exit_axis (gp0 gp1 gd : Point) (cp : Z * Z) (i : nat)
    (st : Sc * option nat) : Sc * option nat :=
  let cl1 := st.1 in
  let cpi := match i with O => cp.1 | _ => cp.2 end in
  let el :=
    if coord i gp0 <? coord i gp1 then (of_int (cpi + 1) - coord i gp0) / coord i gd
    else if coord i gp0 >? coord i gp1 then (of_int cpi - coord i gp0) / coord i gd
    else cl1 in
  if cl1 >? el then (el, Some i) else st.

Definition cell_exit (gp0 gp1 gd : Point) (cp : Z * Z) (l1 : Sc)
    : Sc * option nat :=
  exit_axis gp0 gp1 gd cp 1 (exit_axis gp0 gp1 gd cp 0 (l1, None)).

(** Reading [cell[k]] for [cell = bathymetry + base]; [None] when the
    address lies outside the array. *)
Definition cell_at (base k : Z) : option F :=
  if (base + k <? 0)%Z then None else locked !! Z.to_nat (base + k).

(** Coefficients a, b, c of the quadratic for the cell [cp]. *)
Definition coefficients (gp0 gd : Point) (cp : Z * Z) : option (Sc * Sc * Sc) :=
  let base := (cp.2 * (gridSize.1 - 1) + cp.1)%Z in
  c0 ← widen <$> cell_at base 0;
  c1 ← widen <$> cell_at base 1;
  c2 ← widen <$> cell_at base (gridSize.1 - 1);
  c3 ← widen <$> cell_at base gridSize.1;
  let cx0 := of_int cp.1 in
  let cx1 := of_int (cp.1 + 1) in
  let cy0 := of_int cp.2 in
  let cy1 := of_int (cp.2 + 1) in
  let fxy := c0 - c1 + c3 - c2 in
  let fx := (c1 - c0) * cy1 - (c3 - c2) * cy0 in
  let fy := (c2 - c0) * cx1 - (c3 - c1) * cx0 in
  let f := (c0 * cx1 - c1 * cx0) * cy1 - (c2 * cx1 - c3 * cx0) * cy0 in
  let a := fxy * coord 0 gd * coord 1 gd in
  let bc0 := fxy * coord 1 gp0 + fx in
  let bc1 := fxy * coord 0 gp0 + fy in
  let b := bc0 * coord 0 gd + bc1 * coord 1 gd - coord 2 gd in
  let c := bc0 * coord 0 gp0 + bc1 * coord 1 gp0 - coord 2 gp0
           - fxy * coord 0 gp0 * coord 1 gp0 + f in
  Some (a, b, c).

(** The candidate parameter [il] for a cell entered at [cl0] and left at
    [cl1]. *)
Definition solve (cl0 cl1 : Sc) (abc : Sc * Sc * Sc) : Sc :=
  let '(a, b, c) := abc in
  if negb (a =? of_int 0) then
    let det := b * b - of_int 4 * a * c in
    if det >=? of_int 0 then
      let det := nsqrt det in
      if a >? of_int 0 then
        let il := if b >=? of_int 0 then (- b - det) / (of_int 2 * a)
                  else (of_int 2 * c) / (- b + det) in
        if il <? cl0 then
          if b >=? of_int 0 then (of_int 2 * c) / (- b - det)
          else (- b + det) / (of_int 2 * a)
        else il
      else
        let il := if b >=? of_int 0 then (of_int 2 * c) / (- b - det)
                  else (- b + det) / (of_int 2 * a) in
        if il <? cl0 then
          if b >=? of_int 0 then (- b - det) / (of_int 2 * a)
          else (of_int 2 * c) / (- b + det)
        else il
    else cl1
  else - c / b.

(** The test [il>=cl0&&il<cl1]. *)
Definition valid (cl0 cl1 il : Sc) : bool := (il >=? cl0) && (il <? cl1).

(** The neighbouring cell across the boundary the segment leaves by. *)
Definition next_cell (gd : Point) (cp : Z * Z) (exit : option nat) : Z * Z :=
  match exit with
  | None => cp
  | Some i =>
      let d := if coord i gd <? of_int 0 then (-1)%Z else 1%Z in
      match i with O => (cp.1 + d, cp.2)%Z | _ => (cp.1, cp.2 + d)%Z end
  end.

(** What a call comes to: the returned parameter, a read outside the
    bathymetry array, or a walk longer than the fuel given. *)
Inductive answer : Type :=
  | Lambda (l : Sc)
  | OutOfBounds
  | OutOfFuel.

(** The [while(cl0<l1)] loop; the coefficients of the cells it solves
    are recorded in order. *)
Fixpoint walk (fuel : nat) (gp0 gp1 gd : Point) (l1 : Sc) (cp : Z * Z)
    (cl0 : Sc) : list (Sc * Sc * Sc) * answer :=
  if cl0 <? l1 then
    match fuel with
    | O => ([], OutOfFuel)
    | S fuel' =>
        let '(cl1, exit) := cell_exit gp0 gp1 gd cp l1 in
        match coefficients gp0 gd cp with
        | None => ([], OutOfBounds)
        | Some abc =>
            let il := solve cl0 cl1 abc in
            if valid cl0 cl1 il then ([abc], Lambda il)
            else
              let r := walk fuel' gp0 gp1 gd l1 (next_cell gd cp exit) cl1 in
              (abc :: r.1, r.2)
        end
    end
  else ([], Lambda (of_int 1)).

Definition intersectLine_trace (fuel : nat) (p0 p1 : Point)
    : list (Sc * Sc * Sc) * answer :=
  let gp0 := to_grid p0 in
  let gp1 := to_grid p1 in
  let gd := difference gp1 gp0 in
  match clip gp0 gp1 gd with
  | None => ([], Lambda (of_int 1))
  | Some (l0, l1) =>
      if l0 >=? l1 then ([], Lambda (of_int 1))
      else
        let gp := affineCombination gp0 gp1 l0 in
        let cp := (Math_clamp (floor_int (coord 0 gp)) 0 (dim 0 - 3),
                   Math_clamp (floor_int (coord 1 gp)) 0 (dim 1 - 3)) in
        walk fuel gp0 gp1 gd l1 cp l0
  end.

(** [intersectLine]. *)
Definition intersectLine (fuel : nat) (p0 p1 : Point) : answer :=
  (intersectLine_trace fuel p0 p1).2.

End Intersect.
(** *** Connecting to the server *)

Section Connect.
Context {F : Type} `{Numeric F}.
Variable be : bool.                      (* byte order of the client host *)
Variable float32_of_image : Z -> F.      (* the [Misc::Float32] with a memory image *)
Variable indeterminate : nat -> list F.  (* the contents of a [new GLfloat[n]] *)

(** Conversion of a [Misc::UInt32] to [GLsizei]. *)
Definition to_GLsizei (v : Z) : Z :=
  if (v <? 2 ^ 31)%Z then v else (v - 2 ^ 32)%Z.

(** A value of [int]. *)
Definition in_int (v : Z) : bool := (- 2 ^ 31 <=? v)%Z && (v <? 2 ^ 31)%Z.

(** [GridBuffers::init]: the two arrays, when both [new GLfloat[...]]
    return. *)
Definition init (gridSize : Z * Z) : GridBuffers F :=
  mkGrids (indeterminate (Z.to_nat ((gridSize.2 - 1) * (gridSize.1 - 1))))
          (indeterminate (Z.to_nat (gridSize.2 * gridSize.1))).

(** The two array sizes of [init] are values of [GLsizei] and not
    negative. *)
Definition sizes_ok (gridSize : Z * Z) : bool :=
  (0 <=? (gridSize.2 - 1) * (gridSize.1 - 1))%Z
  && ((gridSize.2 - 1) * (gridSize.1 - 1) <? 2 ^ 31)%Z
  && (0 <=? gridSize.2 * gridSize.1)%Z
  && (gridSize.2 * gridSize.1 <? 2 ^ 31)%Z.

(** One of the two [new GLfloat[...]] of [init] is reached with a
    negative size, every [int] expression evaluated up to it having a
    value of [int]: the new-expression throws
    [std::bad_array_new_length].  The second array is reached when the
    size of the first is not negative. *)
Definition size_negative (gridSize : Z * Z) : bool :=
  in_int (gridSize.2 - 1) && in_int (gridSize.1 - 1)
  && in_int ((gridSize.2 - 1) * (gridSize.1 - 1))
  && (((gridSize.2 - 1) * (gridSize.1 - 1) <? 0)%Z
      || (in_int (gridSize.2 * gridSize.1) && (gridSize.2 * gridSize.1 <? 0)%Z)).

(** The reads of grid size, cell size and elevation range. *)
Definition readHeader (p : TCPPipe)
    : option ((Z * Z) * (F * F) * (F * F) * TCPPipe) :=
  '(w, p) ← read_int be 4 p;
  '(cw, p) ← read_int be 4 p;
  '(h, p) ← read_int be 4 p;
  '(ch, p) ← read_int be 4 p;
  '(e0, p) ← read_int be 4 p;
  '(e1, p) ← read_int be 4 p;
  Some ((to_GLsizei w, to_GLsizei h),
        (float32_of_image cw, float32_of_image ch),
        (float32_of_image e0, float32_of_image e1), p).

(** What the constructor comes to on the pipe it has connected: the
    object, with the parameters it received; a [std::runtime_error],
    with the pipe deleted or not; a [std::bad_array_new_length] out of
    [init], which the handler for [std::runtime_error] does not catch,
    so that the pipe is not deleted; or an [int] overflow in the array
    sizes of [init], for which the constructor is not defined.  The
    allocations of [init] are taken to succeed when the sizes are not
    negative. *)
Inductive construction : Type :=
  | Constructed (gridSize : Z * Z) (cellSize elevationRange : F * F)
                (c : Client F)
  | Thrown (deleted : bool)
  | BadArrayNewLength
  | Undefined.

(** The [try] block of the constructor and what follows it. *)
Definition receiveSetup (p : TCPPipe) : construction :=
  match readHeader p with
  | None => Thrown true
  | Some (gridSize, cellSize, elevationRange, p) =>
      if sizes_ok gridSize then
        let slot := init gridSize in
        match readGrids be gridSize elevationRange
                (mkClient p true false (TripleBuffer.mk [slot; slot; slot] 0 0)) with
        | Raised _ => Thrown true
        | Done c =>
            Constructed gridSize cellSize elevationRange
              (mkClient (pipe c) true true (grids c))
        end
      else if size_negative gridSize then BadArrayNewLength
      else Undefined
  end.

(** The constructor, from [pipe=new Comm::TCPPipe(...)] on. *)
Definition construct (p : TCPPipe) : construction :=
  match write_int be 4 0x12345678 p with
  | Raised _ => Thrown false
  | Done p =>
      match read_int be 4 p with
      | None => Thrown false
      | Some (token, p) =>
          if decide (token = 0x78563412) then receiveSetup (setSwapOnRead true p)
          else if decide (token ≠ 0x12345678) then Thrown true
          else receiveSetup p
      end
  end.
End Connect.
Arguments construction F : clear implicits.

(** *** The frame method and the surface alignment *)

Section Frame.
Context {F Sc : Type} {NF : Numeric F} {NS : Numeric Sc}.
Local Open Scope num_scope.

Variable widen : F -> Sc.             (* [Scalar(x)] for a [GLfloat] x *)
Variable be : bool.                   (* byte order of the client host *)
Variable narrow_image : Sc -> Z.      (* image of the [Misc::Float32] of a [Scalar] *)
Variable gridSize : Z * Z.
Variable cellSize : F * F.

(** The bilinear interpolation both methods end with. *)
Definition interpolate (c0 c1 c2 c3 dx dy : Sc) : Sc :=
  let b0 := c0 * (of_int 1 - dx) + c1 * dx in
  let b1 := c2 * (of_int 1 - dx) + c3 * dx in
  b0 * (of_int 1 - dy) + b1 * dy.

(** The value [frame] assigns to [underwater] for a head position and
    the locked water level grid; [None] when a water level is read
    outside the array. *)
Definition head_underwater (waterLevel : list F) (head : @Point Sc)
    : option bool :=
  let dx := coord 0 head / widen cellSize.1 in
  let gx := floor_int dx in
  let dx := dx - of_int gx in
  let dy := coord 1 head / widen cellSize.2 in
  let gy := floor_int dy in
  let dy := dy - of_int gy in
  if (gx >=? 0)%Z && (gx <? gridSize.1 - 1)%Z
     && (gy >=? 0)%Z && (gy <? gridSize.2 - 1)%Z
  then
    let base := (gy * gridSize.1 + gx)%Z in
    c0 ← widen <$> cell_at waterLevel base 0;
    c1 ← widen <$> cell_at waterLevel base 1;
    c2 ← widen <$> cell_at waterLevel (base + gridSize.1) 0;
    c3 ← widen <$> cell_at waterLevel (base + gridSize.1) 1;
    Some (coord 2 head <=? interpolate c0 c1 c2 c3 dx dy)
  else Some false.

(** [pipe->write(array,count)] for 4-byte elements. *)
Definition write_array (vs : list Z) (p : TCPPipe) : outcome TCPPipe :=
  write_raw (flat_map (host_bytes be 4) vs) p.

(** The position update [frame] sends. *)
Definition sendPose (head view : @Point Sc) (p : TCPPipe) : outcome TCPPipe :=
  and_then (write_int be 2 0 p) (λ p,
  and_then (write_array (narrow_image <$> [coord 0 head; coord 1 head; coord 2 head]) p)
           (write_array (narrow_image <$> [coord 0 view; coord 1 view; coord 2 view]))).

(** The members [frame] works on. *)
Record App : Type := mkApp {
  client : Client F;
  gridVersion : Z;
  underwater : bool
}.

(** [frame] for a head position and a view direction; [None] when a
    water level is read outside the array. *)
Definition frame (head view : @Point Sc) (a : App) : option (outcome App) :=
  let '(fresh, tb) := TripleBuffer.lockNewValue (grids (client a)) in
  let version := if fresh : bool then ((gridVersion a + 1) mod 2 ^ 32)%Z
                 else gridVersion a in
  locked ← TripleBuffer.getLockedValue tb;
  uw ← head_underwater (waterLevel locked) head;
  let app p := mkApp (mkClient p (connected (client a)) (listening (client a)) tb)
                     version uw in
  Some (outcome_map app (sendPose head view (pipe (client a)))).

(** [alignSurfaceFrame]: the origin of the new surface frame for the
    origin [base] of the old one; [None] when an elevation is read
    outside the array. *)
Definition alignSurfaceFrame (bathymetry : list F) (base : @Point Sc)
    : option (@Point Sc) :=
  let dx := coord 0 base / widen cellSize.1 - half in
  let gx := Math_clamp (floor_int dx) 0 (gridSize.1 - 3) in
  let dx := dx - of_int gx in
  let dy := coord 1 base / widen cellSize.2 - half in
  let gy := Math_clamp (floor_int dy) 0 (gridSize.2 - 3) in
  let dy := dy - of_int gy in
  let cell := (gy * (gridSize.1 - 1) + gx)%Z in
  c0 ← widen <$> cell_at bathymetry cell 0;
  c1 ← widen <$> cell_at bathymetry cell 1;
  c2 ← widen <$> cell_at bathymetry (cell + (gridSize.1 - 1)) 0;
  c3 ← widen <$> cell_at bathymetry (cell + (gridSize.1 - 1)) 1;
  Some (coord 0 base, coord 1 base, interpolate c0 c1 c2 c3 dx dy).
End Frame.
Arguments App F : clear implicits.

(** *** The template meshes of [initContext] and the draw calls of [display] *)

Section Mesh.
Context {F : Type} {NF : Numeric F}.
Local Open Scope num_scope.

(** The template vertices written through [vPtr] for a mesh of [W] by
    [H] vertices. *)
Definition template_vertices (W H : Z) : list (F * F) :=
  flat_map (λ y, (λ x, (of_int x + half, of_int y + half)) <$> seqZ 0 W)
           (seqZ 0 H).

(** The indices written through [iPtr] for the row [y], and for the
    whole mesh.  The sums and products are those of [int]: they are the
    values written as long as the index buffer has fewer than 2^31
    entries. *)
Definition strip (W y : Z) : list Z :=
  flat_map (λ x, [y * W + x; (y - 1) * W + x]%Z) (seqZ 0 W).

Definition strip_indices (W H : Z) : list Z :=
  flat_map (strip W) (seqZ 1 (H - 1)).

(** The contents of the four buffers [initContext] fills. *)
Definition bathymetryVertexBuffer (gridSize : Z * Z) : list (F * F) :=
  template_vertices (gridSize.1 - 1) (gridSize.2 - 1).
Definition bathymetryIndexBuffer (gridSize : Z * Z) : list Z :=
  strip_indices (gridSize.1 - 1) (gridSize.2 - 1).
Definition waterVertexBuffer (gridSize : Z * Z) : list (F * F) :=
  template_vertices gridSize.1 gridSize.2.
Definition waterIndexBuffer (gridSize : Z * Z) : list Z :=
  strip_indices gridSize.1 gridSize.2.

(** [glDrawElements(GL_QUAD_STRIP,count,GL_UNSIGNED_INT,indexPtr)] on
    the bound index buffer, [indexPtr] being [offset] indices into it:
    the indices the call reads; [None] when they are not all in the
    buffer. *)
Definition glDrawElements (count offset : Z) (buffer : list Z)
    : option (list Z) :=
  if decide (0 <= count ∧ 0 <= offset
             ∧ offset + count <= Z.of_nat (length buffer))%Z
  then Some (take (Z.to_nat count) (drop (Z.to_nat offset) buffer))
  else None.

(** The draw calls of [display] for a mesh of [W] by [H] vertices. *)
Definition draw_mesh (W H : Z) (buffer : list Z) : list (option (list Z)) :=
  (λ y, glDrawElements (W * 2) ((y - 1) * (W * 2)) buffer) <$> seqZ 1 (H - 1).

(** The two meshes [display] draws. *)
Definition display (gridSize : Z * Z) : list (option (list Z)) :=
  draw_mesh (gridSize.1 - 1) (gridSize.2 - 1) (bathymetryIndexBuffer gridSize)
  ++ draw_mesh gridSize.1 gridSize.2 (waterIndexBuffer gridSize).
End Mesh.

End SandboxClient.

(** ** The formulas of the specification *)

Module Spec.
Section Codec.
Context {F : Type} `{Numeric F}.
Local Open Scope num_scope.

(** Encode: scale = 65535/(max-min), bias = 0.5 - min*scale,
    raw = e*scale + bias; the code is 0 if raw<=0, 65535 if raw>=65535,
    else the integer truncation of raw, stored as u16. *)
Definition encode (min max e : F) : Z :=
  let scale := of_int 65535 / (max - min) in
  let bias := half - min * scale in
  let raw := e * scale + bias in
  if raw <=? of_int 0 then 0
  else if raw >=? of_int 65535 then 65535
  else trunc_int raw mod 65536.

(** Decode: e = code * (max-min)/65535 + min. *)
Definition decode (min max : F) (code : Z) : F :=
  of_int code * (max - min) / of_int 65535 + min.
End Codec.

(** The cells of a [w] by [h] grid in row-major order, [g] giving the
    cell at a linear index. *)
Definition row_major {A} (w h : nat) (g : nat -> A) : list A :=
  flat_map (λ y, map (λ x, g (y * w + x)%nat) (seq 0 w)) (seq 0 h).

(** Number of elevation codes of a snapshot message. *)
Definition message_codes (W H : Z) : Z := (W - 1) * (H - 1) + W * H.
End Spec.

(** Bytes of a sequence of 16-bit codes sent by a host of byte order [be]. *)
Definition wire16 (be : bool) (codes : list Z) : list byte :=
  flat_map (host_bytes be 2) codes.

(** [room p n]: the connection behind [p] still takes [n] bytes. *)
Definition room (p : TCPPipe) (n : nat) : Prop :=
  match credit p with
  | None => True
  | Some c => (n <= c)%nat
  end.

(** The pipe once [bs] has gone out. *)
Definition sent (bs : list byte) (p : TCPPipe) : TCPPipe :=
  mkPipe (inbound p) (swapOnRead p) (outbound p ++ bs)
         (match credit p with
          | None => None
          | Some c => Some (c - length bs)%nat
          end).

(** The pipe once its next [n] bytes have been read. *)
Definition consumed (n : nat) (p : TCPPipe) : TCPPipe :=
  mkPipe (drop n (inbound p)) (swapOnRead p) (outbound p) (credit p).

(** The codes of the samples of both grids, bathymetry first. *)
Definition snapshot_codes {F : Type} `{Numeric F} (er : F * F)
    (gb : RemoteServer.GridBuffers F) : list Z :=
  map (RemoteServer.quantize er)
      (RemoteServer.bathymetry gb ++ RemoteServer.waterLevel gb).

(** In every cell solved with a = 0, the coefficient b is not 0. *)
Definition linear_division_safe {Sc : Type} `{Numeric Sc}
    (solved : list (Sc * Sc * Sc)) : Prop :=
  Forall (λ abc, (abc.1.1 =? of_int 0)%num = true ->
                 (abc.1.2 =? of_int 0)%num = false) solved.

(** The range of [Misc::UInt16]. *)
Definition u16 (c : Z) : Prop := 0 <= c < 65536.

(** ** Consistency of the server's state *)

(** The client list holds each live client once and nothing else, the
    counter is the number of streaming clients (as an [unsigned int]),
    listener keys are the clients' own, and a client that has not sent
    its token reads without swapping. *)
Record wf (s : RemoteServer.Server) : Prop := mk_wf {
  wf_nodup : NoDup (RemoteServer.clients s);
  wf_heap : ∀ c, c ∈ RemoteServer.clients s ↔
                 is_Some (RemoteServer.heap s !! c);
  wf_count : RemoteServer.numClients s
             = RemoteServer.numStreaming s mod RemoteServer.UINT_MAX1;
  wf_keys : ∀ c cl, RemoteServer.heap s !! c = Some cl ->
              (RemoteServer.listenerKey cl < RemoteServer.nextKey s)%positive;
  wf_key_inj : ∀ c1 c2 cl1 cl2,
      RemoteServer.heap s !! c1 = Some cl1 ->
      RemoteServer.heap s !! c2 = Some cl2 ->
      RemoteServer.listenerKey cl1 = RemoteServer.listenerKey cl2 -> c1 = c2;
  wf_start : ∀ c cl, RemoteServer.heap s !! c = Some cl ->
      RemoteServer.state cl = RemoteServer.START ->
      swapOnRead (RemoteServer.clientPipe cl) = false
}.

(** 1 for a streaming client, 0 otherwise. *)
Definition streaming_bit (cl : RemoteServer.Client) : Z :=
  if bool_decide (RemoteServer.state cl = RemoteServer.STREAMING) then 1 else 0.

(** Every registered client listener belongs to a live client. *)
Definition wf_listeners (s : RemoteServer.Server) : Prop :=
  ∀ k c, RemoteServer.listeners s !! k = Some c ->
    ∃ cl, RemoteServer.heap s !! c = Some cl ∧ RemoteServer.listenerKey cl = k.

Section Broadcast.
Context {F : Type} `{Numeric F}.
Variable be : bool.
Variable gridSize : Z * Z.
Variable elevationRange : F * F.
Variable gb : RemoteServer.GridBuffers F.

(** The write of the grids to a client's pipe throws. *)
Definition write_fails (cl : RemoteServer.Client) : bool :=
  negb (completed (RemoteServer.sendGrids be gridSize elevationRange gb
                     (RemoteServer.clientPipe cl))).

(** A client after the first loop of the broadcast. *)
Definition served (cl : RemoteServer.Client) : RemoteServer.Client :=
  if decide (RemoteServer.state cl = RemoteServer.STREAMING)
  then RemoteServer.with_pipe
         (final (RemoteServer.sendGrids be gridSize elevationRange gb
                   (RemoteServer.clientPipe cl))) cl
  else cl.

(** The clients the first loop of the broadcast puts in [deadClients]. *)
Definition dead (s : RemoteServer.Server) (c : RemoteServer.loc) : bool :=
  match RemoteServer.heap s !! c with
  | Some cl =>
      bool_decide (RemoteServer.state cl = RemoteServer.STREAMING)
      && write_fails cl
  | None => false
  end.
End Broadcast.

(** Sample data: a 2 by 2 water table with elevations between 0 and 10,
    both hosts little-endian. *)
Module Sample.
Definition gridSize : Z * Z := (2, 2).
Definition er32 : spec_float * spec_float := (IEEE.f32 0 0, IEEE.f32 10 0).
Definition server_grids : RemoteServer.GridBuffers spec_float :=
  RemoteServer.mkGrids
    [IEEE.f32 5 0]
    [IEEE.f32 0 0; IEEE.f32 10 0; IEEE.f32 5 (-1); IEEE.f32 (-1) 0].
Definition slot : SandboxClient.GridBuffers spec_float :=
  SandboxClient.mkGrids [S754_zero false] (replicate 4 (S754_zero false)).
Definition fresh_pipe (inb : list byte) : TCPPipe := mkPipe inb false [] None.
Definition message : list byte :=
  wire16 false (snapshot_codes (H := IEEE.binary32) er32 server_grids).

(** A server on that water table, with cells of size 1. *)
Definition cellSize32 : spec_float * spec_float := (IEEE.f32 1 0, IEEE.f32 1 0).
Definition exec : RemoteServer.Event spec_float -> RemoteServer.Server ->
    option RemoteServer.Server :=
  RemoteServer.exec (H := IEEE.binary32) false IEEE.image32 gridSize
    cellSize32 er32.
Definition reachable : RemoteServer.Server -> Prop :=
  RemoteServer.reachable (H := IEEE.binary32) false IEEE.image32 gridSize
    cellSize32 er32.

(** What a little-endian client sends: its token, then one pose update. *)
Definition pose_update : list byte :=
  host_bytes false 2 0
  ++ flat_map (host_bytes false 4) [1; 2; 3] ++ flat_map (host_bytes false 4) [4; 5; 6].
Definition client_stream : list byte :=
  host_bytes false 4 0x12345678 ++ pose_update.

(** The server after a list of events from its initial state (an event
    that cannot happen is skipped). *)
Definition run (evs : list (RemoteServer.Event spec_float))
    : RemoteServer.Server :=
  foldl (λ s ev, default s (exec ev s)) RemoteServer.init evs.

(** The server after accepting that client at address 5, and after
    reading its token. *)
Definition accepted : RemoteServer.Server :=
  run [RemoteServer.NewConnection 5%positive client_stream None].
Definition accepted_client : RemoteServer.Client :=
  default (RemoteServer.mkClient (fresh_pipe []) 1%positive RemoteServer.START
             None None)
          (RemoteServer.heap accepted !! 5%positive).
Definition streaming1 : RemoteServer.Server :=
  run [RemoteServer.NewConnection 5%positive client_stream None;
       RemoteServer.ClientReadable 1%positive].
Definition streaming_client : RemoteServer.Client :=
  default accepted_client (RemoteServer.heap streaming1 !! 5%positive).

(** Two streaming clients: the connection of the one at address 5 takes
    30 more bytes (the handshake and two bytes more), the connection of
    the one at address 6 stays up. *)
Definition two_streaming : RemoteServer.Server :=
  run [RemoteServer.NewConnection 5%positive client_stream (Some 30%nat);
       RemoteServer.NewConnection 6%positive client_stream None;
       RemoteServer.ClientReadable 1%positive;
       RemoteServer.ClientReadable 2%positive].
(** A client of that server whose connection ends three bytes into a
    snapshot message; the slot it reads from holds the initial grids. *)
Definition client0 : SandboxClient.Client spec_float :=
  SandboxClient.mkClient (fresh_pipe (take 3 message)) true true
    (TripleBuffer.mk [slot; slot; slot] 0 0).

(** A flat bathymetry at elevation 0 on a 4 by 4 water table, and two
    segments inside its middle cell: one vertical from elevation 1 to
    elevation -1, one horizontal at elevation 1. *)
Definition gridSize4 : Z * Z := (4, 4).
Definition flat : list spec_float := replicate 9 (S754_zero false).
Definition above : spec_float * spec_float * spec_float :=
  (IEEE.f64 3 (-1), IEEE.f64 3 (-1), IEEE.f64 1 0).
Definition below : spec_float * spec_float * spec_float :=
  (IEEE.f64 3 (-1), IEEE.f64 3 (-1), IEEE.f64 (-1) 0).
Definition beside : spec_float * spec_float * spec_float :=
  (IEEE.f64 5 (-1), IEEE.f64 3 (-1), IEEE.f64 1 0).
Definition intersect (p0 p1 : spec_float * spec_float * spec_float) :=
  SandboxClient.intersectLine_trace (NS := IEEE.binary64) (IEEE.widen 53 1024)
    gridSize4 cellSize32 flat 5 p0 p1.

Definition after_broadcast : RemoteServer.Server :=
  run [RemoteServer.NewConnection 5%positive client_stream (Some 30%nat);
       RemoteServer.NewConnection 6%positive client_stream None;
       RemoteServer.ClientReadable 1%positive;
       RemoteServer.ClientReadable 2%positive;
       RemoteServer.NewGrids server_grids].
(** What the server writes on accepting a connection, and a client
    pipe on which that handshake and one snapshot message come in. *)
Definition handshake : list byte :=
  flat_map (host_bytes false 4)
    [0x12345678; 2; IEEE.image32 (IEEE.f32 1 0); 2; IEEE.image32 (IEEE.f32 1 0);
     IEEE.image32 (IEEE.f32 0 0); IEEE.image32 (IEEE.f32 10 0)].
Definition unset (n : nat) : list spec_float := replicate n S754_nan.
Definition connecting : TCPPipe := fresh_pipe (handshake ++ message).

(** The bathymetry of a 5 by 5 water table whose sample at (x, y) has
    elevation x*y. *)
Definition twisted : list Q :=
  [0; 0; 0; 0;  0; 1; 2; 3;  0; 2; 4; 6;  0; 3; 6; 9]%Q.

(** A client on whose pipe one whole snapshot message comes in, and
    that client after [readGrids]. *)
Definition client1 : SandboxClient.Client spec_float :=
  SandboxClient.mkClient (fresh_pipe message) true true
    (TripleBuffer.mk [slot; slot; slot] 0 0).
Definition posted : SandboxClient.Client spec_float :=
  final (SandboxClient.readGrids (H := IEEE.binary32) false gridSize er32 client1).



(** The memory image of the [Misc::Float32] a [Scalar] is converted
    to. *)
Definition narrow_image (x : spec_float) : Z :=
  IEEE.image32 (IEEE.widen 24 128 x).

End Sample.

(** A client that has not completed the handshake has had neither
    [position] nor [direction] assigned. *)
Definition start_unassigned (s : RemoteServer.Server) : Prop :=
  ∀ c cl, RemoteServer.heap s !! c = Some cl ->
    RemoteServer.state cl = RemoteServer.START ->
    RemoteServer.position cl = None ∧ RemoteServer.direction cl = None.


(** ** The teleport tool of the client *)

Module TeleportTool.
Section Tool.
Context {Sc : Type} {NS : Numeric Sc}.
Local Open Scope num_scope.

(** [application->intersectLine]. *)
Variable intersectLine : (Sc * Sc * Sc) -> (Sc * Sc * Sc) -> Sc.

(** The literal [Scalar(0.05)]: the quotient 5/100, correctly rounded. *)
Definition literal_0_05 : Sc := of_int 5 / of_int 100.

(** [v*s] and [p+v] on points and vectors, triples of [Scalar]. *)
Definition scaled (v : (Sc * Sc * Sc)) (s : Sc) : (Sc * Sc * Sc) :=
  (SandboxClient.coord 0 v * s, SandboxClient.coord 1 v * s,
   SandboxClient.coord 2 v * s).

Definition plus (p v : (Sc * Sc * Sc)) : (Sc * Sc * Sc) :=
  (SandboxClient.coord 0 p + SandboxClient.coord 0 v,
   SandboxClient.coord 1 p + SandboxClient.coord 1 v,
   SandboxClient.coord 2 p + SandboxClient.coord 2 v).

(** The loop of [frame] that casts the arc, with [n] iterations left. *)
Fixpoint cast_loop (n : nat) (cp cv ca : (Sc * Sc * Sc)) (castArc : list (Sc * Sc * Sc))
    : list (Sc * Sc * Sc) :=
  match n with
  | O => castArc
  | S n' =>
      let castArc := castArc ++ [cp] in
      let cpn := plus cp (scaled cv literal_0_05) in
      let cv := plus cv (scaled ca literal_0_05) in
      let lambda := intersectLine cp cpn in
      if lambda <? of_int 1
      then castArc ++ [SandboxClient.affineCombination cp cpn lambda]
      else cast_loop n' cpn cv ca castArc
  end.

(** Position and velocity after [k] steps of free flight. *)
Fixpoint flight (k : nat) (cp cv ca : (Sc * Sc * Sc)) : (Sc * Sc * Sc) * (Sc * Sc * Sc) :=
  match k with
  | O => (cp, cv)
  | S k' =>
      flight k' (plus cp (scaled cv literal_0_05))
             (plus cv (scaled ca literal_0_05)) ca
  end.

(** The members the callbacks work on: the activation state kept by
    the base class, [cast] and [castArc]. *)
Record Tool : Type := mkTool {
  active : bool;
  cast : bool;
  castArc : list (Sc * Sc * Sc)
}.

(** The tool after its constructor. *)
Definition TeleportTool : Tool := mkTool false false [].

(** [buttonCallback]; [granted] is what [activate()] returns.  The
    result carries the point teleported to, if any; [None] is
    [castArc.back()] on an empty vector. *)
Definition buttonCallback (buttonSlotIndex : Z) (newButtonState granted : bool)
    (t : Tool) : option (Tool * option (Sc * Sc * Sc)) :=
  match buttonSlotIndex with
  | 0%Z =>
      if newButtonState then
        if active t then
          if negb (cast t) then Some (mkTool false (cast t) (castArc t), None)
          else Some (t, None)
        else
          if granted then Some (mkTool true (cast t) (castArc t), None)
          else Some (t, None)
      else Some (t, None)
  | 1%Z =>
      if active t then
        if newButtonState then Some (mkTool (active t) true (castArc t), None)
        else
          back ← last (castArc t);
          Some (mkTool (active t) false (castArc t), Some back)
      else Some (t, None)
  | _ => Some (t, None)
  end.

(** [frame], for the start, the velocity and the acceleration the
    toolkit's transformations give to the arc. *)
Definition frame (cp cv ca : (Sc * Sc * Sc)) (t : Tool) : Tool :=
  if active t then
    if cast t then mkTool (active t) (cast t) (cast_loop 100 cp cv ca [])
    else t
  else t.

(** [display]: the centres of the spheres drawn; [None] is
    [castArc.back()] on an empty vector. *)
Definition display (t : Tool) : option (list (Sc * Sc * Sc)) :=
  if active t && cast t then
    back ← last (castArc t);
    Some (castArc t ++ [back])
  else Some [].

Inductive Event : Type :=
  | Button (buttonSlotIndex : Z) (newButtonState granted : bool)
  | Frame (cp cv ca : (Sc * Sc * Sc)).

Definition exec (ev : Event) (t : Tool) : option Tool :=
  match ev with
  | Button i b g => fst <$> buttonCallback i b g t
  | Frame cp cv ca => Some (frame cp cv ca t)
  end.

Inductive reachable : Tool -> Prop :=
  | reach_init : reachable TeleportTool
  | reach_step t ev t' : reachable t -> exec ev t = Some t' -> reachable t'.
End Tool.
Arguments Tool Sc : clear implicits.
Arguments Event Sc : clear implicits.
End TeleportTool.

(** The point (X, Y, Z), in grid coordinates, lies on the surface
    [intersectLine] interpolates over the cell (i, j) of a bathymetry
    grid with [w - 1] samples per row. *)
Definition on_cell_surface (w : Z) (grid : list Q) (i j : Z) (X Y Z : Q)
    : Prop :=
  ∃ c0 c1 c2 c3 : Q,
    0 <= j * (w - 1) + i ∧
    grid !! Z.to_nat (j * (w - 1) + i) = Some c0 ∧
    grid !! Z.to_nat (j * (w - 1) + i + 1) = Some c1 ∧
    grid !! Z.to_nat (j * (w - 1) + i + (w - 1)) = Some c2 ∧
    grid !! Z.to_nat (j * (w - 1) + i + w) = Some c3 ∧
    ((c0 * (1 - (X - inject_Z i)) + c1 * (X - inject_Z i))
     * (1 - (Y - inject_Z j))
     + (c2 * (1 - (X - inject_Z i)) + c3 * (X - inject_Z i))
       * (Y - inject_Z j) == Z)%Q.

(** The root [Math::sqrt] returns for the discriminant of a, b, c is
    exact, or there is no root to take. *)
Definition exact_root (sq : Q -> Q) (a b c : Q) : Prop :=
  (a == 0)%Q ∨
  (sq (b * b - 4 * a * c) * sq (b * b - 4 * a * c) == b * b - 4 * a * c)%Q.

(** A point in grid coordinates whose coordinates are rational. *)
Definition exact_point (x y z : Q) : Exact.real * Exact.real * Exact.real :=
  (Some x, Some y, Some z).

(** At the parameter [l], the coordinate that runs from [g0] to [g1]
    along the segment lies in the closed cell interval [c, c + 1]. *)
Definition in_cell (g0 g1 : Q) (c : Z) (l : Q) : Prop :=
  (inject_Z c <= g0 + l * (g1 - g0))%Q ∧ (g0 + l * (g1 - g0) <= inject_Z c + 1)%Q.

(** The cells of a grid row of [n] samples still ahead of cell [c] in
    the direction from [g0] to [g1]. *)
Definition remaining (n : Z) (g0 g1 : Q) (c : Z) : Z :=
  if Exact.Qltb g0 g1 then n - 3 - c
  else if Exact.Qltb g1 g0 then c else 0.

(** A triple buffer with its three slots, and indices that name two of
    them. *)
Definition tb_wf {A} (tb : TripleBuffer.t A) : Prop :=
  length (TripleBuffer.buffer tb) = 3%nat
  ∧ (TripleBuffer.lockedIndex tb < 3)%nat
  ∧ (TripleBuffer.mostRecentIndex tb < 3)%nat.

(** * Properties *)

(** ** Bytes and integers *)


Lemma Z_of_byte_of_Z z : Z_of_byte (byte_of_Z z) = z mod 256.
Proof.
  unfold Z_of_byte, byte_of_Z.
  assert (Hr : 0 <= z mod 256 < 256) by (apply Z.mod_pos_bound; lia).
  destruct (Byte.of_N (Z.to_N (z mod 256))) as [b|] eqn:E; simpl.
  - apply Byte.to_of_N in E. rewrite E. lia.
  - apply Byte.of_N_None_iff in E. lia.
Qed.

Lemma le_value_bytes n v : le_value (le_bytes n v) = v mod 256 ^ Z.of_nat n.
Proof.
  revert v. induction n as [|n IH]; intros v.
  - simpl. now rewrite Z.mod_1_r.
  - cbn [le_bytes le_value]. rewrite Z_of_byte_of_Z, IH.
    rewrite Nat2Z.inj_succ, Z.pow_succ_r by lia.
    rewrite Z.rem_mul_r by lia. reflexivity.
Qed.

Lemma length_le_bytes n v : length (le_bytes n v) = n.
Proof. revert v. induction n; intros; simpl; auto. Qed.

Lemma length_host_bytes be n v : length (host_bytes be n v) = n.
Proof.
  unfold host_bytes. destruct be; rewrite ?length_reverse; apply length_le_bytes.
Qed.

Lemma host_value_bytes be n v :
  host_value be (host_bytes be n v) = v mod 256 ^ Z.of_nat n.
Proof.
  unfold host_value, host_bytes. destruct be.
  - rewrite reverse_involutive. apply le_value_bytes.
  - apply le_value_bytes.
Qed.

(** A host reading with swap-on-read [sw] sees the value a host of byte
    order [xorb be sw] wrote. *)
Lemma host_value_swapped be (sw : bool) n v :
  host_value be (if sw then reverse (host_bytes (xorb be sw) n v)
                 else host_bytes (xorb be sw) n v)
  = v mod 256 ^ Z.of_nat n.
Proof.
  destruct sw.
  - rewrite xorb_true_r. unfold host_value, host_bytes.
    destruct be; simpl; rewrite ?reverse_involutive; apply le_value_bytes.
  - rewrite xorb_false_r. apply host_value_bytes.
Qed.

Lemma length_wire16 be codes : length (wire16 be codes) = (2 * length codes)%nat.
Proof.
  unfold wire16. induction codes as [|c cs IH]; simpl; auto.
  rewrite length_app, length_host_bytes, IH. lia.
Qed.

(** ** Loops *)

Lemma for_loop_index {St} n i j (body : St -> outcome St) s :
  for_loop n i (λ _, body) s = for_loop n j (λ _, body) s.
Proof.
  revert i j s. induction n as [|n IH]; intros i j s; simpl; auto.
  destruct (body s); simpl; auto.
Qed.

Lemma for_loop_add {St} n m (body : St -> outcome St) s :
  for_loop (n + m) 0 (λ _, body) s
  = and_then (for_loop n 0 (λ _, body) s) (for_loop m 0 (λ _, body)).
Proof.
  revert s. induction n as [|n IH]; intros s; simpl; auto.
  destruct (body s) as [s'|s']; simpl; auto.
  rewrite (for_loop_index _ (0 + 1) 0), (for_loop_index n (0 + 1) 0). apply IH.
Qed.

(** Two nested counting loops run the body [n * m] times. *)
Lemma for_loop_nested {St} n m i j (body : St -> outcome St) s :
  for_loop n i (λ _, for_loop m j (λ _, body)) s
  = for_loop (n * m) 0 (λ _, body) s.
Proof.
  revert i s. induction n as [|n IH]; intros i s; simpl; auto.
  rewrite for_loop_add, (for_loop_index m j 0).
  destruct (for_loop m 0 (λ _, body) s); simpl; auto.
Qed.

(** ** Writing and reading on a pipe *)

Lemma room_dec p n : {room p n} + {¬ room p n}.
Proof.
  unfold room. destruct (credit p) as [c|]; [|left; exact I].
  destruct (le_dec n c); [left|right]; assumption.
Defined.

Lemma room_le p n m : (m <= n)%nat -> room p n -> room p m.
Proof. unfold room. destruct (credit p); [lia|auto]. Qed.

Lemma sent_nil p : sent [] p = p.
Proof.
  destruct p as [i sw o [c|]]; unfold sent; simpl; rewrite app_nil_r; auto.
  f_equal. f_equal. lia.
Qed.

Lemma sent_app b1 b2 p : sent b2 (sent b1 p) = sent (b1 ++ b2) p.
Proof.
  destruct p as [i sw o [c|]]; unfold sent; simpl; rewrite <- app_assoc; auto.
  rewrite length_app. f_equal. f_equal. lia.
Qed.

Lemma room_sent p b n : room p (length b + n) -> room (sent b p) n.
Proof. unfold room, sent. destruct (credit p); simpl; [lia|auto]. Qed.

Lemma room_sent_inv p b n :
  room p (length b) -> room (sent b p) n -> room p (length b + n).
Proof. unfold room, sent. destruct (credit p); simpl; [lia|auto]. Qed.

Lemma write_raw_room bs p : room p (length bs) -> write_raw bs p = Done (sent bs p).
Proof.
  unfold room, write_raw, sent. destruct (credit p) as [c|]; auto.
  intros Hc. apply Nat.leb_le in Hc. now rewrite Hc.
Qed.

Lemma write_raw_no_room bs p :
  ¬ room p (length bs) -> completed (write_raw bs p) = false.
Proof.
  unfold room, write_raw. destruct (credit p) as [c|]; [|tauto].
  intros Hc. destruct (length bs <=? c)%nat eqn:E; auto.
  apply Nat.leb_le in E. tauto.
Qed.

Section Samples.
Context {F : Type} `{Numeric F}.
Variable be : bool.
Variable er : F * F.

Lemma write_samples_room (grid : list F) k ptr p :
  (ptr + k <= length grid)%nat ->
  room p (2 * k) ->
  for_loop k 0 (λ _, RemoteServer.write_sample be er grid) (ptr, p)
  = Done ((ptr + k)%nat,
          sent (wire16 be (map (RemoteServer.quantize er)
                             (take k (drop ptr grid)))) p).
Proof.
  revert ptr p. induction k as [|k IH]; intros ptr p Hlen Hroom.
  - simpl. rewrite sent_nil. do 2 f_equal. lia.
  - cbn [for_loop]. unfold RemoteServer.write_sample at 1.
    destruct (lookup_lt_is_Some_2 grid ptr ltac:(lia)) as [x Hx].
    rewrite Hx. cbn [default]. unfold write_int.
    rewrite write_raw_room
      by (rewrite length_host_bytes; eapply room_le; [|exact Hroom]; lia).
    cbn [and_then]. rewrite (for_loop_index k (0 + 1) 0).
    rewrite IH; [|lia|].
    + rewrite sent_app. do 2 f_equal; [lia|].
      f_equal. rewrite (drop_S _ _ _ Hx). reflexivity.
    + apply room_sent. rewrite length_host_bytes.
      eapply room_le; [|exact Hroom]. lia.
Qed.

Lemma write_samples_no_room (grid : list F) k ptr p :
  ¬ room p (2 * k) ->
  completed (for_loop k 0 (λ _, RemoteServer.write_sample be er grid) (ptr, p))
  = false.
Proof.
  revert ptr p. induction k as [|k IH]; intros ptr p Hroom.
  - exfalso. apply Hroom. unfold room. destruct (credit p); [lia|auto].
  - cbn [for_loop]. unfold RemoteServer.write_sample at 1. unfold write_int.
    set (bs := host_bytes be 2 _).
    destruct (room_dec p (length bs)) as [Hr|Hr].
    + rewrite (write_raw_room _ _ Hr). cbn [and_then].
      rewrite (for_loop_index k (0 + 1) 0). apply IH.
      intros Hk. apply Hroom.
      pose proof (room_sent_inv _ _ _ Hr Hk) as Hs.
      subst bs. rewrite length_host_bytes in Hs.
      eapply room_le; [|exact Hs]. lia.
    + pose proof (write_raw_no_room _ _ Hr) as Hc.
      destruct (write_raw bs p); [discriminate|reflexivity].
Qed.

End Samples.

(** ** The server's snapshot message *)

Section Snapshot.
Context {F : Type} `{Numeric F}.
Variable be : bool.
Variable gridSize : Z * Z.
Variable er : F * F.
Hypothesis width_pos : 1 <= gridSize.1.
Hypothesis height_pos : 1 <= gridSize.2.

Lemma allocated_lengths (gb : RemoteServer.GridBuffers F) :
  RemoteServer.allocated gridSize gb ->
  length (RemoteServer.bathymetry gb)
  = (Z.to_nat (gridSize.2 - 1) * Z.to_nat (gridSize.1 - 1))%nat ∧
  length (RemoteServer.waterLevel gb)
  = (Z.to_nat gridSize.2 * Z.to_nat gridSize.1)%nat.
Proof using width_pos height_pos. intros [Hb Hw]. split; nia. Qed.

Lemma length_snapshot_codes (gb : RemoteServer.GridBuffers F) :
  RemoteServer.allocated gridSize gb ->
  Z.of_nat (length (snapshot_codes er gb))
  = Spec.message_codes gridSize.1 gridSize.2.
Proof.
  intros [Hb Hw]. unfold snapshot_codes, Spec.message_codes.
  rewrite length_map, length_app. lia.
Qed.

Lemma sendGrids_room (gb : RemoteServer.GridBuffers F) p :
  RemoteServer.allocated gridSize gb ->
  room p (2 * length (snapshot_codes er gb)) ->
  RemoteServer.sendGrids be gridSize er gb p
  = Done (sent (wire16 be (snapshot_codes er gb)) p).
Proof using width_pos height_pos.
  intros Ha Hroom. destruct (allocated_lengths gb Ha) as [Hb Hw].
  unfold snapshot_codes in *. rewrite length_map, length_app in Hroom.
  unfold RemoteServer.sendGrids. rewrite for_loop_nested.
  rewrite write_samples_room; [|lia|eapply room_le; [|exact Hroom]; lia].
  cbn [and_then snd]. rewrite for_loop_nested.
  rewrite write_samples_room; [|simpl; lia|].
  - cbn [outcome_map snd]. rewrite sent_app. do 2 f_equal.
    unfold wire16. rewrite <- flat_map_app, <- map_app.
    rewrite drop_0, <- Hb, <- Hw, !firstn_all. reflexivity.
  - apply room_sent. rewrite length_wire16, length_map, length_take, drop_0.
    eapply room_le; [|exact Hroom]. lia.
Qed.

Lemma sendGrids_no_room (gb : RemoteServer.GridBuffers F) p :
  RemoteServer.allocated gridSize gb ->
  ¬ room p (2 * length (snapshot_codes er gb)) ->
  completed (RemoteServer.sendGrids be gridSize er gb p) = false.
Proof using width_pos height_pos.
  intros Ha Hroom. destruct (allocated_lengths gb Ha) as [Hb Hw].
  unfold snapshot_codes in *. rewrite length_map, length_app in Hroom.
  unfold RemoteServer.sendGrids. rewrite for_loop_nested.
  set (n1 := (Z.to_nat (gridSize.2 - 1) * Z.to_nat (gridSize.1 - 1))%nat) in *.
  destruct (room_dec p (2 * n1)) as [Hr|Hr].
  - rewrite write_samples_room; [|lia|exact Hr].
    cbn [and_then snd]. rewrite for_loop_nested.
    match goal with |- completed (outcome_map _ ?o) = _ =>
      assert (Hc : completed o = false); [|destruct o; [discriminate|reflexivity]]
    end.
    apply write_samples_no_room. intros Hk. apply Hroom.
    eapply room_sent_inv in Hk.
    + rewrite length_wire16, length_map, length_take, drop_0 in Hk.
      eapply room_le; [|exact Hk]. lia.
    + rewrite length_wire16, length_map, length_take, drop_0.
      eapply room_le; [|exact Hr]. lia.
  - pose proof (write_samples_no_room be er (RemoteServer.bathymetry gb)
                  n1 O p Hr) as Hc.
    destruct (for_loop n1 0 _ (O, p)); [discriminate|reflexivity].
Qed.

End Snapshot.

(** ** The client's reading of a snapshot message *)

Lemma read_int_wire16 be p c cs rest :
  u16 c ->
  inbound p = wire16 (xorb be (swapOnRead p)) (c :: cs) ++ rest ->
  read_int be 2 p = Some (c, consumed 2 p) ∧
  inbound (consumed 2 p) = wire16 (xorb be (swapOnRead p)) cs ++ rest.
Proof.
  intros Hc Hin. unfold read_int, read_raw, consumed. rewrite Hin.
  cbn [wire16 flat_map]. fold (wire16 (xorb be (swapOnRead p)) cs).
  set (bs := host_bytes _ 2 c). rewrite <- app_assoc.
  assert (Hl : length bs = 2%nat) by apply length_host_bytes.
  rewrite length_app, Hl. cbn [Nat.leb Nat.add].
  rewrite take_app_length' by (symmetry; exact Hl).
  rewrite drop_app_length' by (symmetry; exact Hl).
  split; [|reflexivity]. do 2 f_equal. subst bs.
  rewrite host_value_swapped. apply Z.mod_small. unfold u16 in Hc. lia.
Qed.

Section Receive.
Context {F : Type} `{Numeric F}.
Variable be : bool.
Variable gridSize : Z * Z.
Variable er : F * F.
Hypothesis width_pos : 1 <= gridSize.1.
Hypothesis height_pos : 1 <= gridSize.2.

Lemma read_samples_ok cs : ∀ ptr p (grid : list F) rest,
  Forall u16 cs ->
  (ptr + length cs <= length grid)%nat ->
  inbound p = wire16 (xorb be (swapOnRead p)) cs ++ rest ->
  for_loop (length cs) 0 (λ _, SandboxClient.read_sample be er) (ptr, p, grid)
  = Done ((ptr + length cs)%nat, consumed (2 * length cs) p,
          take ptr grid ++ map (SandboxClient.dequantize er) cs
            ++ drop (ptr + length cs) grid).
Proof.
  induction cs as [|c cs IH]; intros ptr p grid rest Hcs Hlen Hin.
  - simpl. rewrite Nat.add_0_r, take_drop. destruct p; reflexivity.
  - cbn [length for_loop]. unfold SandboxClient.read_sample at 1.
    inversion Hcs as [|? ? Hc Hcs']; subst.
    destruct (read_int_wire16 be p c cs rest Hc Hin) as [-> Hin'].
    cbn [and_then]. rewrite (for_loop_index _ (0 + 1) 0).
    cbn [length] in Hlen.
    rewrite (IH (S ptr) (consumed 2 p) _ rest Hcs').
    + f_equal. f_equal; [f_equal; [lia|]|].
      * unfold consumed. simpl. rewrite drop_drop. do 2 f_equal. lia.
      * rewrite (take_S_r _ _ (SandboxClient.dequantize er c))
          by (apply list_lookup_insert_eq; lia).
        rewrite take_insert_ge by lia. rewrite <- app_assoc. cbn [map app].
        rewrite drop_insert_lt by lia.
        replace (S ptr + length cs)%nat with (ptr + S (length cs))%nat by lia.
        reflexivity.
    + rewrite length_insert. lia.
    + exact Hin'.
Qed.

Lemma receiveGrids_ok (gb : SandboxClient.GridBuffers F) p csA csB rest :
  SandboxClient.allocated gridSize gb ->
  Forall u16 csA -> Forall u16 csB ->
  length csA = length (SandboxClient.bathymetry gb) ->
  length csB = length (SandboxClient.waterLevel gb) ->
  inbound p = wire16 (xorb be (swapOnRead p)) (csA ++ csB) ++ rest ->
  SandboxClient.receiveGrids be gridSize er gb p
  = Done (consumed (2 * length (csA ++ csB)) p,
          SandboxClient.mkGrids (map (SandboxClient.dequantize er) csA)
                                (map (SandboxClient.dequantize er) csB)).
Proof using width_pos height_pos.
  intros [Hb Hw] HA HB HlA HlB Hin.
  unfold SandboxClient.receiveGrids. rewrite for_loop_nested.
  replace (Z.to_nat (gridSize.2 - 1) * Z.to_nat (gridSize.1 - 1))%nat
    with (length csA) by nia.
  unfold wire16 in Hin. rewrite flat_map_app, <- app_assoc in Hin.
  rewrite (read_samples_ok csA O p (SandboxClient.bathymetry gb) _ HA
             ltac:(lia) Hin).
  cbv beta iota. rewrite for_loop_nested.
  replace (Z.to_nat gridSize.2 * Z.to_nat gridSize.1)%nat
    with (length csB) by nia.
  rewrite (read_samples_ok csB O _ (SandboxClient.waterLevel gb) rest HB
             ltac:(lia)).
  - f_equal. f_equal.
    + unfold consumed. simpl. rewrite drop_drop, length_app.
      do 2 f_equal. lia.
    + simpl. rewrite HlA, HlB, !drop_all, !app_nil_r. reflexivity.
  - unfold consumed; cbn [inbound swapOnRead]. rewrite Hin.
    fold (wire16 (xorb be (swapOnRead p)) csA).
    rewrite <- (length_wire16 (xorb be (swapOnRead p)) csA).
    rewrite drop_app_length. reflexivity.
Qed.

End Receive.

(** ** The wire format of a snapshot *)

Lemma quantize_u16 {F : Type} `{Numeric F} (er : F * F) e :
  u16 (RemoteServer.quantize er e).
Proof.
  unfold RemoteServer.quantize, u16.
  repeat match goal with |- context [if ?b then _ else _] => destruct b end;
    try lia.
  apply Z.mod_pos_bound. lia.
Qed.

Lemma row_major_seq {A} (g : nat -> A) w h :
  Spec.row_major w h g = map g (seq 0 (h * w)).
Proof.
  unfold Spec.row_major.
  enough (Hgen : ∀ a, flat_map (λ y, map (λ x, g (y * w + x)%nat) (seq 0 w))
                        (seq a h) = map g (seq (a * w) (h * w))).
  { apply (Hgen O). }
  induction h as [|h IH]; intros a; [reflexivity|].
  cbn [seq flat_map]. rewrite IH.
  replace (S h * w)%nat with (w + h * w)%nat by lia.
  rewrite seq_app, map_app. f_equal.
  - assert (seq (a * w) w = (λ x, (a * w + x)%nat) <$> seq 0 w) as ->
      by (rewrite fmap_add_seq; f_equal; lia).
    rewrite <- list_fmap_compose. reflexivity.
  - do 2 f_equal. lia.
Qed.

Lemma row_major_list {A B} (f : A -> B) (d : A) (l : list A) w h :
  length l = (h * w)%nat ->
  Spec.row_major w h (λ i, f (default d (l !! i))) = map f l.
Proof.
  intros Hl. rewrite row_major_seq, <- Hl.
  apply list_eq. intros i. rewrite !list_lookup_fmap.
  destruct (l !! i) as [x|] eqn:E.
  - rewrite lookup_seq_lt by (eapply lookup_lt_Some; eauto).
    simpl. now rewrite E.
  - rewrite lookup_seq_ge by (apply lookup_ge_None; auto). reflexivity.
Qed.

(** C4.  For a grid of width W and height H, a snapshot message is
    exactly the (W-1)*(H-1) bathymetry codes in row-major order followed
    by the W*H water level codes in row-major order, two bytes each and
    nothing else (no tag); a client whose slot is allocated for the same
    geometry reads exactly those codes, in that order, and leaves what
    follows the message on the pipe. *)
Theorem C4_snapshot_message_layout {F : Type} `{Numeric F}
    (be_s be_c : bool) (gridSize : Z * Z) (er : F * F)
    (gb : RemoteServer.GridBuffers F) (p : TCPPipe)
    (slot : SandboxClient.GridBuffers F) (q : TCPPipe) (rest : list byte) :
  let W := gridSize.1 in
  let H := gridSize.2 in
  let codesA :=
    Spec.row_major (Z.to_nat (W - 1)) (Z.to_nat (H - 1))
      (λ i, RemoteServer.quantize er
              (default (of_int 0) (RemoteServer.bathymetry gb !! i))) in
  let codesB :=
    Spec.row_major (Z.to_nat W) (Z.to_nat H)
      (λ i, RemoteServer.quantize er
              (default (of_int 0) (RemoteServer.waterLevel gb !! i))) in
  let message := wire16 be_s (codesA ++ codesB) in
  1 <= W -> 1 <= H ->
  RemoteServer.allocated gridSize gb ->
  SandboxClient.allocated gridSize slot ->
  room p (length message) ->
  xorb be_c (swapOnRead q) = be_s ->
  inbound q = message ++ rest ->
  Z.of_nat (length codesA) = (W - 1) * (H - 1) ∧
  Z.of_nat (length codesB) = W * H ∧
  Z.of_nat (length message) = 2 * Spec.message_codes W H ∧
  RemoteServer.sendGrids be_s gridSize er gb p = Done (sent message p) ∧
  SandboxClient.receiveGrids be_c gridSize er slot q
  = Done (consumed (length message) q,
          SandboxClient.mkGrids (map (SandboxClient.dequantize er) codesA)
                                (map (SandboxClient.dequantize er) codesB)).
Proof.
  intros W H' codesA codesB message HW HH Hgb Hslot Hroom Hswap Hin.
  destruct (allocated_lengths gridSize HW HH gb Hgb) as [HlA HlB].
  assert (EA : codesA = map (RemoteServer.quantize er) (RemoteServer.bathymetry gb))
    by (apply row_major_list; exact HlA).
  assert (EB : codesB = map (RemoteServer.quantize er) (RemoteServer.waterLevel gb))
    by (apply row_major_list; exact HlB).
  assert (EM : message = wire16 be_s (snapshot_codes er gb))
    by (unfold message, snapshot_codes; rewrite EA, EB, map_app; reflexivity).
  destruct Hgb as [Hb Hw]. destruct Hslot as [Hsb Hsw].
  assert (LA : Z.of_nat (length codesA) = (W - 1) * (H' - 1))
    by (rewrite EA, length_map; subst W H'; lia).
  assert (LB : Z.of_nat (length codesB) = W * H')
    by (rewrite EB, length_map; subst W H'; lia).
  assert (LM : length message = (2 * length (codesA ++ codesB))%nat)
    by apply length_wire16.
  split; [exact LA|]. split; [exact LB|]. split.
  { rewrite LM, length_app. unfold Spec.message_codes. lia. }
  split.
  - rewrite EM.
    apply (sendGrids_room be_s gridSize er HW HH gb p); [split; assumption|].
    rewrite <- (length_wire16 be_s), <- EM. exact Hroom.
  - rewrite LM. apply (receiveGrids_ok be_c gridSize er HW HH slot q codesA codesB rest).
    + split; assumption.
    + rewrite EA. apply Forall_fmap, Forall_forall. intros; apply quantize_u16.
    + rewrite EB. apply Forall_fmap, Forall_forall. intros; apply quantize_u16.
    + subst W H'. lia.
    + subst W H'. lia.
    + rewrite Hswap. exact Hin.
Qed.

Lemma C4_witness :
  RemoteServer.sendGrids (H := IEEE.binary32) false Sample.gridSize Sample.er32
    Sample.server_grids (Sample.fresh_pipe [])
  = Done (sent Sample.message (Sample.fresh_pipe [])) ∧
  length Sample.message = 10%nat.
Proof.
  destruct (C4_snapshot_message_layout (H := IEEE.binary32) false false
              Sample.gridSize Sample.er32 Sample.server_grids
              (Sample.fresh_pipe []) Sample.slot
              (Sample.fresh_pipe (Sample.message ++ [])) [])
    as (_ & _ & _ & Hsend & _).
  - simpl; lia.
  - simpl; lia.
  - split; reflexivity.
  - split; reflexivity.
  - exact I.
  - reflexivity.
  - vm_compute; reflexivity.
  - split; [exact Hsend | vm_compute; reflexivity].
Defined.

(** ** The codec formulas *)

Lemma dequantize_decode_exact sq (min max : Q) (k : Z) :
  Exact.eqv
    (SandboxClient.dequantize (H := Exact.ops sq) (Some min, Some max) k)
    (Spec.decode (H := Exact.ops sq) (Some min) (Some max) k).
Proof.
  unfold SandboxClient.dequantize, SandboxClient.eScale, SandboxClient.eOffset,
    Spec.decode.
  cbn. change (Qeq_bool (inject_Z 65535) 0) with false. cbn. field.
Qed.

(** C1.  The server sends, for every sample e of both grids, the code
    given by raw = e*(65535/(max-min)) + (0.5 - min*(65535/(max-min))):
    0 if raw<=0, 65535 if raw>=65535, the truncation of raw otherwise.
    The client stores, for every code k of both grids,
    k*((max-min)/65535) + min, which is k*(max-min)/65535 + min as a
    rational number. *)
Theorem C1_codec_formulas {F : Type} `{Numeric F}
    (be_s be_c : bool) (gridSize : Z * Z) (er : F * F)
    (gb : RemoteServer.GridBuffers F) (p : TCPPipe)
    (slot : SandboxClient.GridBuffers F) (q : TCPPipe)
    (codesA codesB : list Z) (rest : list byte)
    (sq : Q -> Q) (min max : Q) (k : Z) :
  let samples := RemoteServer.bathymetry gb ++ RemoteServer.waterLevel gb in
  let elevation (c : Z) : F :=
    (of_int c * ((er.2 - er.1) / of_int 65535) + er.1)%num in
  1 <= gridSize.1 -> 1 <= gridSize.2 ->
  RemoteServer.allocated gridSize gb ->
  room p (2 * length samples) ->
  SandboxClient.allocated gridSize slot ->
  Forall u16 codesA -> Forall u16 codesB ->
  length codesA = length (SandboxClient.bathymetry slot) ->
  length codesB = length (SandboxClient.waterLevel slot) ->
  inbound q = wire16 (xorb be_c (swapOnRead q)) (codesA ++ codesB) ++ rest ->
  RemoteServer.sendGrids be_s gridSize er gb p
  = Done (sent (wire16 be_s (map (Spec.encode er.1 er.2) samples)) p) ∧
  SandboxClient.receiveGrids be_c gridSize er slot q
  = Done (consumed (2 * length (codesA ++ codesB)) q,
          SandboxClient.mkGrids (map elevation codesA) (map elevation codesB)) ∧
  Exact.eqv
    (SandboxClient.dequantize (H := Exact.ops sq) (Some min, Some max) k)
    (Spec.decode (H := Exact.ops sq) (Some min) (Some max) k).
Proof.
  intros samples elevation HW HH Hgb Hroom Hslot HA HB HlA HlB Hin.
  split; [|split].
  - apply (sendGrids_room be_s gridSize er HW HH gb p Hgb).
    unfold snapshot_codes. rewrite length_map. exact Hroom.
  - apply (receiveGrids_ok be_c gridSize er HW HH slot q codesA codesB rest);
      assumption.
  - apply dequantize_decode_exact.
Qed.

Lemma C1_witness :
  RemoteServer.sendGrids (H := IEEE.binary32) false Sample.gridSize Sample.er32
    Sample.server_grids (Sample.fresh_pipe [])
  = Done (sent (wire16 false [32768; 0; 65535; 16384; 0]) (Sample.fresh_pipe [])).
Proof.
  destruct (C1_codec_formulas (H := IEEE.binary32) false false
              Sample.gridSize Sample.er32 Sample.server_grids
              (Sample.fresh_pipe []) Sample.slot
              (Sample.fresh_pipe (Sample.message ++ []))
              [32768] [0; 65535; 16384; 0] [] Exact.sqrt32 0 10 32768)
    as (Hsend & _ & _).
  - simpl; lia.
  - simpl; lia.
  - split; reflexivity.
  - exact I.
  - split; reflexivity.
  - repeat constructor; unfold u16; lia.
  - repeat constructor; unfold u16; lia.
  - reflexivity.
  - reflexivity.
  - vm_compute; reflexivity.
  - rewrite Hsend. vm_compute. reflexivity.
Defined.

(** ** The quantization error, in exact arithmetic *)

Section ExactCodec.
Variable sq : Q -> Q.
Variables min max : Q.
Hypothesis range : (min < max)%Q.
Local Open Scope Q_scope.






End ExactCodec.




(** ** The client list *)

Lemma swap_remove_perm (l : list RemoteServer.loc) i c :
  l !! i = Some c -> RemoteServer.swap_remove i l ≡ₚ delete i l.
Proof.
  intros Hi. apply (Permutation_cons_inv (a := c)).
  rewrite <- (delete_Permutation l i c Hi). unfold RemoteServer.swap_remove.
  destruct (decide (l = [])) as [->|Hne]; [discriminate|].
  destruct (exists_last Hne) as (l1 & b & ->).
  rewrite last_snoc, length_app. cbn [length].
  replace (pred (length l1 + 1)) with (length l1) by lia.
  apply lookup_lt_Some in Hi as Hlt. rewrite length_app in Hlt. cbn in Hlt.
  destruct (decide (i = length l1)) as [->|Hn].
  - rewrite list_lookup_middle in Hi by reflexivity. injection Hi as ->.
    rewrite list_insert_id by (apply list_lookup_middle; reflexivity).
    rewrite take_app_length. apply Permutation_cons_append.
  - rewrite lookup_app_l in Hi by lia.
    rewrite insert_app_l by lia.
    rewrite take_app_length' by (rewrite length_insert; reflexivity).
    rewrite insert_take_drop by lia.
    rewrite <- (take_drop_middle l1 i c Hi) at 3.
    rewrite <- app_assoc. cbn [app].
    rewrite <- !Permutation_middle. apply Permutation_cons; [reflexivity|].
    rewrite app_nil_r. reflexivity.
Qed.

Lemma swap_remove_elem_of (l : list RemoteServer.loc) i c x :
  NoDup l -> l !! i = Some c ->
  x ∈ RemoteServer.swap_remove i l ↔ x ∈ l ∧ x ≠ c.
Proof.
  intros Hnd Hi. rewrite (swap_remove_perm l i c Hi).
  pose proof (delete_Permutation l i c Hi) as Hp.
  rewrite Hp in Hnd. apply NoDup_cons in Hnd as [Hc _].
  rewrite Hp at 2. rewrite elem_of_cons. split.
  - intros Hx. split; [auto|]. intros ->. contradiction.
  - intros [[->|Hx] Hne]; [contradiction|assumption].
Qed.

Lemma swap_remove_NoDup (l : list RemoteServer.loc) i c :
  NoDup l -> l !! i = Some c -> NoDup (RemoteServer.swap_remove i l).
Proof.
  intros Hnd Hi. rewrite (swap_remove_perm l i c Hi).
  rewrite (delete_Permutation l i c Hi) in Hnd. now apply NoDup_cons in Hnd.
Qed.

Lemma find_client (l : list RemoteServer.loc) c :
  c ∈ l -> ∃ i, list_find (λ x, x = c) l = Some (i, c) ∧ l !! i = Some c.
Proof.
  intros Hc. destruct (list_find (λ x, x = c) l) as [[i y]|] eqn:E.
  - apply list_find_Some in E as (Hi & -> & _). eauto.
  - apply list_find_None in E. rewrite Forall_forall in E.
    exfalso. exact (E c Hc eq_refl).
Qed.

Lemma find_client_absent (l : list RemoteServer.loc) c :
  c ∉ l -> list_find (λ x, x = c) l = None.
Proof.
  intros Hc. apply list_find_None, Forall_forall. intros x Hx ->. contradiction.
Qed.

(** ** Counting streaming clients *)

Lemma count_agree (s s' : RemoteServer.Server) (l l' : list RemoteServer.loc) :
  l ≡ₚ l' ->
  (∀ x, x ∈ l -> RemoteServer.streaming s x = RemoteServer.streaming s' x) ->
  length (filter (λ c, RemoteServer.streaming s c = true) l)
  = length (filter (λ c, RemoteServer.streaming s' c = true) l').
Proof.
  intros Hp Hag. rewrite <- Hp. clear Hp l'.
  induction l as [|x l IH]; [reflexivity|].
  assert (IH' := IH (λ y Hy, Hag y (list_elem_of_further _ _ _ Hy))).
  rewrite !filter_cons, (Hag x) by (left).
  destruct (decide (RemoteServer.streaming s' x = true));
    cbn [length]; rewrite IH'; reflexivity.
Qed.

Lemma count_cons (s : RemoteServer.Server) c (l : list RemoteServer.loc) :
  Z.of_nat (length (filter (λ c, RemoteServer.streaming s c = true) (c :: l)))
  = (if RemoteServer.streaming s c then 1 else 0)
    + Z.of_nat (length (filter (λ c, RemoteServer.streaming s c = true) l)).
Proof.
  rewrite filter_cons.
  destruct (decide (RemoteServer.streaming s c = true)) as [E|E].
  - rewrite E. cbn [length]. lia.
  - destruct (RemoteServer.streaming s c); [congruence|]. lia.
Qed.

(** The count when only the client [c], listed once, is changed. *)
Lemma count_update (s s' : RemoteServer.Server) c :
  NoDup (RemoteServer.clients s) ->
  c ∈ RemoteServer.clients s ->
  RemoteServer.clients s' = RemoteServer.clients s ->
  (∀ x, x ≠ c -> RemoteServer.streaming s' x = RemoteServer.streaming s x) ->
  RemoteServer.numStreaming s'
  = RemoteServer.numStreaming s
    - (if RemoteServer.streaming s c then 1 else 0)
    + (if RemoteServer.streaming s' c then 1 else 0).
Proof.
  intros Hnd Hc Hcl Hoth. unfold RemoteServer.numStreaming. rewrite Hcl.
  apply list_elem_of_lookup in Hc as [i Hi].
  pose proof (delete_Permutation _ i c Hi) as Hp.
  rewrite Hp in Hnd. apply NoDup_cons in Hnd as [Hnc _].
  rewrite (count_agree s' s' _ _ Hp) by reflexivity.
  rewrite (count_agree s s _ _ Hp) by reflexivity.
  rewrite !count_cons.
  rewrite (count_agree s' s (delete i (RemoteServer.clients s)) _ (reflexivity _)).
  - lia.
  - intros x Hx. apply Hoth. intros ->. contradiction.
Qed.

(** The count when the client [c], listed once, leaves the list. *)
Lemma count_remove (s s' : RemoteServer.Server) i c :
  NoDup (RemoteServer.clients s) ->
  RemoteServer.clients s !! i = Some c ->
  RemoteServer.clients s' = RemoteServer.swap_remove i (RemoteServer.clients s) ->
  (∀ x, x ≠ c -> RemoteServer.streaming s' x = RemoteServer.streaming s x) ->
  RemoteServer.numStreaming s'
  = RemoteServer.numStreaming s - (if RemoteServer.streaming s c then 1 else 0).
Proof.
  intros Hnd Hi Hcl Hoth. unfold RemoteServer.numStreaming. rewrite Hcl.
  pose proof (delete_Permutation _ i c Hi) as Hp.
  rewrite Hp in Hnd. apply NoDup_cons in Hnd as [Hnc _].
  rewrite (count_agree s s _ _ Hp) by reflexivity.
  rewrite count_cons.
  rewrite (count_agree s' s _ _ (swap_remove_perm _ i c Hi)).
  - lia.
  - intros x Hx. apply Hoth. intros ->.
    rewrite (swap_remove_perm _ i c Hi) in Hx. contradiction.
Qed.

Lemma numStreaming_bounds s :
  0 <= RemoteServer.numStreaming s
       <= Z.of_nat (length (RemoteServer.clients s)).
Proof.
  unfold RemoteServer.numStreaming.
  pose proof (length_filter (λ c, RemoteServer.streaming s c = true)
                (RemoteServer.clients s)). lia.
Qed.

(** ** Disconnecting and updating a client *)

Lemma streaming_lookup s c cl :
  RemoteServer.heap s !! c = Some cl ->
  RemoteServer.streaming s c
  = bool_decide (RemoteServer.state cl = RemoteServer.STREAMING).
Proof. unfold RemoteServer.streaming. now intros ->. Qed.

Lemma disconnectClient_absent s c b :
  c ∉ RemoteServer.clients s -> RemoteServer.disconnectClient c b s = Some s.
Proof.
  intros Hc. unfold RemoteServer.disconnectClient.
  now rewrite (find_client_absent _ _ Hc).
Qed.

Lemma disconnectClient_spec s c b cl :
  wf s -> RemoteServer.heap s !! c = Some cl ->
  ∃ s', RemoteServer.disconnectClient c b s = Some s' ∧
    (∀ x, x ∈ RemoteServer.clients s' ↔ x ∈ RemoteServer.clients s ∧ x ≠ c) ∧
    RemoteServer.heap s' = delete c (RemoteServer.heap s) ∧
    RemoteServer.numClients s'
    = (if decide (RemoteServer.state cl = RemoteServer.STREAMING)
       then (RemoteServer.numClients s - 1) mod RemoteServer.UINT_MAX1
       else RemoteServer.numClients s) ∧
    RemoteServer.listeners s'
    = (if b then delete (RemoteServer.listenerKey cl) (RemoteServer.listeners s)
       else RemoteServer.listeners s) ∧
    RemoteServer.nextKey s' = RemoteServer.nextKey s ∧
    wf s'.
Proof.
  intros Hwf Hcl.
  assert (Hc : c ∈ RemoteServer.clients s) by (apply (wf_heap s Hwf); eauto).
  destruct (find_client _ _ Hc) as (i & Hfind & Hi).
  unfold RemoteServer.disconnectClient. rewrite Hfind, Hcl. cbn.
  eexists; split; [reflexivity|]. cbn.
  assert (Hmem : ∀ x, x ∈ RemoteServer.swap_remove i (RemoteServer.clients s)
                   ↔ x ∈ RemoteServer.clients s ∧ x ≠ c)
    by (intros x; apply swap_remove_elem_of; [apply (wf_nodup s Hwf)|exact Hi]).
  split; [exact Hmem|]. do 4 (split; [reflexivity|]).
  constructor; cbn.
  - eapply swap_remove_NoDup; [apply (wf_nodup s Hwf)|exact Hi].
  - intros x. rewrite Hmem. split.
    + intros [Hx Hne].
      rewrite lookup_delete_ne by congruence. now apply (wf_heap s Hwf).
    + intros [y Hy]. apply lookup_delete_Some in Hy as [Hne Hy].
      split; [apply (wf_heap s Hwf); eauto|congruence].
  - match goal with |- _ = RemoteServer.numStreaming ?s' mod _ =>
      rewrite (count_remove s s' i c (wf_nodup s Hwf) Hi eq_refl)
    end.
    + rewrite (streaming_lookup s c cl Hcl), (wf_count s Hwf).
      destruct (decide (RemoteServer.state cl = RemoteServer.STREAMING)) as [E|E].
      * rewrite bool_decide_eq_true_2 by exact E.
        unfold RemoteServer.UINT_MAX1. now rewrite Zminus_mod_idemp_l.
      * rewrite bool_decide_eq_false_2 by exact E. now rewrite Z.sub_0_r.
    + intros x Hne. unfold RemoteServer.streaming. cbn.
      now rewrite lookup_delete_ne by congruence.
  - cbn. intros x clx Hx. apply lookup_delete_Some in Hx as [_ Hx].
    exact (wf_keys s Hwf x clx Hx).
  - cbn. intros c1 c2 cl1 cl2 H1 H2.
    apply lookup_delete_Some in H1 as [_ H1].
    apply lookup_delete_Some in H2 as [_ H2].
    exact (wf_key_inj s Hwf c1 c2 cl1 cl2 H1 H2).
  - cbn. intros x clx Hx. apply lookup_delete_Some in Hx as [_ Hx].
    exact (wf_start s Hwf x clx Hx).
Qed.

Lemma update_client_wf s c cl cl' n' :
  wf s -> RemoteServer.heap s !! c = Some cl ->
  RemoteServer.listenerKey cl' = RemoteServer.listenerKey cl ->
  (RemoteServer.state cl' = RemoteServer.START ->
   swapOnRead (RemoteServer.clientPipe cl') = false) ->
  n' = (RemoteServer.numClients s - streaming_bit cl + streaming_bit cl')
       mod RemoteServer.UINT_MAX1 ->
  wf (RemoteServer.mkServer (RemoteServer.clients s)
        (<[c := cl']> (RemoteServer.heap s)) n'
        (RemoteServer.listeners s) (RemoteServer.nextKey s)).
Proof.
  intros Hwf Hcl Hkey Hsw Hn.
  assert (Hc : c ∈ RemoteServer.clients s) by (apply (wf_heap s Hwf); eauto).
  constructor; cbn.
  - apply (wf_nodup s Hwf).
  - intros x. rewrite (wf_heap s Hwf x). destruct (decide (x = c)) as [->|Hne].
    + rewrite lookup_insert_eq, Hcl. split; eauto.
    + now rewrite lookup_insert_ne by congruence.
  - match goal with |- _ = RemoteServer.numStreaming ?s' mod _ =>
      rewrite (count_update s s' c (wf_nodup s Hwf) Hc eq_refl)
    end.
    + rewrite (streaming_lookup s c cl Hcl).
      erewrite (streaming_lookup _ c cl') by (cbn; apply lookup_insert_eq).
      subst n'. rewrite (wf_count s Hwf). unfold streaming_bit.
      set (a := if bool_decide (RemoteServer.state cl = _) then 1 else 0).
      set (b := if bool_decide (RemoteServer.state cl' = _) then 1 else 0).
      set (m := RemoteServer.numStreaming s).
      replace (m mod RemoteServer.UINT_MAX1 - a + b)
        with (m mod RemoteServer.UINT_MAX1 + (b - a)) by lia.
      rewrite Zplus_mod_idemp_l. f_equal. lia.
    + intros x Hne. unfold RemoteServer.streaming. cbn.
      now rewrite lookup_insert_ne by congruence.
  - intros x clx. destruct (decide (x = c)) as [->|Hne].
    + rewrite lookup_insert_eq. intros [= <-]. rewrite Hkey.
      exact (wf_keys s Hwf c cl Hcl).
    + rewrite lookup_insert_ne by congruence. apply (wf_keys s Hwf).
  - intros c1 c2 cl1 cl2 H1 H2 Hk.
    assert (Hold : ∀ x clx, <[c:=cl']> (RemoteServer.heap s) !! x = Some clx ->
              ∃ cly, RemoteServer.heap s !! x = Some cly ∧
                     RemoteServer.listenerKey cly = RemoteServer.listenerKey clx).
    { intros x clx. destruct (decide (x = c)) as [->|Hne].
      - rewrite lookup_insert_eq. intros [= <-]. eauto.
      - rewrite lookup_insert_ne by congruence. eauto. }
    destruct (Hold _ _ H1) as (y1 & Hy1 & E1).
    destruct (Hold _ _ H2) as (y2 & Hy2 & E2).
    apply (wf_key_inj s Hwf c1 c2 y1 y2 Hy1 Hy2). congruence.
  - intros x clx. destruct (decide (x = c)) as [->|Hne].
    + rewrite lookup_insert_eq. intros [= <-]. exact Hsw.
    + rewrite lookup_insert_ne by congruence. apply (wf_start s Hwf).
Qed.

Lemma update_client_listeners s c cl cl' n' :
  wf_listeners s -> RemoteServer.heap s !! c = Some cl ->
  RemoteServer.listenerKey cl' = RemoteServer.listenerKey cl ->
  wf_listeners (RemoteServer.mkServer (RemoteServer.clients s)
        (<[c := cl']> (RemoteServer.heap s)) n'
        (RemoteServer.listeners s) (RemoteServer.nextKey s)).
Proof.
  intros Hl Hcl Hkey k x Hk. cbn in *.
  destruct (Hl k x Hk) as (clx & Hx & Hkx).
  destruct (decide (x = c)) as [->|Hne].
  - exists cl'. rewrite lookup_insert_eq. split; [reflexivity|]. congruence.
  - exists clx. now rewrite lookup_insert_ne by congruence.
Qed.

(** ** The message handler *)

Lemma read_int_swap be n p v p' :
  read_int be n p = Some (v, p') -> swapOnRead p' = swapOnRead p.
Proof.
  unfold read_int, read_raw.
  destruct (n <=? length (inbound p))%nat; [|discriminate].
  now intros [= _ <-].
Qed.

Lemma read_ints_swap be n count : ∀ p vs p',
  read_ints be n count p = Some (vs, p') -> swapOnRead p' = swapOnRead p.
Proof.
  induction count as [|count IH]; intros p vs p'; cbn [read_ints].
  - now intros [= _ <-].
  - destruct (read_int be n p) as [[v q]|] eqn:E; [|discriminate].
    destruct (read_ints be n count q) as [[ws q']|] eqn:E'; [|discriminate].
    intros [= _ <-]. apply read_int_swap in E. apply IH in E'. congruence.
Qed.

(** What the [try] block does to the client and to the counter. *)
Lemma handleMessage_cases be cl n :
  match RemoteServer.handleMessage be cl n with
  | Done (cl', n') =>
      RemoteServer.listenerKey cl' = RemoteServer.listenerKey cl ∧
      RemoteServer.state cl' = RemoteServer.STREAMING ∧
      n' = (n + (1 - streaming_bit cl)) mod RemoteServer.UINT_MAX1 ∨
      RemoteServer.listenerKey cl' = RemoteServer.listenerKey cl ∧
      RemoteServer.state cl' = RemoteServer.STREAMING ∧
      RemoteServer.state cl = RemoteServer.STREAMING ∧ n' = n
  | Raised (cl', n') =>
      RemoteServer.listenerKey cl' = RemoteServer.listenerKey cl ∧
      RemoteServer.state cl' = RemoteServer.state cl ∧
      swapOnRead (RemoteServer.clientPipe cl')
      = swapOnRead (RemoteServer.clientPipe cl) ∧
      n' = n
  end.
Proof.
  unfold RemoteServer.handleMessage, streaming_bit.
  destruct (RemoteServer.state cl) eqn:Est.
  - rewrite bool_decide_eq_false_2 by discriminate.
    destruct (read_int be 4 _) as [[token p]|] eqn:Er; [|cbn; auto].
    pose proof (read_int_swap _ _ _ _ _ Er) as Hs1.
    repeat case_decide; cbn; auto.
  - rewrite bool_decide_eq_true_2 by reflexivity.
    destruct (read_int be 2 _) as [[token p]|] eqn:Er; [|cbn; auto].
    pose proof (read_int_swap _ _ _ _ _ Er) as Hs1.
    case_decide; [|cbn; auto].
    destruct (read_ints be 4 3 p) as [[pos p2]|] eqn:E2; [|cbn; auto].
    pose proof (read_ints_swap _ _ _ _ _ _ E2) as Hs2.
    destruct (read_ints be 4 3 p2) as [[dir p3]|] eqn:E3; cbn.
    + right. auto.
    + repeat split; try reflexivity. congruence.
Qed.

(** ** Events preserve consistency *)

Lemma wf_listeners_change s ls :
  wf s ->
  wf (RemoteServer.mkServer (RemoteServer.clients s) (RemoteServer.heap s)
        (RemoteServer.numClients s) ls (RemoteServer.nextKey s)).
Proof. intros [? ? ? ? ? ?]. constructor; assumption. Qed.

Lemma dispatchClientEvent_wf be k s c :
  wf s -> wf_listeners s -> RemoteServer.listeners s !! k = Some c ->
  ∃ s', RemoteServer.dispatchClientEvent be k s = Some s' ∧
        wf s' ∧ wf_listeners s'.
Proof.
  intros Hwf Hl Hk. destruct (Hl k c Hk) as (cl & Hcl & Hkey).
  unfold RemoteServer.dispatchClientEvent, RemoteServer.clientMessageCallback.
  rewrite Hk. cbn. rewrite Hcl. cbn.
  pose proof (handleMessage_cases be cl (RemoteServer.numClients s)) as Hc.
  assert (Hn : RemoteServer.numClients s mod RemoteServer.UINT_MAX1
               = RemoteServer.numClients s)
    by (rewrite (wf_count s Hwf); apply Zmod_mod).
  destruct (RemoteServer.handleMessage be cl _) as [[cl' n']|[cl' n']].
  - cbn. eexists; split; [reflexivity|]. split.
    + apply (update_client_wf s c cl cl' n' Hwf Hcl); [tauto| |].
      * destruct Hc as [(_ & E & _)|(_ & E & _)]; congruence.
      * unfold streaming_bit at 2.
        destruct Hc as [(_ & E & ->)|(_ & E & E' & ->)].
        -- rewrite bool_decide_eq_true_2 by exact E. f_equal. lia.
        -- unfold streaming_bit. rewrite !bool_decide_eq_true_2 by assumption.
           rewrite <- Hn at 1. f_equal. lia.
    + apply (update_client_listeners s c cl cl' n' Hl Hcl). tauto.
  - destruct Hc as (Hkey' & Hst & Hsw & ->).
    set (s1 := RemoteServer.mkServer _ _ _ _ _).
    assert (Hwf1 : wf s1).
    { apply (update_client_wf s c cl cl' _ Hwf Hcl Hkey').
      - intros E. rewrite Hsw. apply (wf_start s Hwf c cl Hcl). congruence.
      - unfold streaming_bit. rewrite Hst. rewrite <- Hn at 1. f_equal. lia. }
    assert (Hcl1 : RemoteServer.heap s1 !! c = Some cl')
      by (cbn; apply lookup_insert_eq).
    destruct (disconnectClient_spec s1 c false cl' Hwf1 Hcl1)
      as (s2 & -> & Hmem & Hheap & Hnum & Hlis & Hnext & Hwf2).
    cbn. eexists; split; [reflexivity|]. split.
    + apply (wf_listeners_change s2 _ Hwf2).
    + intros k' x. cbn. rewrite Hlis. cbn. intros Hk'.
      apply lookup_delete_Some in Hk' as [Hne Hk'].
      destruct (Hl k' x Hk') as (clx & Hx & Hkx).
      assert (x ≠ c) by (intros ->; congruence).
      exists clx. split; [|exact Hkx]. rewrite Hheap. cbn.
      rewrite lookup_delete_ne by congruence.
      now rewrite lookup_insert_ne by congruence.
Qed.

Lemma write_raw_swap bs p :
  swapOnRead (final (write_raw bs p)) = swapOnRead p.
Proof.
  unfold write_raw. destruct (credit p) as [c|]; [|reflexivity].
  destruct (length bs <=? c)%nat; reflexivity.
Qed.

Lemma and_then_swap (o : outcome TCPPipe) k p :
  swapOnRead (final o) = swapOnRead p ->
  (∀ q, swapOnRead (final (k q)) = swapOnRead q) ->
  swapOnRead (final (and_then o k)) = swapOnRead p.
Proof. destruct o as [q|q]; cbn; intros Ho Hk; [rewrite Hk|]; exact Ho. Qed.

Section Accept.
Context {F : Type} `{Numeric F}.
Variable be : bool.
Variable float32_image : F -> Z.
Variable gridSize : Z * Z.
Variable cellSize : F * F.
Variable elevationRange : F * F.

Lemma sendHandshake_swap p :
  swapOnRead (final (RemoteServer.sendHandshake be float32_image gridSize
                       cellSize elevationRange p))
  = swapOnRead p.
Proof.
  unfold RemoteServer.sendHandshake, write_int.
  repeat (apply and_then_swap; [|intros ?]); apply write_raw_swap.
Qed.

Lemma newConnectionCallback_wf l inb cr s :
  wf s -> wf_listeners s -> RemoteServer.heap s !! l = None ->
  let s' := RemoteServer.newConnectionCallback be float32_image gridSize
              cellSize elevationRange l inb cr s in
  wf s' ∧ wf_listeners s' ∧
  RemoteServer.numClients s' = RemoteServer.numClients s.
Proof.
  intros Hwf Hl Hfree. unfold RemoteServer.newConnectionCallback.
  pose proof (sendHandshake_swap (mkPipe inb false [] cr)) as Hsw.
  destruct (RemoteServer.sendHandshake _ _ _ _ _ _) as [p|p]; cbn;
    [|auto].
  cbn in Hsw.
  assert (Hnl : l ∉ RemoteServer.clients s).
  { intros Hin. apply (wf_heap s Hwf) in Hin as [? ?]. congruence. }
  split; [|split; [|reflexivity]].
  - constructor; cbn.
    + apply NoDup_app. split; [apply (wf_nodup s Hwf)|]. split.
      * intros x Hx ->%list_elem_of_singleton. contradiction.
      * apply NoDup_singleton.
    + intros x. rewrite elem_of_app, list_elem_of_singleton.
      destruct (decide (x = l)) as [->|Hne].
      * rewrite lookup_insert_eq. split; eauto.
      * rewrite lookup_insert_ne by congruence.
        rewrite (wf_heap s Hwf x). tauto.
    + rewrite (wf_count s Hwf). f_equal. unfold RemoteServer.numStreaming. cbn.
      rewrite filter_app, length_app.
      match goal with |- context [RemoteServer.streaming ?s' _] =>
        rewrite <- (count_agree s s' _ _ (reflexivity (RemoteServer.clients s)))
      end.
      * rewrite filter_cons, filter_nil.
        match goal with |- context [decide (?t = true)] =>
          assert (E : t = false)
            by (unfold RemoteServer.streaming; cbn;
                rewrite lookup_insert_eq; reflexivity);
          rewrite decide_False by (rewrite E; discriminate)
        end.
        cbn. lia.
      * intros x Hx. unfold RemoteServer.streaming. cbn.
        rewrite lookup_insert_ne; [reflexivity|]. intros ->. contradiction.
    + intros x clx. destruct (decide (x = l)) as [->|Hne].
      * rewrite lookup_insert_eq. intros [= <-]. cbn. lia.
      * rewrite lookup_insert_ne by congruence. intros Hx.
        pose proof (wf_keys s Hwf x clx Hx). lia.
    + intros c1 c2 cl1 cl2.
      destruct (decide (c1 = l)) as [->|H1], (decide (c2 = l)) as [->|H2];
        rewrite ?lookup_insert_eq, ?lookup_insert_ne by congruence; auto.
      * intros [= <-] Hx. cbn. intros E.
        pose proof (wf_keys s Hwf _ _ Hx). lia.
      * intros Hx [= <-]. cbn. intros E.
        pose proof (wf_keys s Hwf _ _ Hx). lia.
      * apply (wf_key_inj s Hwf).
    + intros x clx. destruct (decide (x = l)) as [->|Hne].
      * rewrite lookup_insert_eq. intros [= <-]. cbn. auto.
      * rewrite lookup_insert_ne by congruence. apply (wf_start s Hwf).
  - intros k x. cbn. destruct (decide (k = RemoteServer.nextKey s)) as [->|Hne].
    + rewrite lookup_insert_eq. intros [= <-].
      eexists. rewrite lookup_insert_eq. split; reflexivity.
    + rewrite lookup_insert_ne by congruence. intros Hk.
      destruct (Hl k x Hk) as (clx & Hx & Hkx). exists clx.
      rewrite lookup_insert_ne; [auto|]. intros ->. congruence.
Qed.

End Accept.

(** ** The broadcast pass *)

Lemma filter_agree {A} (P Q : A -> Prop)
    `{!∀ x, Decision (P x)} `{!∀ x, Decision (Q x)} (l : list A) :
  (∀ x, x ∈ l -> P x ↔ Q x) -> filter P l = filter Q l.
Proof.
  induction l as [|x l IH]; intros Hag; [reflexivity|].
  rewrite !filter_cons.
  rewrite IH by (intros y Hy; apply Hag; now right).
  pose proof (Hag x ltac:(left)) as Hx.
  destruct (decide (P x)), (decide (Q x)); tauto || reflexivity.
Qed.

Lemma server_eta (s : RemoteServer.Server) :
  RemoteServer.mkServer (RemoteServer.clients s) (RemoteServer.heap s)
    (RemoteServer.numClients s) (RemoteServer.listeners s)
    (RemoteServer.nextKey s) = s.
Proof. destruct s; reflexivity. Qed.

Section BroadcastPass.
Context {F : Type} `{Numeric F}.
Variable be : bool.
Variable gridSize : Z * Z.
Variable er : F * F.
Variable gb : RemoteServer.GridBuffers F.

Lemma served_fields cl :
  RemoteServer.state (served be gridSize er gb cl) = RemoteServer.state cl ∧
  RemoteServer.listenerKey (served be gridSize er gb cl) = RemoteServer.listenerKey cl ∧
  RemoteServer.position (served be gridSize er gb cl) = RemoteServer.position cl ∧
  RemoteServer.direction (served be gridSize er gb cl) = RemoteServer.direction cl ∧
  (RemoteServer.state cl = RemoteServer.START -> served be gridSize er gb cl = cl).
Proof.
  unfold served. case_decide as E; cbn; repeat split; try reflexivity.
  intros E'. congruence.
Qed.

Lemma broadcast_step_spec s acc c cl :
  RemoteServer.heap s !! c = Some cl ->
  RemoteServer.broadcast_step be gridSize er gb (Some (s, acc)) c
  = Some (RemoteServer.with_client c (served be gridSize er gb cl) s,
          if dead be gridSize er gb s c then acc ++ [c] else acc).
Proof.
  intros Hcl. unfold RemoteServer.broadcast_step, dead, served, write_fails. cbn. rewrite Hcl. cbn.
  case_decide as E.
  - rewrite bool_decide_eq_true_2 by exact E. cbn.
    destruct (RemoteServer.sendGrids _ _ _ _ _); reflexivity.
  - rewrite bool_decide_eq_false_2 by exact E. cbn.
    unfold RemoteServer.with_client. rewrite insert_id by exact Hcl.
    now rewrite server_eta.
Qed.

Lemma broadcast_first_loop l : ∀ s acc,
  NoDup l -> (∀ c, c ∈ l -> is_Some (RemoteServer.heap s !! c)) ->
  ∃ s1, foldl (RemoteServer.broadcast_step be gridSize er gb) (Some (s, acc)) l
        = Some (s1, acc ++ filter (λ c, dead be gridSize er gb s c = true) l) ∧
    RemoteServer.clients s1 = RemoteServer.clients s ∧
    RemoteServer.numClients s1 = RemoteServer.numClients s ∧
    RemoteServer.listeners s1 = RemoteServer.listeners s ∧
    RemoteServer.nextKey s1 = RemoteServer.nextKey s ∧
    ∀ x, RemoteServer.heap s1 !! x
         = if decide (x ∈ l) then served be gridSize er gb <$> RemoteServer.heap s !! x
           else RemoteServer.heap s !! x.
Proof.
  induction l as [|c l IH]; intros s acc Hnd Hlive.
  - exists s. cbn. rewrite app_nil_r. repeat split; reflexivity.
  - apply NoDup_cons in Hnd as [Hc Hnd].
    destruct (Hlive c ltac:(left)) as [cl Hcl].
    cbn [foldl]. rewrite (broadcast_step_spec s acc c cl Hcl).
    set (s' := RemoteServer.with_client c (served be gridSize er gb cl) s).
    assert (Hother : ∀ x, x ≠ c ->
              RemoteServer.heap s' !! x = RemoteServer.heap s !! x)
      by (intros x Hx; cbn; now rewrite lookup_insert_ne by congruence).
    destruct (IH s' (if dead be gridSize er gb s c then acc ++ [c] else acc) Hnd)
      as (s1 & Hfold & Hcs & Hn & Hls & Hnk & Hheap).
    { intros x Hx. rewrite Hother; [apply Hlive; now right|].
      intros ->. contradiction. }
    exists s1. split; [|repeat split; try assumption].
    + rewrite Hfold. f_equal. f_equal. rewrite filter_cons.
      rewrite (filter_agree (λ x, dead be gridSize er gb s' x = true) (λ x, dead be gridSize er gb s x = true)).
      * destruct (dead be gridSize er gb s c) eqn:E.
        -- rewrite decide_True by reflexivity. now rewrite <- app_assoc.
        -- rewrite decide_False by discriminate. reflexivity.
      * intros x Hx. unfold dead. rewrite Hother; [reflexivity|].
        intros ->. contradiction.
    + intros x. rewrite Hheap. destruct (decide (x = c)) as [->|Hne].
      * rewrite decide_False by exact Hc. rewrite decide_True by left.
        cbn. rewrite lookup_insert_eq, Hcl. reflexivity.
      * rewrite Hother by exact Hne.
        destruct (decide (x ∈ l)) as [Hx|Hx].
        -- rewrite decide_True by (now right). reflexivity.
        -- rewrite decide_False; [reflexivity|].
           intros [->|Hx']%elem_of_cons; contradiction.
Qed.

End BroadcastPass.

Lemma disconnect_listeners s c cl s' :
  wf s -> wf_listeners s -> RemoteServer.heap s !! c = Some cl ->
  RemoteServer.heap s' = delete c (RemoteServer.heap s) ->
  RemoteServer.listeners s'
  = delete (RemoteServer.listenerKey cl) (RemoteServer.listeners s) ->
  wf_listeners s' ∧
  ∀ k x, RemoteServer.listeners s' !! k = Some x
         ↔ RemoteServer.listeners s !! k = Some x ∧ x ≠ c.
Proof.
  intros Hwf Hl Hcl Hheap Hlis.
  assert (Hiff : ∀ k x, RemoteServer.listeners s' !! k = Some x
            ↔ RemoteServer.listeners s !! k = Some x ∧ x ≠ c).
  { intros k x. rewrite Hlis, lookup_delete_Some. split.
    - intros [Hne Hk]. split; [exact Hk|]. intros ->.
      destruct (Hl k c Hk) as (cl' & Hc' & Hk'). congruence.
    - intros [Hk Hne]. split; [|exact Hk]. intros <-.
      destruct (Hl _ x Hk) as (clx & Hx & Hkx).
      apply Hne. exact (wf_key_inj s Hwf x c clx cl Hx Hcl Hkx). }
  split; [|exact Hiff].
  intros k x Hk. apply Hiff in Hk as [Hk Hne].
  destruct (Hl k x Hk) as (clx & Hx & Hkx). exists clx.
  rewrite Hheap, lookup_delete_ne by congruence. auto.
Qed.

(** The second loop of the broadcast. *)
Lemma broadcast_second_loop dl : ∀ s,
  wf s -> wf_listeners s -> NoDup dl ->
  (∀ c, c ∈ dl -> c ∈ RemoteServer.clients s) ->
  ∃ s2, foldl RemoteServer.disconnect_step (Some s) dl = Some s2 ∧
    wf s2 ∧ wf_listeners s2 ∧
    (∀ x, x ∈ RemoteServer.clients s2 ↔ x ∈ RemoteServer.clients s ∧ x ∉ dl) ∧
    (∀ x, RemoteServer.heap s2 !! x
          = if decide (x ∈ dl) then None else RemoteServer.heap s !! x) ∧
    (∀ k x, RemoteServer.listeners s2 !! k = Some x
            ↔ RemoteServer.listeners s !! k = Some x ∧ x ∉ dl).
Proof.
  induction dl as [|c dl IH]; intros s Hwf Hl Hnd Hin.
  - exists s. cbn [foldl]. split; [reflexivity|].
    split; [assumption|]. split; [assumption|]. split; [|split].
    + intros x. rewrite elem_of_nil. tauto.
    + intros x. rewrite decide_False by apply not_elem_of_nil. reflexivity.
    + intros k x. rewrite elem_of_nil. tauto.
  - apply NoDup_cons in Hnd as [Hc Hnd].
    assert (Hcs : c ∈ RemoteServer.clients s) by (apply Hin; left).
    apply (wf_heap s Hwf) in Hcs as [cl Hcl].
    destruct (disconnectClient_spec s c true cl Hwf Hcl)
      as (s' & Hdis & Hmem & Hheap & _ & Hlis & _ & Hwf').
    destruct (disconnect_listeners s c cl s' Hwf Hl Hcl Hheap Hlis)
      as [Hl' Hliff].
    destruct (IH s' Hwf' Hl' Hnd) as (s2 & Hfold & Hwf2 & Hl2 & Hm2 & Hh2 & Hk2).
    { intros x Hx. apply Hmem. split; [apply Hin; now right|].
      intros ->. contradiction. }
    exists s2. cbn [foldl]. unfold RemoteServer.disconnect_step at 2.
    cbn. rewrite Hdis. split; [exact Hfold|].
    split; [exact Hwf2|]. split; [exact Hl2|]. split; [|split].
    + intros x. rewrite Hm2, Hmem, elem_of_cons. tauto.
    + intros x. rewrite Hh2, Hheap.
      destruct (decide (x ∈ dl)) as [Hx|Hx].
      * rewrite decide_True by (now right). reflexivity.
      * destruct (decide (x = c)) as [->|Hne].
        -- rewrite decide_True by left. apply lookup_delete_eq.
        -- rewrite lookup_delete_ne by congruence.
           rewrite decide_False; [reflexivity|].
           intros [->|Hx']%elem_of_cons; contradiction.
    + intros k x. rewrite Hk2, Hliff, elem_of_cons. tauto.
Qed.

Section BroadcastSpec.
Context {F : Type} `{Numeric F}.
Variable be : bool.
Variable gridSize : Z * Z.
Variable er : F * F.
Variable gb : RemoteServer.GridBuffers F.

Lemma served_wf s s1 :
  wf s -> wf_listeners s ->
  RemoteServer.clients s1 = RemoteServer.clients s ->
  RemoteServer.numClients s1 = RemoteServer.numClients s ->
  RemoteServer.listeners s1 = RemoteServer.listeners s ->
  RemoteServer.nextKey s1 = RemoteServer.nextKey s ->
  (∀ x, RemoteServer.heap s1 !! x
        = served be gridSize er gb <$> RemoteServer.heap s !! x) ->
  wf s1 ∧ wf_listeners s1.
Proof.
  intros Hwf Hl Hcs Hn Hls Hnk Hheap.
  assert (Hinv : ∀ x clx, RemoteServer.heap s1 !! x = Some clx ->
            ∃ cl, RemoteServer.heap s !! x = Some cl ∧
                  clx = served be gridSize er gb cl).
  { intros x clx. rewrite Hheap. destruct (RemoteServer.heap s !! x) as [cl|];
      cbn; [|discriminate]. intros [= <-]. eauto. }
  split.
  - constructor.
    + rewrite Hcs. apply (wf_nodup s Hwf).
    + intros x. rewrite Hcs, Hheap, (wf_heap s Hwf x).
      destruct (RemoteServer.heap s !! x); cbn; split; intros [? ?]; eauto;
        discriminate.
    + rewrite Hn, (wf_count s Hwf). f_equal. unfold RemoteServer.numStreaming.
      rewrite Hcs. f_equal. apply count_agree; [reflexivity|].
      intros x _. unfold RemoteServer.streaming. rewrite Hheap.
      destruct (RemoteServer.heap s !! x) as [cl|]; cbn; [|reflexivity].
      now rewrite (proj1 (served_fields be gridSize er gb cl)).
    + intros x clx Hx. destruct (Hinv x clx Hx) as (cl & Hcl & ->).
      rewrite Hnk.
      rewrite (proj1 (proj2 (served_fields be gridSize er gb cl))).
      exact (wf_keys s Hwf x cl Hcl).
    + intros c1 c2 cl1 cl2 H1 H2.
      destruct (Hinv _ _ H1) as (y1 & Hy1 & ->).
      destruct (Hinv _ _ H2) as (y2 & Hy2 & ->).
      rewrite !(proj1 (proj2 (served_fields be gridSize er gb _))).
      exact (wf_key_inj s Hwf c1 c2 y1 y2 Hy1 Hy2).
    + intros x clx Hx. destruct (Hinv x clx Hx) as (cl & Hcl & ->).
      destruct (served_fields be gridSize er gb cl) as (Est & _ & _ & _ & Hid).
      rewrite Est. intros E. rewrite (Hid E). exact (wf_start s Hwf x cl Hcl E).
  - intros k x. rewrite Hls. intros Hk.
    destruct (Hl k x Hk) as (cl & Hcl & Hkey).
    exists (served be gridSize er gb cl). rewrite Hheap, Hcl. cbn.
    split; [reflexivity|].
    now rewrite (proj1 (proj2 (served_fields be gridSize er gb cl))).
Qed.

(** One broadcast, as a whole. *)
Lemma broadcast_spec s :
  wf s -> wf_listeners s ->
  ∃ s', RemoteServer.broadcast be gridSize er gb s = Some s' ∧
    wf s' ∧ wf_listeners s' ∧
    (∀ x, x ∈ RemoteServer.clients s'
          ↔ x ∈ RemoteServer.clients s ∧ dead be gridSize er gb s x = false) ∧
    (∀ x, RemoteServer.heap s' !! x
          = if dead be gridSize er gb s x then None
            else served be gridSize er gb <$> RemoteServer.heap s !! x) ∧
    (∀ k x, RemoteServer.listeners s' !! k = Some x
            ↔ RemoteServer.listeners s !! k = Some x ∧
              dead be gridSize er gb s x = false).
Proof.
  intros Hwf Hl.
  destruct (broadcast_first_loop be gridSize er gb (RemoteServer.clients s) s []
              (wf_nodup s Hwf))
    as (s1 & Hfold & Hcs & Hn & Hls & Hnk & Hheap).
  { intros c. apply (wf_heap s Hwf). }
  cbn [app] in Hfold.
  set (dl := filter (λ c, dead be gridSize er gb s c = true)
               (RemoteServer.clients s)) in *.
  assert (Hheap1 : ∀ x, RemoteServer.heap s1 !! x
            = served be gridSize er gb <$> RemoteServer.heap s !! x).
  { intros x. rewrite Hheap. case_decide as Hx; [reflexivity|].
    destruct (RemoteServer.heap s !! x) eqn:E; [|reflexivity].
    exfalso. apply Hx, (wf_heap s Hwf). eauto. }
  destruct (served_wf s s1 Hwf Hl Hcs Hn Hls Hnk Hheap1) as [Hwf1 Hl1].
  assert (Hdl : ∀ x, x ∈ dl ↔ dead be gridSize er gb s x = true).
  { intros x. unfold dl. rewrite list_elem_of_filter. split; [tauto|].
    intros Hd. split; [exact Hd|]. apply (wf_heap s Hwf).
    unfold dead in Hd. destruct (RemoteServer.heap s !! x); [eauto|discriminate]. }
  destruct (broadcast_second_loop dl s1 Hwf1 Hl1) as
    (s2 & Hfold2 & Hwf2 & Hl2 & Hm2 & Hh2 & Hk2).
  { apply NoDup_filter, (wf_nodup s Hwf). }
  { intros c Hc. rewrite Hcs. unfold dl in Hc.
    apply list_elem_of_filter in Hc. tauto. }
  exists s2. unfold RemoteServer.broadcast. rewrite Hfold. cbn.
  split; [exact Hfold2|]. split; [exact Hwf2|]. split; [exact Hl2|].
  split; [|split].
  - intros x. rewrite Hm2, Hcs, Hdl.
    destruct (dead be gridSize er gb s x); intuition congruence.
  - intros x. rewrite Hh2, Hheap1.
    destruct (dead be gridSize er gb s x) eqn:E.
    + rewrite decide_True by (now apply Hdl). reflexivity.
    + rewrite decide_False; [reflexivity|]. rewrite Hdl. congruence.
  - intros k x. rewrite Hk2, Hls, Hdl.
    destruct (dead be gridSize er gb s x); intuition congruence.
Qed.

End BroadcastSpec.

(** ** Reachable states *)

Lemma init_wf : wf RemoteServer.init ∧ wf_listeners RemoteServer.init.
Proof.
  split.
  - constructor; cbn; try (intros; simplify_map_eq; fail).
    + apply NoDup_nil_2.
    + intros c. rewrite elem_of_nil, lookup_empty. split; [tauto|].
      intros [? ?]; discriminate.
    + reflexivity.
  - intros k c Hk. cbn in Hk. simplify_map_eq.
Qed.

Section Reachable.
Context {F : Type} `{Numeric F}.
Variable be : bool.
Variable float32_image : F -> Z.
Variable gridSize : Z * Z.
Variable cellSize : F * F.
Variable elevationRange : F * F.

Lemma exec_wf ev s s' :
  wf s -> wf_listeners s ->
  RemoteServer.exec be float32_image gridSize cellSize elevationRange ev s
  = Some s' ->
  wf s' ∧ wf_listeners s'.
Proof.
  intros Hwf Hl. destruct ev as [l inb cr|k|gb]; cbn.
  - case_decide as Hfree; [|discriminate]. intros [= <-].
    destruct (newConnectionCallback_wf be float32_image gridSize cellSize
                elevationRange l inb cr s Hwf Hl Hfree) as (? & ? & _).
    auto.
  - destruct (RemoteServer.listeners s !! k) as [c|] eqn:Hk.
    + destruct (dispatchClientEvent_wf be k s c Hwf Hl Hk) as (s2 & -> & ? & ?).
      intros [= <-]. auto.
    + unfold RemoteServer.dispatchClientEvent. rewrite Hk. discriminate.
  - destruct (broadcast_spec be gridSize elevationRange gb s Hwf Hl)
      as (s2 & -> & ? & ? & _).
    intros [= <-]. auto.
Qed.

Lemma reachable_wf s :
  RemoteServer.reachable be float32_image gridSize cellSize elevationRange s ->
  wf s ∧ wf_listeners s.
Proof.
  induction 1 as [|s ev s' _ [Hwf Hl] Hex]; [apply init_wf|].
  exact (exec_wf ev s s' Hwf Hl Hex).
Qed.

End Reachable.

(** ** Reading from a pipe *)

Lemma read_int_bytes be n p bs rest :
  inbound p = bs ++ rest -> length bs = n ->
  read_int be n p
  = Some (host_value be (if swapOnRead p then reverse bs else bs), consumed n p).
Proof.
  intros Hin Hn. unfold read_int, read_raw. rewrite Hin, length_app, Hn.
  replace (n <=? n + length rest)%nat with true
    by (symmetry; apply Nat.leb_le; lia).
  rewrite take_app_length' by (symmetry; exact Hn).
  unfold consumed. now rewrite Hin.
Qed.

Lemma consumed_consumed n m p : consumed m (consumed n p) = consumed (n + m) p.
Proof. unfold consumed. cbn. now rewrite drop_drop. Qed.

Lemma read_ints_wire be p (vs : list Z) rest :
  Forall (λ v, 0 <= v < 2 ^ 32) vs ->
  inbound p = flat_map (host_bytes (xorb be (swapOnRead p)) 4) vs ++ rest ->
  read_ints be 4 (length vs) p = Some (vs, consumed (4 * length vs) p).
Proof.
  revert p. induction vs as [|v vs IH]; intros p Hvs Hin.
  - cbn. destruct p; reflexivity.
  - cbn [length read_ints]. cbn [flat_map] in Hin. rewrite <- app_assoc in Hin.
    inversion Hvs as [|? ? Hv Hvs']; subst.
    rewrite (read_int_bytes be 4 p _ _ Hin (length_host_bytes _ _ _)).
    rewrite host_value_swapped. rewrite (Z.mod_small v) by (cbn; lia).
    rewrite (IH (consumed 4 p) Hvs').
    + rewrite consumed_consumed.
      replace (4 * S (length vs))%nat with (4 + 4 * length vs)%nat by lia.
      reflexivity.
    + cbn. rewrite Hin.
      rewrite drop_app_length' by (now rewrite length_host_bytes). reflexivity.
Qed.

(** ** The streaming-client counter *)

(** C7.  In every reachable state the counter is the number of listed
    clients in the streaming state (an [unsigned int]: modulo 2^32, and
    exactly that number while fewer than 2^32 clients are listed).  A
    message handler adds one exactly when a client in [START] passes the
    token check, and then the client is streaming; a disconnect takes
    one off exactly when the client was streaming; accepting a
    connection and sending the grids leave the counter as it is. *)
Theorem C7_streaming_counter {F : Type} `{Numeric F}
    (be : bool) (float32_image : F -> Z) (gridSize : Z * Z)
    (cellSize elevationRange : F * F) (s : RemoteServer.Server) :
  RemoteServer.reachable be float32_image gridSize cellSize elevationRange s ->
  RemoteServer.numClients s
  = RemoteServer.numStreaming s mod RemoteServer.UINT_MAX1 ∧
  (Z.of_nat (length (RemoteServer.clients s)) < RemoteServer.UINT_MAX1 ->
   RemoteServer.numClients s = RemoteServer.numStreaming s) ∧
  (∀ l inb cr,
     RemoteServer.numClients
       (RemoteServer.newConnectionCallback be float32_image gridSize cellSize
          elevationRange l inb cr s)
     = RemoteServer.numClients s) ∧
  (∀ cl,
     match RemoteServer.handleMessage be cl (RemoteServer.numClients s) with
     | Done (cl', n') =>
         if decide (RemoteServer.state cl = RemoteServer.START)
         then RemoteServer.state cl' = RemoteServer.STREAMING ∧
              n' = (RemoteServer.numClients s + 1) mod RemoteServer.UINT_MAX1
         else RemoteServer.state cl' = RemoteServer.state cl ∧
              n' = RemoteServer.numClients s
     | Raised (cl', n') =>
         RemoteServer.state cl' = RemoteServer.state cl ∧
         n' = RemoteServer.numClients s
     end) ∧
  (∀ c cl removeListener,
     RemoteServer.heap s !! c = Some cl ->
     ∃ s', RemoteServer.disconnectClient c removeListener s = Some s' ∧
       RemoteServer.numClients s'
       = if decide (RemoteServer.state cl = RemoteServer.STREAMING)
         then (RemoteServer.numClients s - 1) mod RemoteServer.UINT_MAX1
         else RemoteServer.numClients s) ∧
  (∀ gb s1 deadClients,
     foldl (RemoteServer.broadcast_step be gridSize elevationRange gb)
       (Some (s, [])) (RemoteServer.clients s) = Some (s1, deadClients) ->
     RemoteServer.numClients s1 = RemoteServer.numClients s).
Proof.
  intros Hreach.
  destruct (reachable_wf be float32_image gridSize cellSize elevationRange s
              Hreach) as [Hwf Hl].
  split; [exact (wf_count s Hwf)|]. split; [|split; [|split; [|split]]].
  - intros Hlen. rewrite (wf_count s Hwf). apply Z.mod_small.
    pose proof (numStreaming_bounds s). lia.
  - intros l inb cr. unfold RemoteServer.newConnectionCallback.
    destruct (RemoteServer.sendHandshake _ _ _ _ _ _); reflexivity.
  - intros cl.
    pose proof (handleMessage_cases be cl (RemoteServer.numClients s)) as Hc.
    destruct (RemoteServer.handleMessage be cl _) as [[cl' n']|[cl' n']].
    + case_decide as E.
      * destruct Hc as [(_ & E' & ->)|(_ & _ & E' & _)]; [|congruence].
        split; [exact E'|]. unfold streaming_bit.
        rewrite bool_decide_eq_false_2 by congruence. reflexivity.
      * assert (E' : RemoteServer.state cl = RemoteServer.STREAMING)
          by (destruct (RemoteServer.state cl); congruence).
        destruct Hc as [(_ & E2 & ->)|(_ & E2 & _ & ->)].
        -- split; [congruence|]. unfold streaming_bit.
           rewrite bool_decide_eq_true_2 by exact E'.
           rewrite Z.sub_diag, Z.add_0_r, (wf_count s Hwf). apply Zmod_mod.
        -- split; [congruence|reflexivity].
    + tauto.
  - intros c cl b Hcl.
    destruct (disconnectClient_spec s c b cl Hwf Hcl)
      as (s' & Hdis & _ & _ & Hn & _).
    eauto.
  - intros gb s1 dl Hfold.
    destruct (broadcast_first_loop be gridSize elevationRange gb
                (RemoteServer.clients s) s [] (wf_nodup s Hwf))
      as (s1' & Hfold' & _ & Hn & _).
    { intros c. apply (wf_heap s Hwf). }
    rewrite Hfold in Hfold'. injection Hfold' as -> _. exact Hn.
Qed.

Lemma run_reachable evs :
  Forall (λ n, Sample.exec (default (RemoteServer.NewGrids Sample.server_grids)
                              (evs !! n))
                 (Sample.run (take n evs)) = Some (Sample.run (take (S n) evs)))
         (seq 0 (length evs)) ->
  Sample.reachable (Sample.run evs).
Proof.
  intros Hall. rewrite <- (firstn_all evs).
  assert (Hn : (length evs <= length evs)%nat) by lia. revert Hn.
  generalize (length evs) at 1 3 as n.
  induction n as [|n IH]; intros Hn; [apply RemoteServer.reach_init|].
  eapply RemoteServer.reach_step; [apply IH; lia|].
  rewrite Forall_forall in Hall. apply (Hall n). apply elem_of_seq. lia.
Qed.

Ltac sample_run :=
  apply run_reachable; repeat (constructor; [vm_compute; reflexivity|]);
  constructor.

Lemma accepted_reachable : Sample.reachable Sample.accepted.
Proof. sample_run. Qed.

Lemma streaming1_reachable : Sample.reachable Sample.streaming1.
Proof. sample_run. Qed.

Lemma two_streaming_reachable : Sample.reachable Sample.two_streaming.
Proof. sample_run. Qed.

Lemma C7_witness :
  RemoteServer.numClients Sample.streaming1 = 1 ∧
  RemoteServer.numStreaming Sample.streaming1 = 1.
Proof.
  destruct (C7_streaming_counter (H := IEEE.binary32) false IEEE.image32
              Sample.gridSize Sample.cellSize32 Sample.er32 Sample.streaming1
              streaming1_reachable) as (_ & Heq & _).
  split; [vm_compute; reflexivity|].
  rewrite <- Heq; vm_compute; reflexivity.
Defined.

(** ** The handshake and the pose messages *)

(** C3.  For a client of a reachable server in state [START] whose next
    four bytes read as [token]: 0x12345678 leaves swap-on-read off and
    makes the client streaming; 0x78563412 turns swap-on-read on and
    makes the client streaming; any other value deletes the client,
    takes it off the list, drops its listener and leaves the counter as
    it was. *)
Theorem C3_handshake_token {F : Type} `{Numeric F}
    (be : bool) (float32_image : F -> Z) (gridSize : Z * Z)
    (cellSize elevationRange : F * F) (s : RemoteServer.Server)
    (k : RemoteServer.ListenerKey) (c : RemoteServer.loc)
    (cl : RemoteServer.Client) (bs rest : list byte) :
  let token := host_value be bs in
  RemoteServer.reachable be float32_image gridSize cellSize elevationRange s ->
  RemoteServer.listeners s !! k = Some c ->
  RemoteServer.heap s !! c = Some cl ->
  RemoteServer.state cl = RemoteServer.START ->
  inbound (RemoteServer.clientPipe cl) = bs ++ rest ->
  length bs = 4%nat ->
  ∃ s', RemoteServer.dispatchClientEvent be k s = Some s' ∧
    (token = 0x12345678 ->
     ∃ cl', RemoteServer.heap s' !! c = Some cl' ∧
       RemoteServer.state cl' = RemoteServer.STREAMING ∧
       swapOnRead (RemoteServer.clientPipe cl') = false ∧
       c ∈ RemoteServer.clients s' ∧
       RemoteServer.listeners s' !! k = Some c) ∧
    (token = 0x78563412 ->
     ∃ cl', RemoteServer.heap s' !! c = Some cl' ∧
       RemoteServer.state cl' = RemoteServer.STREAMING ∧
       swapOnRead (RemoteServer.clientPipe cl') = true ∧
       c ∈ RemoteServer.clients s' ∧
       RemoteServer.listeners s' !! k = Some c) ∧
    (token ≠ 0x12345678 -> token ≠ 0x78563412 ->
     RemoteServer.heap s' !! c = None ∧
     (c ∉ RemoteServer.clients s') ∧
     RemoteServer.listeners s' !! k = None ∧
     RemoteServer.numClients s' = RemoteServer.numClients s).
Proof.
  intros token Hreach Hk Hcl Hst Hin Hlen.
  destruct (reachable_wf be float32_image gridSize cellSize elevationRange s
              Hreach) as [Hwf Hl].
  assert (Hc : c ∈ RemoteServer.clients s) by (apply (wf_heap s Hwf); eauto).
  pose proof (wf_start s Hwf c cl Hcl Hst) as Hsw.
  pose proof (read_int_bytes be 4 _ bs rest Hin Hlen) as Hread.
  rewrite Hsw in Hread. fold token in Hread.
  unfold RemoteServer.dispatchClientEvent, RemoteServer.clientMessageCallback.
  rewrite Hk. cbn. rewrite Hcl. cbn.
  unfold RemoteServer.handleMessage. rewrite Hst, Hread.
  destruct (decide (token = 0x78563412)) as [E1|E1];
    [|destruct (decide (token ≠ 0x12345678)) as [E2|E2]].
  - cbn. eexists; split; [reflexivity|]. cbn.
    split; [intros E; rewrite E in E1; discriminate|].
    split; [|congruence].
    intros _. eexists. rewrite lookup_insert_eq. repeat split; assumption.
  - set (cl1 := RemoteServer.with_pipe _ cl).
    set (s1 := RemoteServer.mkServer _ _ _ _ _).
    assert (Hwf1 : wf s1).
    { apply (update_client_wf s c cl cl1 _ Hwf Hcl eq_refl).
      - intros _. cbn. exact Hsw.
      - unfold streaming_bit, cl1. cbn.
        rewrite (wf_count s Hwf), Z.sub_add. symmetry. apply Zmod_mod. }
    assert (Hcl1 : RemoteServer.heap s1 !! c = Some cl1)
      by (cbn; apply lookup_insert_eq).
    destruct (disconnectClient_spec s1 c false cl1 Hwf1 Hcl1)
      as (s2 & -> & Hmem & Hheap & Hnum & Hlis & _).
    cbn. eexists; split; [reflexivity|]. cbn.
    split; [congruence|]. split; [congruence|].
    intros _ _. rewrite Hheap, Hnum, Hmem.
    rewrite decide_False by (cbn; rewrite Hst; discriminate).
    rewrite !lookup_delete_eq. repeat split; try reflexivity. tauto.
  - cbn. eexists; split; [reflexivity|]. cbn.
    split; [|split; [congruence|intros E; contradiction]].
    intros _. eexists. rewrite lookup_insert_eq. repeat split; assumption.
Qed.

Lemma C3_witness :
  ∃ cl', RemoteServer.heap Sample.streaming1 !! 5%positive = Some cl' ∧
    RemoteServer.state cl' = RemoteServer.STREAMING ∧
    swapOnRead (RemoteServer.clientPipe cl') = false.
Proof.
  destruct (C3_handshake_token (H := IEEE.binary32) false IEEE.image32
               Sample.gridSize Sample.cellSize32 Sample.er32 Sample.accepted
               1%positive 5%positive Sample.accepted_client
               (host_bytes false 4 0x12345678) Sample.pose_update)
    as (s' & Hs' & Hok & _).
  - exact accepted_reachable.
  - vm_compute; reflexivity.
  - vm_compute; reflexivity.
  - vm_compute; reflexivity.
  - vm_compute; reflexivity.
  - vm_compute; reflexivity.
  - assert (E : RemoteServer.dispatchClientEvent false 1%positive
                  Sample.accepted = Some Sample.streaming1)
      by (vm_compute; reflexivity).
    rewrite E in Hs'. injection Hs' as <-.
    destruct (Hok ltac:(vm_compute; reflexivity)) as (cl' & H1 & H2 & H3 & _).
    exists cl'. auto.
Defined.

Lemma read_int_wire be p n v rest :
  0 <= v < 256 ^ Z.of_nat n ->
  inbound p = host_bytes (xorb be (swapOnRead p)) n v ++ rest ->
  read_int be n p = Some (v, consumed n p) ∧ inbound (consumed n p) = rest.
Proof.
  intros Hv Hin.
  rewrite (read_int_bytes be n p _ rest Hin (length_host_bytes _ _ _)).
  rewrite host_value_swapped, Z.mod_small by exact Hv.
  split; [reflexivity|]. cbn. rewrite Hin.
  apply drop_app_length'. now rewrite length_host_bytes.
Qed.

(** C5.  For a streaming client of a reachable server: a message with
    tag 0 followed by three 32-bit position components and three 32-bit
    direction components stores exactly these as the client's position
    and direction and changes nothing else; a message with any other tag
    deletes that client, takes it off the list and drops its listener,
    and leaves every other client and listener as it was. *)
Theorem C5_streaming_messages {F : Type} `{Numeric F}
    (be : bool) (float32_image : F -> Z) (gridSize : Z * Z)
    (cellSize elevationRange : F * F) (s : RemoteServer.Server)
    (k : RemoteServer.ListenerKey) (c : RemoteServer.loc)
    (cl : RemoteServer.Client) (tag : Z) (pos dir : list Z)
    (rest : list byte) :
  let sender := xorb be (swapOnRead (RemoteServer.clientPipe cl)) in
  RemoteServer.reachable be float32_image gridSize cellSize elevationRange s ->
  RemoteServer.listeners s !! k = Some c ->
  RemoteServer.heap s !! c = Some cl ->
  RemoteServer.state cl = RemoteServer.STREAMING ->
  (length pos = 3%nat -> length dir = 3%nat ->
   Forall (λ v, 0 <= v < 2 ^ 32) (pos ++ dir) ->
   inbound (RemoteServer.clientPipe cl)
   = host_bytes sender 2 0 ++ flat_map (host_bytes sender 4) (pos ++ dir) ++ rest ->
   ∃ s' cl', RemoteServer.dispatchClientEvent be k s = Some s' ∧
     RemoteServer.heap s' !! c = Some cl' ∧
     RemoteServer.position cl' = Some pos ∧
     RemoteServer.direction cl' = Some dir ∧
     RemoteServer.state cl' = RemoteServer.STREAMING ∧
     inbound (RemoteServer.clientPipe cl') = rest ∧
     RemoteServer.clients s' = RemoteServer.clients s ∧
     RemoteServer.listeners s' = RemoteServer.listeners s ∧
     RemoteServer.numClients s' = RemoteServer.numClients s ∧
     ∀ x, x ≠ c -> RemoteServer.heap s' !! x = RemoteServer.heap s !! x) ∧
  (u16 tag -> tag ≠ 0 ->
   inbound (RemoteServer.clientPipe cl) = host_bytes sender 2 tag ++ rest ->
   ∃ s', RemoteServer.dispatchClientEvent be k s = Some s' ∧
     RemoteServer.heap s' !! c = None ∧
     (c ∉ RemoteServer.clients s') ∧
     RemoteServer.listeners s' !! k = None ∧
     (∀ x, x ≠ c ->
        RemoteServer.heap s' !! x = RemoteServer.heap s !! x ∧
        (x ∈ RemoteServer.clients s' ↔ x ∈ RemoteServer.clients s)) ∧
     (∀ k', k' ≠ k ->
        RemoteServer.listeners s' !! k' = RemoteServer.listeners s !! k')).
Proof.
  intros sender Hreach Hk Hcl Hst.
  destruct (reachable_wf be float32_image gridSize cellSize elevationRange s
              Hreach) as [Hwf Hl].
  split.
  - intros Hlp Hld Hvs Hin.
    apply Forall_app in Hvs as [Hpos Hdir].
    rewrite flat_map_app, <- app_assoc in Hin.
    destruct (read_int_wire be _ 2 0 _ ltac:(cbn; lia) Hin) as [Hr0 Hin0].
    set (p0 := consumed 2 (RemoteServer.clientPipe cl)) in *.
    pose proof (read_ints_wire be p0 pos _ Hpos Hin0) as Hr1.
    rewrite Hlp in Hr1. change (4 * 3)%nat with 12%nat in Hr1.
    set (p1 := consumed 12 p0) in *.
    assert (Hin1 : inbound p1
              = flat_map (host_bytes sender 4) dir ++ rest).
    { unfold p1, consumed. cbn [inbound]. rewrite Hin0.
      apply drop_app_length'.
      clear -Hlp. destruct pos as [|? [|? [|? [|]]]]; try discriminate.
      cbn. rewrite !length_app, !length_host_bytes. reflexivity. }
    pose proof (read_ints_wire be p1 dir rest Hdir Hin1) as Hr2.
    rewrite Hld in Hr2. change (4 * 3)%nat with 12%nat in Hr2.
    unfold RemoteServer.dispatchClientEvent, RemoteServer.clientMessageCallback.
    rewrite Hk. cbn. rewrite Hcl. cbn.
    unfold RemoteServer.handleMessage. rewrite Hst, Hr0.
    rewrite decide_True by reflexivity. rewrite Hr1, Hr2. cbn.
    eexists _, _. split; [reflexivity|]. cbn. rewrite lookup_insert_eq.
    repeat split; try reflexivity.
    + unfold consumed at 1. cbn [RemoteServer.clientPipe inbound].
      rewrite Hin1. apply drop_app_length'.
      clear -Hld. destruct dir as [|? [|? [|? [|]]]]; try discriminate.
      cbn. rewrite !length_app, !length_host_bytes. reflexivity.
    + intros x Hx. now rewrite lookup_insert_ne by congruence.
  - intros Htag Hne Hin.
    destruct (read_int_wire be _ 2 tag _ ltac:(unfold u16 in Htag; cbn; lia) Hin)
      as [Hr0 _].
    unfold RemoteServer.dispatchClientEvent, RemoteServer.clientMessageCallback.
    rewrite Hk. cbn. rewrite Hcl. cbn.
    unfold RemoteServer.handleMessage. rewrite Hst, Hr0.
    rewrite decide_False by exact Hne.
    set (cl1 := RemoteServer.with_pipe _ cl).
    set (s1 := RemoteServer.mkServer _ _ _ _ _).
    assert (Hwf1 : wf s1).
    { apply (update_client_wf s c cl cl1 _ Hwf Hcl eq_refl).
      - cbn. congruence.
      - unfold streaming_bit, cl1. cbn.
        rewrite (wf_count s Hwf), Z.sub_add. symmetry. apply Zmod_mod. }
    assert (Hcl1 : RemoteServer.heap s1 !! c = Some cl1)
      by (cbn; apply lookup_insert_eq).
    destruct (disconnectClient_spec s1 c false cl1 Hwf1 Hcl1)
      as (s2 & -> & Hmem & Hheap & _ & Hlis & _).
    cbn. eexists; split; [reflexivity|]. cbn.
    rewrite Hheap, Hlis. cbn. rewrite !lookup_delete_eq.
    split; [reflexivity|]. split; [rewrite Hmem; tauto|].
    split; [reflexivity|]. split.
    + intros x Hx. rewrite lookup_delete_ne by congruence.
      rewrite lookup_insert_ne by congruence. split; [reflexivity|].
      rewrite Hmem. cbn. tauto.
    + intros k' Hk'. now rewrite lookup_delete_ne by congruence.
Qed.

Lemma C5_witness :
  ∃ s' cl',
    RemoteServer.dispatchClientEvent false 1%positive Sample.streaming1 = Some s' ∧
    RemoteServer.heap s' !! 5%positive = Some cl' ∧
    RemoteServer.position cl' = Some [1; 2; 3] ∧
    RemoteServer.direction cl' = Some [4; 5; 6].
Proof.
  destruct (C5_streaming_messages (H := IEEE.binary32) false IEEE.image32
              Sample.gridSize Sample.cellSize32 Sample.er32 Sample.streaming1
              1%positive 5%positive Sample.streaming_client 0
              [1; 2; 3] [4; 5; 6] []) as [Hpose _].
  - exact streaming1_reachable.
  - vm_compute; reflexivity.
  - vm_compute; reflexivity.
  - vm_compute; reflexivity.
  - destruct Hpose as (s' & cl' & H1 & H2 & H3 & H4 & _).
    + reflexivity.
    + reflexivity.
    + repeat constructor; lia.
    + vm_compute; reflexivity.
    + exists s', cl'. auto.
Defined.

(** ** Broadcast isolation *)

Section Isolation.
Context {F : Type} `{Numeric F}.
Variable be : bool.
Variable gridSize : Z * Z.
Variable er : F * F.
Variable gb : RemoteServer.GridBuffers F.
Hypothesis width_pos : 1 <= gridSize.1.
Hypothesis height_pos : 1 <= gridSize.2.
Hypothesis alloc : RemoteServer.allocated gridSize gb.

(** The write to a client throws exactly when its connection does not
    take the whole message, and otherwise delivers the message. *)
Lemma write_fails_room cl :
  write_fails be gridSize er gb cl = false ↔
  room (RemoteServer.clientPipe cl)
       (length (wire16 be (snapshot_codes er gb))).
Proof using width_pos height_pos alloc.
  unfold write_fails. rewrite length_wire16. split.
  - intros Hc. destruct (room_dec (RemoteServer.clientPipe cl)
                           (2 * length (snapshot_codes er gb))) as [Hr|Hr];
      [exact Hr|].
    rewrite (sendGrids_no_room be gridSize er width_pos height_pos gb _ alloc Hr)
      in Hc. discriminate.
  - intros Hr.
    now rewrite (sendGrids_room be gridSize er width_pos height_pos gb _ alloc Hr).
Qed.

Lemma served_delivered cl :
  RemoteServer.state cl = RemoteServer.STREAMING ->
  write_fails be gridSize er gb cl = false ->
  served be gridSize er gb cl
  = RemoteServer.with_pipe
      (sent (wire16 be (snapshot_codes er gb)) (RemoteServer.clientPipe cl)) cl.
Proof using width_pos height_pos alloc.
  intros Hst Hw. apply write_fails_room in Hw.
  rewrite length_wire16 in Hw. unfold served.
  rewrite decide_True by exact Hst.
  now rewrite (sendGrids_room be gridSize er width_pos height_pos gb _ alloc Hw).
Qed.

End Isolation.

(** C6.  One broadcast on a reachable server: every streaming client
    whose write does not throw ends with the complete snapshot message
    appended to what it had received, still listed, streaming and
    listened to, whatever happens to the others; the streaming clients
    whose write throws are deleted, off the list and without listener;
    nobody else leaves the list, and clients not yet streaming are
    untouched. *)
Theorem C6_broadcast_isolation {F : Type} `{Numeric F}
    (be : bool) (float32_image : F -> Z) (gridSize : Z * Z)
    (cellSize elevationRange : F * F) (gb : RemoteServer.GridBuffers F)
    (s : RemoteServer.Server) :
  let message := wire16 be (snapshot_codes elevationRange gb) in
  let fails := write_fails be gridSize elevationRange gb in
  RemoteServer.reachable be float32_image gridSize cellSize elevationRange s ->
  1 <= gridSize.1 -> 1 <= gridSize.2 ->
  RemoteServer.allocated gridSize gb ->
  ∃ s', RemoteServer.broadcast be gridSize elevationRange gb s = Some s' ∧
    (∀ c cl, RemoteServer.heap s !! c = Some cl ->
       RemoteServer.state cl = RemoteServer.STREAMING -> fails cl = false ->
       room (RemoteServer.clientPipe cl) (length message) ∧
       c ∈ RemoteServer.clients s' ∧
       RemoteServer.heap s' !! c
       = Some (RemoteServer.mkClient
                 (sent message (RemoteServer.clientPipe cl))
                 (RemoteServer.listenerKey cl) RemoteServer.STREAMING
                 (RemoteServer.position cl) (RemoteServer.direction cl)) ∧
       (∀ k, RemoteServer.listeners s !! k = Some c ->
             RemoteServer.listeners s' !! k = Some c)) ∧
    (∀ c cl, RemoteServer.heap s !! c = Some cl ->
       RemoteServer.state cl = RemoteServer.STREAMING -> fails cl = true ->
       ¬ room (RemoteServer.clientPipe cl) (length message) ∧
       (c ∉ RemoteServer.clients s') ∧
       RemoteServer.heap s' !! c = None ∧
       (∀ k, RemoteServer.listeners s' !! k ≠ Some c)) ∧
    (∀ c cl, RemoteServer.heap s !! c = Some cl ->
       RemoteServer.state cl = RemoteServer.START ->
       c ∈ RemoteServer.clients s' ∧ RemoteServer.heap s' !! c = Some cl) ∧
    (∀ c, c ∈ RemoteServer.clients s' -> c ∈ RemoteServer.clients s).
Proof.
  intros message fails Hreach HW HH Halloc.
  destruct (reachable_wf be float32_image gridSize cellSize elevationRange s
              Hreach) as [Hwf Hl].
  destruct (broadcast_spec be gridSize elevationRange gb s Hwf Hl)
    as (s' & Hb & _ & _ & Hmem & Hheap & Hlis).
  exists s'. split; [exact Hb|].
  assert (Hdead : ∀ c cl, RemoteServer.heap s !! c = Some cl ->
            dead be gridSize elevationRange gb s c
            = bool_decide (RemoteServer.state cl = RemoteServer.STREAMING)
              && fails cl)
    by (intros c cl Hcl; unfold dead; now rewrite Hcl).
  split; [|split; [|split]].
  - intros c cl Hcl Hst Hf.
    assert (Hd : dead be gridSize elevationRange gb s c = false)
      by (rewrite (Hdead c cl Hcl), Hf; apply andb_false_r).
    split; [apply (write_fails_room be gridSize elevationRange gb HW HH Halloc);
            exact Hf|].
    split; [apply Hmem; split; [apply (wf_heap s Hwf); eauto|exact Hd]|].
    split.
    + rewrite Hheap, Hd, Hcl. cbn.
      rewrite (served_delivered be gridSize elevationRange gb HW HH Halloc cl Hst Hf).
      unfold RemoteServer.with_pipe. now rewrite Hst.
    + intros k Hk. apply Hlis. auto.
  - intros c cl Hcl Hst Hf.
    assert (Hd : dead be gridSize elevationRange gb s c = true)
      by (rewrite (Hdead c cl Hcl), Hf, bool_decide_eq_true_2 by exact Hst;
          reflexivity).
    split.
    { intros Hr.
      apply (write_fails_room be gridSize elevationRange gb HW HH Halloc) in Hr.
      unfold fails in Hf. congruence. }
    split; [rewrite Hmem; intros [_ E]; congruence|].
    split; [now rewrite Hheap, Hd|].
    intros k Hk. apply Hlis in Hk as [_ E]. congruence.
  - intros c cl Hcl Hst.
    assert (Hd : dead be gridSize elevationRange gb s c = false).
    { rewrite (Hdead c cl Hcl), bool_decide_eq_false_2; [reflexivity|].
      rewrite Hst. discriminate. }
    split; [apply Hmem; split; [apply (wf_heap s Hwf); eauto|exact Hd]|].
    rewrite Hheap, Hd, Hcl. cbn. f_equal.
    apply (served_fields be gridSize elevationRange gb cl). exact Hst.
  - intros c Hc. apply Hmem in Hc. tauto.
Qed.

Lemma C6_witness :
  RemoteServer.broadcast (H := IEEE.binary32) false Sample.gridSize
    Sample.er32 Sample.server_grids Sample.two_streaming
  = Some Sample.after_broadcast ∧
  RemoteServer.clients Sample.after_broadcast = [6%positive] ∧
  RemoteServer.heap Sample.after_broadcast !! 5%positive = None ∧
  (outbound ∘ RemoteServer.clientPipe)
    <$> RemoteServer.heap Sample.after_broadcast !! 6%positive
  = (λ cl, outbound (RemoteServer.clientPipe cl) ++ Sample.message)
    <$> RemoteServer.heap Sample.two_streaming !! 6%positive.
Proof.
  destruct (C6_broadcast_isolation (H := IEEE.binary32) false IEEE.image32
              Sample.gridSize Sample.cellSize32 Sample.er32 Sample.server_grids
              Sample.two_streaming two_streaming_reachable)
    as (s' & Hb & _).
  - simpl; lia.
  - simpl; lia.
  - split; reflexivity.
  - clear Hb. split; [vm_compute; reflexivity|].
    split; [vm_compute; reflexivity|].
    split; vm_compute; reflexivity.
Defined.

(** ** The intersection with a flat bathymetry, in exact arithmetic *)

Section Flat.
Variable sq : Q -> Q.
Variable gridSize : Z * Z.
Variable cellSize : Exact.real * Exact.real.
Variable grid : list Exact.real.
Variable h : Q.
Hypothesis width : 3 <= gridSize.1.
Hypothesis height : 3 <= gridSize.2.
Hypothesis size : Z.of_nat (length grid) = (gridSize.1 - 1) * (gridSize.2 - 1).
Hypothesis flat : Forall (λ v, Exact.eqv v (Some h)) grid.

Lemma flat_cell base k :
  0 <= base + k < (gridSize.1 - 1) * (gridSize.2 - 1) ->
  ∃ q, SandboxClient.cell_at grid base k = Some (Some q) ∧ (q == h)%Q.
Proof using size flat.
  intros Hr. unfold SandboxClient.cell_at.
  destruct (base + k <? 0) eqn:E; [apply Z.ltb_lt in E; lia|].
  destruct (lookup_lt_is_Some_2 grid (Z.to_nat (base + k)) ltac:(lia))
    as [v Hv].
  rewrite Forall_forall in flat.
  pose proof (flat v (list_elem_of_lookup_2 _ _ _ Hv)) as Hq.
  destruct v as [q|]; [|contradiction]. exists q. auto.
Qed.

Lemma flat_coefficients (gx gy z0 dx dy dz : Q) (i j : Z) :
  0 <= i <= gridSize.1 - 3 -> 0 <= j <= gridSize.2 - 3 ->
  ∃ a b c,
    SandboxClient.coefficients (NS := Exact.ops sq) id gridSize grid
      (Some gx, Some gy, Some z0) (Some dx, Some dy, Some dz) (i, j)
    = Some (Some a, Some b, Some c) ∧
    (a == 0)%Q ∧ (b == - dz)%Q ∧ (c == h - z0)%Q.
Proof using width height size flat.
  intros Hi Hj. unfold SandboxClient.coefficients. cbn [fst snd].
  set (base := j * (gridSize.1 - 1) + i).
  destruct (flat_cell base 0 ltac:(subst base; nia)) as (q0 & -> & H0).
  destruct (flat_cell base 1 ltac:(subst base; nia)) as (q1 & -> & H1).
  destruct (flat_cell base (gridSize.1 - 1) ltac:(subst base; nia))
    as (q2 & -> & H2).
  destruct (flat_cell base gridSize.1 ltac:(subst base; nia))
    as (q3 & -> & H3).
  cbn. eexists _, _, _. split; [reflexivity|].
  rewrite H0, H1, H2, H3, !inject_Z_plus. change (inject_Z 1) with 1%Q.
  repeat split; ring.
Qed.

End Flat.

Lemma Qltb_false x y : (y <= x)%Q -> Exact.Qltb x y = false.
Proof.
  intros Hle. unfold Exact.Qltb. apply negb_false_iff. now apply Qle_bool_iff.
Qed.

Lemma Qltb_true x y : (x < y)%Q -> Exact.Qltb x y = true.
Proof.
  intros Hlt. unfold Exact.Qltb. apply negb_true_iff.
  destruct (Qle_bool y x) eqn:E; [|reflexivity].
  apply Qle_bool_iff in E. lra.
Qed.

Lemma Qeq_bool_false x y : ¬ (x == y)%Q -> Qeq_bool x y = false.
Proof.
  intros Hne. destruct (Qeq_bool x y) eqn:E; [|reflexivity].
  apply Qeq_bool_iff in E. contradiction.
Qed.

Lemma Qle_bool_true x y : (x <= y)%Q -> Qle_bool x y = true.
Proof. apply Qle_bool_iff. Qed.

Lemma Math_clamp_range v lo hi : lo <= hi -> lo <= SandboxClient.Math_clamp v lo hi <= hi.
Proof.
  intros Hle. unfold SandboxClient.Math_clamp.
  destruct (v <? lo) eqn:E1; [lia|]. apply Z.ltb_ge in E1.
  destruct (v >? hi) eqn:E2; [lia|]. rewrite Z.gtb_ltb in E2.
  apply Z.ltb_ge in E2. lia.
Qed.

Section ExactOps.
Variable sq : Q -> Q.
Local Open Scope num_scope.
Local Existing Instance Exact.ops.

Lemma ex_of_int n : @of_int _ (Exact.ops sq) n = Some (inject_Z n).
Proof. reflexivity. Qed.
Lemma ex_half : @half _ (Exact.ops sq) = Some (1 # 2)%Q.
Proof. reflexivity. Qed.
Lemma ex_add a b : @nadd _ (Exact.ops sq) (Some a) (Some b) = Some (a + b)%Q.
Proof. reflexivity. Qed.
Lemma ex_sub a b : @nsub _ (Exact.ops sq) (Some a) (Some b) = Some (a - b)%Q.
Proof. reflexivity. Qed.
Lemma ex_mul a b : @nmul _ (Exact.ops sq) (Some a) (Some b) = Some (a * b)%Q.
Proof. reflexivity. Qed.
Lemma ex_neg a : @nneg _ (Exact.ops sq) (Some a) = Some (- a)%Q.
Proof. reflexivity. Qed.
Lemma ex_div a b :
  ¬ (b == 0)%Q -> @ndiv _ (Exact.ops sq) (Some a) (Some b) = Some (a / b)%Q.
Proof. intros Hb. cbn. now rewrite (Qeq_bool_false _ _ Hb). Qed.
Lemma ex_ltb a b : @nltb _ (Exact.ops sq) (Some a) (Some b) = Exact.Qltb a b.
Proof. reflexivity. Qed.
Lemma ex_leb a b : @nleb _ (Exact.ops sq) (Some a) (Some b) = Qle_bool a b.
Proof. reflexivity. Qed.
Lemma ex_eqb a b : @neqb _ (Exact.ops sq) (Some a) (Some b) = Qeq_bool a b.
Proof. reflexivity. Qed.
Lemma ex_floor a : @floor_int _ (Exact.ops sq) (Some a) = Qfloor a.
Proof. reflexivity. Qed.

End ExactOps.

Ltac exact_ops :=
  repeat rewrite ?ex_of_int, ?ex_half, ?ex_add, ?ex_sub, ?ex_mul, ?ex_neg,
    ?ex_ltb, ?ex_leb, ?ex_eqb, ?ex_floor.

(** C8.  In exact arithmetic: on a bathymetry whose samples all equal
    h, for a vertical segment from elevation h+1 to elevation h-1 whose
    grid coordinates lie in the valid range, [intersectLine] returns one
    half (whatever fuel the walk is given beyond its first cell). *)
Theorem C8_flat_vertical_segment (sq : Q -> Q) (gridSize : Z * Z)
    (cs0 cs1 : Q) (grid : list Exact.real) (h x0 y0 : Q) (fuel : nat) :
  let gx := (x0 / cs0 - (1 # 2))%Q in
  let gy := (y0 / cs1 - (1 # 2))%Q in
  3 <= gridSize.1 -> 3 <= gridSize.2 ->
  Z.of_nat (length grid) = (gridSize.1 - 1) * (gridSize.2 - 1) ->
  Forall (λ v, Exact.eqv v (Some h)) grid ->
  ¬ (cs0 == 0)%Q -> ¬ (cs1 == 0)%Q ->
  (0 <= gx)%Q -> (gx <= inject_Z (gridSize.1 - 2))%Q ->
  (0 <= gy)%Q -> (gy <= inject_Z (gridSize.2 - 2))%Q ->
  ∃ il,
    SandboxClient.intersectLine (NS := Exact.ops sq) id gridSize
      (Some cs0, Some cs1) grid (S fuel)
      (Some x0, Some y0, Some (h + 1)%Q) (Some x0, Some y0, Some (h - 1)%Q)
    = SandboxClient.Lambda (Some il) ∧
    (il == 1 # 2)%Q.
Proof.
  intros gx gy HW HH Hsize Hflat Hc0 Hc1 Hx0 Hx1 Hy0 Hy1.
  unfold SandboxClient.intersectLine, SandboxClient.intersectLine_trace.
  unfold SandboxClient.to_grid, SandboxClient.difference, id.
  cbn [SandboxClient.coord fst snd].
  rewrite !(ex_div sq _ _ Hc0), !(ex_div sq _ _ Hc1).
  exact_ops. fold gx gy.
  match goal with |- context [SandboxClient.clip _ ?p ?q ?d] =>
    set (gp0 := p); set (gp1 := q); set (gd := d)
  end.
  assert (Hclip : SandboxClient.clip (NS := Exact.ops sq) gridSize gp0 gp1 gd
                  = Some (Some (inject_Z 0), Some (inject_Z 1))).
  { unfold SandboxClient.clip, SandboxClient.clip_axis,
      SandboxClient.clip_lower, SandboxClient.clip_upper, SandboxClient.dim.
    cbn [SandboxClient.coord fst snd gp0 gp1 gd].
    exact_ops.
    rewrite !(Qltb_false gx (inject_Z 0) Hx0).
    rewrite !(Qltb_false _ gx Hx1). cbn [mbind option_bind].
    rewrite !(Qltb_false gy (inject_Z 0) Hy0).
    rewrite !(Qltb_false _ gy Hy1). reflexivity. }
  rewrite Hclip. exact_ops.
  change (Qle_bool (inject_Z 1) (inject_Z 0)) with false. cbv iota.
  set (cp := (SandboxClient.Math_clamp _ _ _, SandboxClient.Math_clamp _ _ _)).
  assert (Hcp1 : 0 <= cp.1 <= gridSize.1 - 3)
    by (apply Math_clamp_range; cbn; lia).
  assert (Hcp2 : 0 <= cp.2 <= gridSize.2 - 3)
    by (apply Math_clamp_range; cbn; lia).
  destruct cp as [i j]. cbn [fst snd] in Hcp1, Hcp2.
  cbn [SandboxClient.walk]. exact_ops.
  change (Exact.Qltb (inject_Z 0) (inject_Z 1)) with true. cbv iota.
  assert (Hexit : SandboxClient.cell_exit (NS := Exact.ops sq) gp0 gp1 gd (i, j)
                    (Some (inject_Z 1))
                  = (Some (inject_Z 1), None)).
  { unfold SandboxClient.cell_exit, SandboxClient.exit_axis.
    cbn [SandboxClient.coord fst snd gp0 gp1 gd]. exact_ops.
    rewrite !(Qltb_false gx gx (Qle_refl _)). exact_ops.
    change (Exact.Qltb (inject_Z 1) (inject_Z 1)) with false. cbv iota.
    cbn [fst snd]. exact_ops.
    rewrite !(Qltb_false gy gy (Qle_refl _)). exact_ops.
    change (Exact.Qltb (inject_Z 1) (inject_Z 1)) with false. reflexivity. }
  rewrite Hexit.
  destruct (flat_coefficients sq gridSize grid h HW HH Hsize Hflat
              gx gy (h + 1)%Q (gx - gx)%Q (gy - gy)%Q (h - 1 - (h + 1))%Q
              i j Hcp1 Hcp2) as (a & b & c & Hco & Ha & Hb & Hc).
  change (λ x : Exact.real, x) with (@id Exact.real).
  match goal with |- context [SandboxClient.coefficients ?w ?g ?l ?p ?d ?ij] =>
    assert (E : SandboxClient.coefficients (NS := Exact.ops sq) w g l p d ij
                = Some (Some a, Some b, Some c)) by exact Hco;
    rewrite E; clear E
  end.
  unfold SandboxClient.solve. exact_ops.
  rewrite (proj2 (Qeq_bool_iff a (inject_Z 0)) Ha). cbn [negb].
  assert (Hb0 : ¬ (b == 0)%Q) by (intros E; rewrite Hb in E; lra).
  rewrite (ex_div sq _ _ Hb0).
  assert (Hil : (- c / b == 1 # 2)%Q).
  { rewrite Hb, Hc.
    assert (E1 : (- (h - (h + 1)) == 1)%Q) by ring.
    assert (E2 : (- (h - 1 - (h + 1)) == 2)%Q) by ring.
    rewrite E1, E2. reflexivity. }
  unfold SandboxClient.valid. exact_ops.
  rewrite (Qle_bool_true (inject_Z 0) (- c / b)) by (rewrite Hil; discriminate).
  rewrite (Qltb_true (- c / b) (inject_Z 1)) by (rewrite Hil; reflexivity).
  cbn. eauto.
Qed.

Lemma C8_witness :
  ∃ il,
    SandboxClient.intersectLine (NS := Exact.ops Exact.sqrt32) id (4, 4)
      (Some 1%Q, Some 1%Q) (replicate 9 (Some (1 # 10)%Q)) 1
      (Some 2%Q, Some 2%Q, Some ((1 # 10) + 1)%Q)
      (Some 2%Q, Some 2%Q, Some ((1 # 10) - 1)%Q)
    = SandboxClient.Lambda (Some il) ∧
    (il == 1 # 2)%Q.
Proof.
  apply (C8_flat_vertical_segment Exact.sqrt32 (4, 4) 1 1
           (replicate 9 (Some (1 # 10)%Q)) (1 # 10) 2 2 0).
  - simpl; lia.
  - simpl; lia.
  - reflexivity.
  - repeat constructor.
  - discriminate.
  - discriminate.
  - discriminate.
  - discriminate.
  - discriminate.
  - discriminate.
Defined.

(** The same segment through binary64 arithmetic on a binary32 grid. *)
Example flat_vertical_binary64 :
  Sample.intersect Sample.above Sample.below
  = ([(IEEE.f64 0 0, IEEE.f64 2 0, IEEE.f64 (-1) 0)],
     SandboxClient.Lambda (IEEE.f64 1 (-1))).
Proof. vm_compute. reflexivity. Qed.

(** ** Division by a zero linear coefficient *)

(** C10, as stated, fails.  A flat cell and a horizontal segment: the
    cell is solved with a = 0 and b = 0, and the call returns 1. *)
Lemma C10_counterexample :
  Sample.intersect Sample.above Sample.beside
  = ([(IEEE.f64 0 0, IEEE.f64 0 0, IEEE.f64 (-1) 0)],
     SandboxClient.Lambda (IEEE.f64 1 0)) ∧
  ¬ linear_division_safe (H := IEEE.binary64)
      (Sample.intersect Sample.above Sample.beside).1.
Proof.
  assert (E : Sample.intersect Sample.above Sample.beside
              = ([(IEEE.f64 0 0, IEEE.f64 0 0, IEEE.f64 (-1) 0)],
                 SandboxClient.Lambda (IEEE.f64 1 0)))
    by (vm_compute; reflexivity).
  split; [exact E|]. rewrite E. intros Hsafe.
  apply Forall_cons in Hsafe as [Hsafe _].
  specialize (Hsafe eq_refl). discriminate Hsafe.
Qed.

(** C10, amended.  In binary64, when both a and b are zero the linear
    branch divides by zero; the quotient is an infinity or NaN and fails
    the test [il>=cl0&&il<cl1] for every cl1 and every cl0 other than
    minus infinity, so the cell yields no intersection. *)
Theorem C10_zero_linear_coefficient (sa sb : bool) (c cl0 cl1 : spec_float) :
  cl0 ≠ S754_infinity true ->
  let il := SandboxClient.solve (NS := IEEE.binary64) cl0 cl1
              (S754_zero sa, S754_zero sb, c) in
  il = SFdiv 53 1024 (SFopp c) (S754_zero sb) ∧
  (il = S754_nan ∨ ∃ s, il = S754_infinity s) ∧
  SandboxClient.valid (NS := IEEE.binary64) cl0 cl1 il = false.
Proof.
  intros Hcl0 il.
  assert (E : il = SFdiv 53 1024 (SFopp c) (S754_zero sb))
    by (subst il; destruct sa; reflexivity).
  split; [exact E|]. rewrite E. clear E il.
  unfold SandboxClient.valid. cbn [nleb nltb IEEE.binary64 IEEE.ops].
  destruct c as [sc|sc| |sc m e]; cbn [SFopp SFdiv].
  - split; [left; reflexivity|]. destruct cl0; reflexivity.
  - split; [right; eauto|].
    destruct sc, sb, cl0 as [?|[]| |[] ? ?], cl1 as [?|[]| |[] ? ?];
      try reflexivity; congruence.
  - split; [left; reflexivity|]. destruct cl0; reflexivity.
  - split; [right; eauto|].
    destruct sc, sb, cl0 as [?|[]| |[] ? ?], cl1 as [?|[]| |[] ? ?];
      try reflexivity; congruence.
Qed.

Lemma C10_witness :
  SandboxClient.valid (NS := IEEE.binary64) (IEEE.f64 0 0) (IEEE.f64 1 0)
    (SandboxClient.solve (NS := IEEE.binary64) (IEEE.f64 0 0) (IEEE.f64 1 0)
       (S754_zero false, S754_zero false, IEEE.f64 (-1) 0))
  = false.
Proof.
  apply (C10_zero_linear_coefficient false false (IEEE.f64 (-1) 0)
           (IEEE.f64 0 0) (IEEE.f64 1 0)).
  discriminate.
Defined.

(** ** A snapshot message cut short *)

(** C9 (the code departs from the claim).  The client's callback on a
    connection that ends three bytes into a snapshot message: [readGrids] throws after one sample, nothing is
    published, two bytes are gone from the pipe, and the callback
    returns false with the pipe open and its listener registered, so the
    next event reads from the same pipe again. *)
Theorem C9_truncated_snapshot :
  let readGrids := SandboxClient.readGrids (H := IEEE.binary32) false
                     Sample.gridSize Sample.er32 in
  let callback := SandboxClient.serverMessageCallback (H := IEEE.binary32)
                    false Sample.gridSize Sample.er32 in
  let dispatch := SandboxClient.dispatchNextEvent (H := IEEE.binary32)
                    false Sample.gridSize Sample.er32 in
  completed (readGrids Sample.client0) = false ∧
  (callback Sample.client0).1 = false ∧
  TripleBuffer.mostRecent (SandboxClient.grids (dispatch Sample.client0))
  = TripleBuffer.mostRecent (SandboxClient.grids Sample.client0) ∧
  length (inbound (SandboxClient.pipe (dispatch Sample.client0))) = 1%nat ∧
  SandboxClient.connected (dispatch Sample.client0) = true ∧
  SandboxClient.listening (dispatch Sample.client0) = true ∧
  completed (readGrids (dispatch Sample.client0)) = false ∧
  SandboxClient.listening (dispatch (dispatch Sample.client0)) = true.
Proof. vm_compute. repeat split; reflexivity. Qed.

(** Whatever the pipe holds, the callback never asks for its listener to
    be dropped and never closes the pipe. *)
Lemma serverMessageCallback_never_disconnects {F : Type} `{Numeric F}
    (be : bool) (gridSize : Z * Z) (er : F * F) (c : SandboxClient.Client F) :
  let r := SandboxClient.serverMessageCallback be gridSize er c in
  r.1 = false ∧
  SandboxClient.connected r.2 = SandboxClient.connected c ∧
  SandboxClient.listening r.2 = SandboxClient.listening c.
Proof.
  unfold SandboxClient.serverMessageCallback, SandboxClient.readGrids.
  destruct (SandboxClient.receiveGrids _ _ _ _ _) as [[p gb]|[p gb]];
    cbn; auto.
Qed.

(** ** Further properties of the codec and of the handshake *)


Lemma Qle_bool_false_gt (x y : Q) : Qle_bool x y = false -> (y < x)%Q.
Proof.
  intros E. apply Qnot_le_lt. intros Hc. apply Qle_bool_iff in Hc. congruence.
Qed.



(** The endianness token: a host reading the four bytes another host
    wrote for 0x12345678 sees 0x12345678 when the two byte orders agree
    and 0x78563412 when they differ. *)
Theorem token_byte_order (writer reader : bool) :
  host_value reader (host_bytes writer 4 0x12345678)
  = if eqb writer reader then 0x12345678 else 0x78563412.
Proof. destruct writer, reader; vm_compute; reflexivity. Qed.

(** From a reachable state, every read event on a registered client
    listener and every broadcast is defined: no step dereferences a
    deleted client. *)
Theorem server_steps_defined {F : Type} `{Numeric F}
    (be : bool) (float32_image : F -> Z) (gridSize : Z * Z)
    (cellSize elevationRange : F * F) (s : RemoteServer.Server) :
  RemoteServer.reachable be float32_image gridSize cellSize elevationRange s ->
  (∀ k c, RemoteServer.listeners s !! k = Some c ->
     is_Some (RemoteServer.dispatchClientEvent be k s)) ∧
  (∀ gb, is_Some (RemoteServer.broadcast be gridSize elevationRange gb s)) ∧
  NoDup (RemoteServer.clients s) ∧
  (∀ c, c ∈ RemoteServer.clients s ↔ is_Some (RemoteServer.heap s !! c)).
Proof.
  intros Hreach.
  destruct (reachable_wf be float32_image gridSize cellSize elevationRange s
              Hreach) as [Hwf Hl].
  split; [|split; [|split]].
  - intros k c Hk.
    destruct (dispatchClientEvent_wf be k s c Hwf Hl Hk) as (s' & -> & _).
    eauto.
  - intros gb.
    destruct (broadcast_spec be gridSize elevationRange gb s Hwf Hl)
      as (s' & -> & _).
    eauto.
  - apply (wf_nodup s Hwf).
  - apply (wf_heap s Hwf).
Qed.

Lemma server_steps_defined_witness :
  is_Some (RemoteServer.broadcast (H := IEEE.binary32) false Sample.gridSize
             Sample.er32 Sample.server_grids Sample.two_streaming).
Proof.
  apply (server_steps_defined (H := IEEE.binary32) false IEEE.image32
           Sample.gridSize Sample.cellSize32 Sample.er32 Sample.two_streaming
           two_streaming_reachable).
Defined.

(** The round trip of C2 through binary32 arithmetic, at 2.5 in [0,10]:
    code 16384, decoded within one step of 2.5. *)
Example roundtrip_binary32 :
  let er := Sample.er32 in
  let e := IEEE.f32 5 (-1) in
  let d := SandboxClient.dequantize (H := IEEE.binary32) er
             (RemoteServer.quantize (H := IEEE.binary32) er e) in
  RemoteServer.quantize (H := IEEE.binary32) er e = 16384 ∧
  SFleb (SFabs (SFsub 24 128 d e))
        (SFdiv 24 128 (SFsub 24 128 er.2 er.1) (IEEE.f32 65535 0)) = true.
Proof. vm_compute. split; reflexivity. Qed.

(** * The rest of the server *)

(** ** Destruction *)

Lemma destructor_loop (l : list RemoteServer.loc) :
  ∀ h : gmap RemoteServer.loc RemoteServer.Client,
  NoDup l -> (∀ c, c ∈ l -> is_Some (h !! c)) ->
  ∃ h', foldl RemoteServer.destructor_step (Some h) l = Some h' ∧
    ∀ x, h' !! x = if decide (x ∈ l) then None else h !! x.
Proof.
  induction l as [|c l IH]; intros h Hnd Hlive.
  - exists h. split; [reflexivity|]. intros x.
    destruct (decide (x ∈ [])) as [Hx|_]; [inversion Hx|reflexivity].
  - apply NoDup_cons in Hnd as [Hc Hnd].
    destruct (Hlive c ltac:(left)) as [cl Hcl].
    cbn [foldl]. unfold RemoteServer.destructor_step at 2. cbn. rewrite Hcl. cbn.
    destruct (IH (delete c h) Hnd) as (h' & -> & Hh').
    { intros x Hx. rewrite lookup_delete_ne by (intros ->; contradiction).
      apply Hlive. now right. }
    exists h'. split; [reflexivity|]. intros x. rewrite Hh'.
    destruct (decide (x ∈ l)) as [Hx|Hx].
    + rewrite decide_True by (now right). reflexivity.
    + destruct (decide (x = c)) as [->|Hne].
      * rewrite decide_True by (now left). apply lookup_delete_eq.
      * rewrite decide_False by (rewrite elem_of_cons; tauto).
        apply lookup_delete_ne. congruence.
Qed.

(** The destructor of a server in a reachable state deletes every live
    client object, each one once: no object is deleted twice and none
    is left. *)
Theorem destructor_frees_every_client {F : Type} `{Numeric F}
    (be : bool) (float32_image : F -> Z) (gridSize : Z * Z)
    (cellSize elevationRange : F * F) (s : RemoteServer.Server) :
  RemoteServer.reachable be float32_image gridSize cellSize elevationRange s ->
  RemoteServer.destructor s = Some ∅.
Proof.
  intros Hreach.
  destruct (reachable_wf be float32_image gridSize cellSize elevationRange s
              Hreach) as [Hwf _].
  destruct (destructor_loop (RemoteServer.clients s) (RemoteServer.heap s)
              (wf_nodup s Hwf)) as (h' & E & Hh').
  { intros c Hc. now apply (wf_heap s Hwf). }
  unfold RemoteServer.destructor. rewrite E. f_equal.
  apply map_eq. intros x. rewrite Hh', lookup_empty.
  destruct (decide (x ∈ RemoteServer.clients s)) as [_|Hx]; [reflexivity|].
  destruct (RemoteServer.heap s !! x) as [cl|] eqn:Ex; [|reflexivity].
  exfalso. apply Hx, (wf_heap s Hwf). eauto.
Qed.

Lemma destructor_frees_witness :
  RemoteServer.destructor Sample.two_streaming = Some ∅.
Proof.
  apply (destructor_frees_every_client (H := IEEE.binary32) false IEEE.image32
           Sample.gridSize Sample.cellSize32 Sample.er32 Sample.two_streaming
           two_streaming_reachable).
Defined.

(** ** The client icons *)

Lemma collect_loop (s : RemoteServer.Server) (l : list RemoteServer.loc) :
  ∀ acc, (∀ c, c ∈ l -> is_Some (RemoteServer.heap s !! c)) ->
  foldl (RemoteServer.positions_step s) (Some acc) l
  = Some (acc ++ omap (RemoteServer.streaming_pose s) l).
Proof.
  induction l as [|c l IH]; intros acc Hlive.
  - cbn. now rewrite app_nil_r.
  - destruct (Hlive c ltac:(left)) as [cl Hcl].
    cbn [foldl omap list_omap]. unfold RemoteServer.positions_step at 2.
    unfold RemoteServer.streaming_pose at 1. cbn. rewrite Hcl. cbn.
    destruct (decide (RemoteServer.state cl = RemoteServer.STREAMING)).
    + rewrite IH by (intros x Hx; apply Hlive; now right).
      now rewrite <- app_assoc.
    + apply IH. intros x Hx; apply Hlive; now right.
Qed.

Lemma streaming_pose_defined (s : RemoteServer.Server) (c : RemoteServer.loc) :
  is_Some (RemoteServer.streaming_pose s c) ↔ RemoteServer.streaming s c = true.
Proof.
  unfold RemoteServer.streaming_pose, RemoteServer.streaming.
  destruct (RemoteServer.heap s !! c) as [cl|]; cbn.
  - destruct (decide (RemoteServer.state cl = RemoteServer.STREAMING)) as [E|E].
    + rewrite bool_decide_eq_true_2 by exact E. split; eauto.
    + rewrite bool_decide_eq_false_2 by exact E.
      split; [intros [? ?]|]; discriminate.
  - split; [intros [? ?]|]; discriminate.
Qed.

Lemma streaming_pose_count (s : RemoteServer.Server) (l : list RemoteServer.loc) :
  length (omap (RemoteServer.streaming_pose s) l)
  = length (filter (λ c, RemoteServer.streaming s c = true) l).
Proof.
  induction l as [|c l IH]; [reflexivity|].
  cbn [omap list_omap]. rewrite filter_cons.
  pose proof (streaming_pose_defined s c) as Hc.
  destruct (RemoteServer.streaming_pose s c) as [p|].
  - rewrite decide_True by (apply Hc; eauto). cbn [length]. f_equal. exact IH.
  - rewrite decide_False; [exact IH|].
    intros E. apply Hc in E. destruct E; discriminate.
Qed.

(** In every reachable state the position loop of the communication
    thread is defined and collects one entry per streaming client, in
    list order: as many entries as the counter says (modulo 2^32). *)
Theorem collectPositions_per_streaming_client {F : Type} `{Numeric F}
    (be : bool) (float32_image : F -> Z) (gridSize : Z * Z)
    (cellSize elevationRange : F * F) (s : RemoteServer.Server) :
  RemoteServer.reachable be float32_image gridSize cellSize elevationRange s ->
  ∃ positions,
    RemoteServer.collectPositions s = Some positions ∧
    positions = omap (RemoteServer.streaming_pose s) (RemoteServer.clients s) ∧
    Z.of_nat (length positions) = RemoteServer.numStreaming s ∧
    RemoteServer.numClients s
    = Z.of_nat (length positions) mod RemoteServer.UINT_MAX1.
Proof.
  intros Hreach.
  destruct (reachable_wf be float32_image gridSize cellSize elevationRange s
              Hreach) as [Hwf _].
  eexists. split; [|split; [reflexivity|]].
  - unfold RemoteServer.collectPositions. rewrite collect_loop; [reflexivity|].
    intros c Hc. now apply (wf_heap s Hwf).
  - assert (E : Z.of_nat (length (omap (RemoteServer.streaming_pose s)
                                    (RemoteServer.clients s)))
                = RemoteServer.numStreaming s).
    { unfold RemoteServer.numStreaming. now rewrite streaming_pose_count. }
    split; [exact E|]. rewrite E. apply (wf_count s Hwf).
Qed.

Lemma collectPositions_witness :
  ∃ positions,
    RemoteServer.collectPositions Sample.two_streaming = Some positions ∧
    length positions = 2%nat.
Proof.
  destruct (collectPositions_per_streaming_client (H := IEEE.binary32) false
              IEEE.image32 Sample.gridSize Sample.cellSize32 Sample.er32
              Sample.two_streaming two_streaming_reachable)
    as (ps & E & -> & _).
  eexists. split; [exact E|]. vm_compute. reflexivity.
Defined.

(** ** Members the position loop reads before they are assigned *)

Lemma handleMessage_start be cl n cl' n' :
  RemoteServer.state cl = RemoteServer.START ->
  RemoteServer.handleMessage be cl n = Done (cl', n') ->
  RemoteServer.state cl' = RemoteServer.STREAMING ∧
  RemoteServer.position cl' = RemoteServer.position cl ∧
  RemoteServer.direction cl' = RemoteServer.direction cl.
Proof.
  intros Hst. unfold RemoteServer.handleMessage. rewrite Hst.
  destruct (read_int be 4 (RemoteServer.clientPipe cl)) as [[token p]|];
    [|discriminate].
  cbv zeta.
  destruct (decide (token = 0x78563412)); [intros [= <- _]; auto|].
  destruct (decide (token ≠ 0x12345678)); [discriminate|].
  intros [= <- _]; auto.
Qed.

(** The heap after a read event on the listener of client [c]. *)
Lemma dispatchClientEvent_heap be k s s' c :
  wf s -> RemoteServer.listeners s !! k = Some c ->
  RemoteServer.dispatchClientEvent be k s = Some s' ->
  ∃ cl, RemoteServer.heap s !! c = Some cl ∧
    ∀ x, RemoteServer.heap s' !! x
         = if decide (x = c)
           then match RemoteServer.handleMessage be cl (RemoteServer.numClients s) with
                | Done (cl', _) => Some cl'
                | Raised _ => None
                end
           else RemoteServer.heap s !! x.
Proof.
  intros Hwf Hk. unfold RemoteServer.dispatchClientEvent. rewrite Hk. cbn.
  unfold RemoteServer.clientMessageCallback.
  destruct (RemoteServer.heap s !! c) as [cl|] eqn:Hcl; [|discriminate]. cbn.
  assert (Hin : c ∈ RemoteServer.clients s) by (apply (wf_heap s Hwf); eauto).
  destruct (RemoteServer.handleMessage be cl (RemoteServer.numClients s))
    as [[cl' n']|[cl' n']] eqn:Hm; cbn.
  - intros [= <-]. exists cl. split; [reflexivity|]. intros x. rewrite Hm. cbn.
    destruct (decide (x = c)) as [->|Hne].
    + apply lookup_insert_eq.
    + apply lookup_insert_ne. congruence.
  - unfold RemoteServer.disconnectClient. cbn [RemoteServer.clients].
    destruct (find_client _ _ Hin) as (i & -> & _). cbn.
    rewrite lookup_insert_eq. cbn. intros [= <-].
    exists cl. split; [reflexivity|]. intros x. rewrite Hm. cbn.
    destruct (decide (x = c)) as [->|Hne].
    + apply lookup_delete_eq.
    + rewrite lookup_delete_ne, lookup_insert_ne by congruence. reflexivity.
Qed.

Section Unassigned.
Context {F : Type} `{Numeric F}.
Variable be : bool.
Variable float32_image : F -> Z.
Variable gridSize : Z * Z.
Variable cellSize : F * F.
Variable elevationRange : F * F.

Lemma exec_start_unassigned ev s s' :
  wf s -> wf_listeners s -> start_unassigned s ->
  RemoteServer.exec be float32_image gridSize cellSize elevationRange ev s
  = Some s' ->
  start_unassigned s'.
Proof.
  intros Hwf Hl Hun. destruct ev as [l inb cr|k|gb]; cbn.
  - destruct (decide (RemoteServer.heap s !! l = None)); [|discriminate].
    intros [= <-]. unfold RemoteServer.newConnectionCallback.
    destruct (RemoteServer.sendHandshake _ _ _ _ _ _) as [p|p]; [|exact Hun].
    intros c cl. cbn. destruct (decide (c = l)) as [->|Hne].
    + rewrite lookup_insert_eq. intros [= <-]. auto.
    + rewrite lookup_insert_ne by congruence. apply Hun.
  - intros Hd.
    destruct (RemoteServer.listeners s !! k) as [c|] eqn:Hk;
      [|unfold RemoteServer.dispatchClientEvent in Hd; rewrite Hk in Hd;
        discriminate].
    destruct (dispatchClientEvent_heap be k s s' c Hwf Hk Hd) as (cl & Hcl & Hh).
    intros x clx. rewrite Hh. destruct (decide (x = c)) as [->|Hne].
    + pose proof (handleMessage_cases be cl (RemoteServer.numClients s)) as Hc.
      destruct (RemoteServer.handleMessage be cl (RemoteServer.numClients s))
        as [[cl' n']|[cl' n']]; [|discriminate].
      intros [= <-] Hst. destruct Hc as [(_ & Hs & _)|(_ & Hs & _)]; congruence.
    + apply Hun.
  - intros Hb.
    destruct (broadcast_spec be gridSize elevationRange gb s Hwf Hl)
      as (s1 & E & _ & _ & _ & Hh & _).
    rewrite E in Hb. injection Hb as <-.
    intros x clx. rewrite Hh.
    destruct (dead be gridSize elevationRange gb s x); [discriminate|].
    destruct (RemoteServer.heap s !! x) as [cl|] eqn:Hx; [|discriminate].
    cbn. intros [= <-].
    destruct (served_fields be gridSize elevationRange gb cl)
      as (-> & _ & -> & -> & _).
    apply (Hun x cl Hx).
Qed.

Lemma reachable_start_unassigned s :
  RemoteServer.reachable be float32_image gridSize cellSize elevationRange s ->
  start_unassigned s.
Proof.
  induction 1 as [|s ev s' Hs IH Hex].
  - intros c cl. cbn. rewrite lookup_empty. discriminate.
  - destruct (reachable_wf _ _ _ _ _ _ Hs) as [Hwf Hl].
    eapply exec_start_unassigned; eauto.
Qed.

End Unassigned.

(** When the token of a client is accepted, the client becomes
    streaming with [position] and [direction] still unassigned: the
    position loop that follows the event builds that client's entry from
    two members nothing has written. *)
Theorem positions_read_before_first_update {F : Type} `{Numeric F}
    (be : bool) (float32_image : F -> Z) (gridSize : Z * Z)
    (cellSize elevationRange : F * F) (s : RemoteServer.Server)
    (k : RemoteServer.ListenerKey) (c : RemoteServer.loc)
    (cl : RemoteServer.Client) (bs rest : list byte) :
  RemoteServer.reachable be float32_image gridSize cellSize elevationRange s ->
  RemoteServer.listeners s !! k = Some c ->
  RemoteServer.heap s !! c = Some cl ->
  RemoteServer.state cl = RemoteServer.START ->
  inbound (RemoteServer.clientPipe cl) = bs ++ rest ->
  length bs = 4%nat ->
  host_value be bs = 0x12345678 ∨ host_value be bs = 0x78563412 ->
  ∃ s' positions,
    RemoteServer.dispatchClientEvent be k s = Some s' ∧
    RemoteServer.streaming s' c = true ∧
    RemoteServer.streaming_pose s' c = Some (None, None) ∧
    RemoteServer.collectPositions s' = Some positions ∧
    (None, None) ∈ positions.
Proof.
  intros Hreach Hk Hcl Hst Hin Hlen Htok.
  destruct (reachable_wf _ _ _ _ _ _ Hreach) as [Hwf Hl].
  destruct (dispatchClientEvent_wf be k s c Hwf Hl Hk) as (s' & Hd & Hwf' & _).
  destruct (dispatchClientEvent_heap be k s s' c Hwf Hk Hd) as (cl0 & Hcl0 & Hh).
  assert (cl0 = cl) as -> by congruence.
  destruct (reachable_start_unassigned _ _ _ _ _ s Hreach c cl Hcl Hst)
    as [Hpos Hdir].
  assert (Hdone : ∃ cl' n',
            RemoteServer.handleMessage be cl (RemoteServer.numClients s)
            = Done (cl', n')).
  { unfold RemoteServer.handleMessage. rewrite Hst.
    rewrite (read_int_bytes be 4 _ bs rest Hin Hlen).
    rewrite (wf_start s Hwf c cl Hcl Hst). cbv zeta.
    destruct Htok as [-> | ->].
    - rewrite decide_False by discriminate.
      rewrite decide_False by (intros Hc; now apply Hc). eauto.
    - rewrite decide_True by reflexivity. eauto. }
  destruct Hdone as (cl' & n' & Hdone).
  destruct (handleMessage_start be cl _ cl' n' Hst Hdone) as (Hs' & Hp' & Hd').
  assert (Hcl' : RemoteServer.heap s' !! c = Some cl').
  { rewrite Hh, decide_True by reflexivity. now rewrite Hdone. }
  assert (Hpose : RemoteServer.streaming_pose s' c = Some (None, None)).
  { unfold RemoteServer.streaming_pose. rewrite Hcl'. cbn.
    rewrite decide_True by exact Hs'. congruence. }
  exists s', (omap (RemoteServer.streaming_pose s') (RemoteServer.clients s')).
  split; [exact Hd|]. split; [|split; [exact Hpose|split]].
  - unfold RemoteServer.streaming. rewrite Hcl'.
    now apply bool_decide_eq_true_2.
  - unfold RemoteServer.collectPositions. rewrite collect_loop; [reflexivity|].
    intros x Hx. now apply (wf_heap s' Hwf').
  - apply list_elem_of_omap. exists c. split; [|exact Hpose].
    apply (wf_heap s' Hwf'). eauto.
Qed.

Lemma positions_read_witness :
  ∃ s' positions,
    RemoteServer.dispatchClientEvent false 1%positive Sample.accepted = Some s' ∧
    RemoteServer.collectPositions s' = Some positions ∧
    (None, None) ∈ positions.
Proof.
  destruct (positions_read_before_first_update (H := IEEE.binary32) false
              IEEE.image32 Sample.gridSize Sample.cellSize32 Sample.er32
              Sample.accepted 1%positive 5%positive Sample.accepted_client
              (host_bytes false 4 0x12345678) Sample.pose_update
              accepted_reachable)
    as (s' & ps & Hd & _ & _ & Hc & Hin).
  - vm_compute; reflexivity.
  - vm_compute; reflexivity.
  - vm_compute; reflexivity.
  - vm_compute; reflexivity.
  - vm_compute; reflexivity.
  - left. vm_compute; reflexivity.
  - exists s', ps. auto.
Defined.

(** ** The elevation range of the constructor *)



(** The same range in binary32, and the literal 0.05f. *)
Example constructor_range_binary32 :
  IEEE.image32 (RemoteServer.literal_0_05 (H := IEEE.binary32)) = 0x3d4ccccd ∧
  RemoteServer.constructor_elevationRange (H := IEEE.binary32)
    (IEEE.f32 0 0, IEEE.f32 10 0)
  = (SFopp (IEEE.f32 1 (-1)), IEEE.f32 11036262 (-20)).
Proof. vm_compute. split; reflexivity. Qed.

(** ** The request schedule *)










(** In binary64, with a request interval of zero: the first granted
    request sets the next request time to NaN, and from then on no call
    of [frame] requests grids, whatever the time and the counter. *)
Theorem frame_zero_interval_stops (n : Z) (t nx : spec_float) (sgn : bool) :
  0 < n -> SFleb nx t = true ->
  RemoteServer.frame (H := IEEE.binary64) n true t
    (RemoteServer.mkSchedule (S754_zero sgn) nx)
  = (true, RemoteServer.mkSchedule (S754_zero sgn) S754_nan) ∧
  ∀ n' g t',
    RemoteServer.frame (H := IEEE.binary64) n' g t'
      (RemoteServer.mkSchedule (S754_zero sgn) S754_nan)
    = (false, RemoteServer.mkSchedule (S754_zero sgn) S754_nan).
Proof.
  intros Hn Hdue. split.
  - unfold RemoteServer.frame.
    cbn [RemoteServer.requestInterval RemoteServer.nextRequestTime].
    rewrite (proj2 (Z.gtb_lt n 0)) by lia.
    change (@nleb _ IEEE.binary64 nx t) with (SFleb nx t). rewrite Hdue.
    cbn [andb]. f_equal. f_equal. clear Hdue.
    destruct t as [[]|[]| |[] m e], sgn; vm_compute; reflexivity.
  - intros n' g t'. unfold RemoteServer.frame.
    cbn [RemoteServer.requestInterval RemoteServer.nextRequestTime].
    change (@nleb _ IEEE.binary64 S754_nan t') with (SFleb S754_nan t').
    assert (E : SFleb S754_nan t' = false) by (destruct t'; reflexivity).
    rewrite E, andb_false_r. reflexivity.
Qed.

Lemma frame_zero_interval_witness :
  RemoteServer.frame (H := IEEE.binary64) 1 true (IEEE.f64 5 0)
    (RemoteServer.mkSchedule (S754_zero false) (S754_zero false))
  = (true, RemoteServer.mkSchedule (S754_zero false) S754_nan).
Proof.
  apply (frame_zero_interval_stops 1 (IEEE.f64 5 0) (S754_zero false) false).
  - lia.
  - vm_compute; reflexivity.
Defined.

(** * The rest of the client *)

(** ** Connecting: the constructor against the server's handshake *)

Lemma write_raw_done bs p p' : write_raw bs p = Done p' -> p' = sent bs p.
Proof.
  unfold write_raw, sent. destruct (credit p) as [c|].
  - destruct (length bs <=? c)%nat; [|discriminate]. now intros [= <-].
  - now intros [= <-].
Qed.

Lemma outbound_sent bs p : outbound (sent bs p) = outbound p ++ bs.
Proof. reflexivity. Qed.


Lemma swapOnRead_sent bs p : swapOnRead (sent bs p) = swapOnRead p.
Proof. reflexivity. Qed.

(** What a host of byte order [reader] sees of the token a host of byte
    order [writer] wrote. *)
Lemma token_seen (writer reader : bool) :
  host_value reader (host_bytes writer 4 0x12345678)
  = if xorb writer reader then 0x78563412 else 0x12345678.
Proof. destruct writer, reader; vm_compute; reflexivity. Qed.





Section Handshake.
Context {F : Type} `{Numeric F}.
Variable be : bool.
Variable float32_image : F -> Z.
Variable gridSize : Z * Z.
Variable cellSize : F * F.
Variable elevationRange : F * F.

(** The seven values of the handshake message. *)
Lemma sendHandshake_done p p' :
  RemoteServer.sendHandshake be float32_image gridSize cellSize elevationRange p
  = Done p' ->
  p' = sent (flat_map (host_bytes be 4)
               [0x12345678; gridSize.1; float32_image cellSize.1;
                gridSize.2; float32_image cellSize.2;
                float32_image elevationRange.1; float32_image elevationRange.2])
            p.
Proof.
  unfold RemoteServer.sendHandshake, write_int. intros Hd.
  repeat match type of Hd with
  | and_then (write_raw ?b ?q) _ = _ =>
      let E := fresh "E" in
      destruct (write_raw b q) as [?p|?p] eqn:E; [|discriminate Hd];
      apply write_raw_done in E; subst; cbn [and_then] in Hd
  end.
  apply write_raw_done in Hd. subst p'.
  rewrite !sent_app. cbn [flat_map]. rewrite app_nil_r, <- ?app_assoc.
  reflexivity.
Qed.
End Handshake.

Lemma sendGrids_done {F : Type} `{Numeric F} be (gridSize : Z * Z) (er : F * F)
    (gb : RemoteServer.GridBuffers F) p p' :
  1 <= gridSize.1 -> 1 <= gridSize.2 ->
  RemoteServer.allocated gridSize gb ->
  RemoteServer.sendGrids be gridSize er gb p = Done p' ->
  p' = sent (wire16 be (snapshot_codes er gb)) p.
Proof.
  intros HW HH Ha Hd.
  destruct (room_dec p (2 * length (snapshot_codes er gb))) as [Hr|Hr].
  - rewrite (sendGrids_room be gridSize er HW HH gb p Ha Hr) in Hd.
    now injection Hd as <-.
  - pose proof (sendGrids_no_room be gridSize er HW HH gb p Ha Hr) as Hc.
    rewrite Hd in Hc. discriminate.
Qed.

Lemma consumed_fields n p :
  swapOnRead (consumed n p) = swapOnRead p ∧
  outbound (consumed n p) = outbound p ∧
  credit (consumed n p) = credit p.
Proof. auto. Qed.

Section Construct.
Context {F : Type} `{Numeric F}.
Variable be : bool.
Variable float32_of_image : Z -> F.
Variable indeterminate : nat -> list F.

(** Reading the six values of the header written by a host of the byte
    order the pipe is set for. *)
Lemma readHeader_wire p (w cw h ch e0 e1 : Z) rest :
  Forall (λ v, 0 <= v < 2 ^ 32) [w; cw; h; ch; e0; e1] ->
  inbound p = flat_map (host_bytes (xorb be (swapOnRead p)) 4)
                [w; cw; h; ch; e0; e1] ++ rest ->
  SandboxClient.readHeader be float32_of_image p
  = Some ((SandboxClient.to_GLsizei w, SandboxClient.to_GLsizei h),
          (float32_of_image cw, float32_of_image ch),
          (float32_of_image e0, float32_of_image e1),
          consumed 24 p).
Proof.
  intros Hv Hin. unfold SandboxClient.readHeader.
  cbn [flat_map] in Hin. rewrite app_nil_r, <- !app_assoc in Hin.
  repeat (apply Forall_cons in Hv as [? Hv]).
  assert (Hstep : ∀ q v tail,
            0 <= v < 2 ^ 32 -> swapOnRead q = swapOnRead p ->
            inbound q = host_bytes (xorb be (swapOnRead p)) 4 v ++ tail ->
            read_int be 4 q = Some (v, consumed 4 q) ∧
            swapOnRead (consumed 4 q) = swapOnRead p ∧
            inbound (consumed 4 q) = tail).
  { intros q v tail Hr Hs Hq. rewrite <- Hs in Hq.
    destruct (read_int_wire be q 4 v tail) as [-> ->];
      [change (256 ^ Z.of_nat 4) with (2 ^ 32); lia|exact Hq|].
    auto. }
  destruct (Hstep p w _ ltac:(assumption) eq_refl Hin) as (-> & Hs1 & Hi1).
  cbn [mbind option_bind].
  destruct (Hstep _ cw _ ltac:(assumption) Hs1 Hi1) as (-> & Hs2 & Hi2).
  cbn [mbind option_bind].
  destruct (Hstep _ h _ ltac:(assumption) Hs2 Hi2) as (-> & Hs3 & Hi3).
  cbn [mbind option_bind].
  destruct (Hstep _ ch _ ltac:(assumption) Hs3 Hi3) as (-> & Hs4 & Hi4).
  cbn [mbind option_bind].
  destruct (Hstep _ e0 _ ltac:(assumption) Hs4 Hi4) as (-> & Hs5 & Hi5).
  cbn [mbind option_bind].
  destruct (Hstep _ e1 _ ltac:(assumption) Hs5 Hi5) as (-> & Hs6 & Hi6).
  cbn [mbind option_bind].
  rewrite !consumed_consumed. reflexivity.
Qed.

(** The constructor up to the token it reads, written by a host of byte
    order [be_s]. *)
Lemma construct_token (be_s : bool) p tail :
  room p 4 -> swapOnRead p = false ->
  inbound p = host_bytes be_s 4 0x12345678 ++ tail ->
  SandboxClient.construct be float32_of_image indeterminate p
  = SandboxClient.receiveSetup be float32_of_image indeterminate
      (mkPipe tail (xorb be_s be) (outbound p ++ host_bytes be 4 0x12345678)
              (credit (sent (host_bytes be 4 0x12345678) p))).
Proof.
  intros Hroom Hswap Hin. unfold SandboxClient.construct, write_int.
  rewrite write_raw_room by (rewrite length_host_bytes; exact Hroom).
  rewrite (read_int_bytes be 4 (sent (host_bytes be 4 0x12345678) p)
             (host_bytes be_s 4 0x12345678) tail Hin (length_host_bytes _ _ _)).
  rewrite swapOnRead_sent, Hswap, token_seen.
  assert (Ed : drop 4 (inbound p) = tail).
  { rewrite Hin. apply drop_app_length'. symmetry. apply length_host_bytes. }
  destruct (xorb be_s be).
  - rewrite decide_True by reflexivity. f_equal.
    unfold setSwapOnRead, consumed, sent. cbn. now rewrite Ed.
  - rewrite decide_False by discriminate.
    rewrite decide_False by (intros Hc; now apply Hc). f_equal.
    unfold consumed, sent. cbn. now rewrite Ed, Hswap.
Qed.

(** The rest of the constructor on a header and a snapshot written by a
    host of the byte order the pipe is set for. *)
Lemma receiveSetup_wire (float32_image : F -> Z) (W H' : Z) (cw ch e0 e1 : F)
    (codesA codesB : list Z) q rest :
  1 <= W -> 1 <= H' -> W * H' < 2 ^ 31 ->
  (∀ n, length (indeterminate n) = n) ->
  Forall (λ x, 0 <= float32_image x < 2 ^ 32 ∧
               float32_of_image (float32_image x) = x) [cw; ch; e0; e1] ->
  Forall u16 codesA -> Forall u16 codesB ->
  Z.of_nat (length codesA) = (H' - 1) * (W - 1) ->
  Z.of_nat (length codesB) = H' * W ->
  inbound q
  = flat_map (host_bytes (xorb be (swapOnRead q)) 4)
      [W; float32_image cw; H'; float32_image ch;
       float32_image e0; float32_image e1]
    ++ wire16 (xorb be (swapOnRead q)) (codesA ++ codesB) ++ rest ->
  SandboxClient.receiveSetup be float32_of_image indeterminate q
  = SandboxClient.Constructed (W, H') (cw, ch) (e0, e1)
      (SandboxClient.mkClient
         (consumed (24 + 2 * length (codesA ++ codesB)) q) true true
         (TripleBuffer.postNewValue
            (TripleBuffer.store
               (SandboxClient.mkGrids
                  (map (SandboxClient.dequantize (e0, e1)) codesA)
                  (map (SandboxClient.dequantize (e0, e1)) codesB))
               (TripleBuffer.mk
                  [SandboxClient.init indeterminate (W, H');
                   SandboxClient.init indeterminate (W, H');
                   SandboxClient.init indeterminate (W, H')] 0 0)))).
Proof.
  intros HW HH Hsize Hind Himg HA HB HlA HlB Hin.
  repeat (apply Forall_cons in Himg as [[? ?] Himg]).
  unfold SandboxClient.receiveSetup.
  rewrite (readHeader_wire q W (float32_image cw) H' (float32_image ch)
             (float32_image e0) (float32_image e1)
             (wire16 (xorb be (swapOnRead q)) (codesA ++ codesB) ++ rest));
    [|repeat constructor; try assumption; lia|exact Hin].
  assert (EW : SandboxClient.to_GLsizei W = W)
    by (unfold SandboxClient.to_GLsizei;
        rewrite (proj2 (Z.ltb_lt W (2 ^ 31))) by nia; reflexivity).
  assert (EH : SandboxClient.to_GLsizei H' = H')
    by (unfold SandboxClient.to_GLsizei;
        rewrite (proj2 (Z.ltb_lt H' (2 ^ 31))) by nia; reflexivity).
  rewrite EW, EH.
  repeat match goal with E : float32_of_image (float32_image _) = _ |- _ =>
           rewrite E; clear E end.
  assert (Eok : SandboxClient.sizes_ok (W, H') = true).
  { unfold SandboxClient.sizes_ok. cbn [fst snd].
    rewrite !andb_true_iff, !Z.leb_le, !Z.ltb_lt. nia. }
  rewrite Eok. unfold SandboxClient.readGrids.
  cbn [SandboxClient.grids SandboxClient.pipe SandboxClient.connected
       SandboxClient.listening].
  change (TripleBuffer.startNewValue _)
    with (Some (SandboxClient.init indeterminate (W, H'))).
  cbn [default].
  rewrite (receiveGrids_ok be (W, H') (e0, e1) HW HH
             (SandboxClient.init indeterminate (W, H')) (consumed 24 q)
             codesA codesB rest); try assumption.
  - rewrite consumed_consumed. reflexivity.
  - split; unfold SandboxClient.init;
      cbn [SandboxClient.bathymetry SandboxClient.waterLevel fst snd];
      rewrite Hind; nia.
  - unfold SandboxClient.init. cbn [SandboxClient.bathymetry fst snd].
    rewrite Hind. nia.
  - unfold SandboxClient.init. cbn [SandboxClient.waterLevel fst snd].
    rewrite Hind. nia.
  - destruct (consumed_fields 24 q) as (-> & _ & _).
    unfold consumed. cbn [inbound]. rewrite Hin.
    apply drop_app_length'.
    cbn [flat_map]. rewrite !length_app, !length_host_bytes. reflexivity.
Qed.





End Construct.



(** The client's constructor on what a server has written after its
    handshake and its first snapshot, whatever the byte orders of the
    two hosts: the constructor completes with the server's grid size,
    cell size and elevation range, has sent its own token, has consumed
    exactly the two messages, reads swapped exactly when the byte orders
    differ, and has published the decoded snapshot as its most recent
    pair of grids. *)
Theorem construct_receives_server_setup {F : Type} `{Numeric F}
    (be_s be_c : bool) (float32_image : F -> Z) (float32_of_image : Z -> F)
    (indeterminate : nat -> list F)
    (W H' : Z) (cw ch e0 e1 : F) (gb : RemoteServer.GridBuffers F)
    (p0 ps ps' p : TCPPipe) (rest : list byte) :
  let er := (e0, e1) in
  let decoded := λ e, SandboxClient.dequantize er (RemoteServer.quantize er e) in
  1 <= W -> 1 <= H' -> W * H' < 2 ^ 31 ->
  RemoteServer.allocated (W, H') gb ->
  (∀ n, length (indeterminate n) = n) ->
  Forall (λ x, 0 <= float32_image x < 2 ^ 32 ∧
               float32_of_image (float32_image x) = x) [cw; ch; e0; e1] ->
  outbound p0 = [] ->
  RemoteServer.sendHandshake be_s float32_image (W, H') (cw, ch) er p0 = Done ps ->
  RemoteServer.sendGrids be_s (W, H') er gb ps = Done ps' ->
  room p 4 -> swapOnRead p = false ->
  inbound p = outbound ps' ++ rest ->
  ∃ c,
    SandboxClient.construct be_c float32_of_image indeterminate p
    = SandboxClient.Constructed (W, H') (cw, ch) er c ∧
    outbound (SandboxClient.pipe c) = outbound p ++ host_bytes be_c 4 0x12345678 ∧
    inbound (SandboxClient.pipe c) = rest ∧
    swapOnRead (SandboxClient.pipe c) = xorb be_s be_c ∧
    SandboxClient.connected c = true ∧
    SandboxClient.listening c = true ∧
    TripleBuffer.mostRecent (SandboxClient.grids c)
    = Some (SandboxClient.mkGrids (map decoded (RemoteServer.bathymetry gb))
                                  (map decoded (RemoteServer.waterLevel gb))).
Proof.
  intros er decoded HW HH Hsize Hgb Hind Himg Hp0 Hhs Hsg Hroom Hswap Hin.
  apply sendHandshake_done in Hhs. cbn [fst snd] in Hhs.
  apply (sendGrids_done be_s (W, H') er gb ps ps' HW HH Hgb) in Hsg.
  subst ps ps'. rewrite !outbound_sent, Hp0, app_nil_l in Hin.
  change (flat_map (host_bytes be_s 4) (0x12345678 :: ?l))
    with (host_bytes be_s 4 0x12345678 ++ flat_map (host_bytes be_s 4) l) in Hin.
  rewrite <- !app_assoc in Hin.
  rewrite (construct_token be_c float32_of_image indeterminate be_s p _
             Hroom Hswap Hin).
  set (q := mkPipe _ _ _ _).
  assert (Hback : xorb be_c (swapOnRead q) = be_s)
    by (subst q; cbn; destruct be_s, be_c; reflexivity).
  destruct Hgb as [Hb Hw]. cbn [fst snd] in Hb, Hw.
  rewrite (receiveSetup_wire be_c float32_of_image indeterminate float32_image
             W H' cw ch e0 e1
             (map (RemoteServer.quantize er) (RemoteServer.bathymetry gb))
             (map (RemoteServer.quantize er) (RemoteServer.waterLevel gb))
             q rest); try assumption.
  - eexists. split; [reflexivity|].
    cbn [SandboxClient.pipe SandboxClient.connected SandboxClient.listening
         SandboxClient.grids].
    split; [reflexivity|]. split.
    { unfold consumed, q. cbn [inbound].
      rewrite <- map_app. fold (snapshot_codes er gb).
      rewrite app_assoc. apply drop_app_length'.
      rewrite length_app, length_wire16. cbn [flat_map].
      rewrite !length_app, !length_host_bytes. reflexivity. }
    split; [reflexivity|]. split; [reflexivity|]. split; [reflexivity|].
    unfold decoded. rewrite <- !list_fmap_compose. reflexivity.
  - apply Forall_fmap, Forall_forall. intros; apply quantize_u16.
  - apply Forall_fmap, Forall_forall. intros; apply quantize_u16.
  - rewrite length_map. exact Hb.
  - rewrite length_map. exact Hw.
  - rewrite Hback. subst q. cbn [inbound]. rewrite <- map_app. reflexivity.
Qed.

Lemma construct_setup_witness :
  ∃ c,
    SandboxClient.construct (H := IEEE.binary32) false IEEE.of_image32
      Sample.unset Sample.connecting
    = SandboxClient.Constructed Sample.gridSize Sample.cellSize32 Sample.er32 c ∧
    inbound (SandboxClient.pipe c) = [] ∧
    SandboxClient.listening c = true.
Proof.
  destruct (construct_receives_server_setup (H := IEEE.binary32) false false
              IEEE.image32 IEEE.of_image32 Sample.unset 2 2
              (IEEE.f32 1 0) (IEEE.f32 1 0) (IEEE.f32 0 0) (IEEE.f32 10 0)
              Sample.server_grids (Sample.fresh_pipe [])
              (sent Sample.handshake (Sample.fresh_pipe []))
              (sent Sample.message (sent Sample.handshake (Sample.fresh_pipe [])))
              Sample.connecting [])
    as (c & E & _ & Hin & _ & _ & Hl & _).
  - lia.
  - lia.
  - lia.
  - split; reflexivity.
  - intros n. apply length_replicate.
  - repeat constructor; vm_compute; congruence.
  - reflexivity.
  - vm_compute; reflexivity.
  - vm_compute; reflexivity.
  - exact I.
  - reflexivity.
  - vm_compute; reflexivity.
  - exists c. split; [exact E|]. split; assumption.
Defined.

(** ** The position update of [frame] against the server's handler *)

Lemma length_flat_host_bytes be n vs :
  length (flat_map (host_bytes be n) vs) = (n * length vs)%nat.
Proof.
  induction vs as [|v vs IH]; cbn [flat_map length]; [lia|].
  rewrite length_app, length_host_bytes, IH. lia.
Qed.

Lemma sendPose_room {Sc : Type} (be : bool) (narrow_image : Sc -> Z)
    (head view : Sc * Sc * Sc) p :
  room p 26 ->
  SandboxClient.sendPose be narrow_image head view p
  = Done (sent (host_bytes be 2 0
                ++ flat_map (host_bytes be 4)
                     ((narrow_image <$> [SandboxClient.coord 0 head;
                                         SandboxClient.coord 1 head;
                                         SandboxClient.coord 2 head])
                      ++ (narrow_image <$> [SandboxClient.coord 0 view;
                                            SandboxClient.coord 1 view;
                                            SandboxClient.coord 2 view]))) p).
Proof.
  intros Hroom. unfold SandboxClient.sendPose, SandboxClient.write_array, write_int.
  rewrite write_raw_room
    by (rewrite length_host_bytes; eapply room_le; [|exact Hroom]; lia).
  cbn [and_then].
  rewrite write_raw_room.
  2:{ apply room_sent. rewrite length_host_bytes, length_flat_host_bytes.
      eapply room_le; [|exact Hroom]. cbn. lia. }
  cbn [and_then]. rewrite sent_app.
  rewrite write_raw_room.
  2:{ apply room_sent. rewrite length_app, length_host_bytes,
        !length_flat_host_bytes.
      eapply room_le; [|exact Hroom]. cbn. lia. }
  rewrite sent_app, flat_map_app, <- app_assoc. reflexivity.
Qed.

(** The bytes a client writes, its token in the constructor and then
    the position update of one [frame], take a server of any byte order
    from [START] to [STREAMING] with [position] and [direction] holding
    the three values sent for each; the update is 26 bytes long. *)
Theorem pose_reaches_server {Sc : Type} (be_s be_c : bool)
    (narrow_image : Sc -> Z) (head view : Sc * Sc * Sc) (p : TCPPipe)
    (cl : RemoteServer.Client) (n : Z) (rest : list byte) :
  let pos := narrow_image <$> [SandboxClient.coord 0 head;
                               SandboxClient.coord 1 head;
                               SandboxClient.coord 2 head] in
  let dir := narrow_image <$> [SandboxClient.coord 0 view;
                               SandboxClient.coord 1 view;
                               SandboxClient.coord 2 view] in
  let message := host_bytes be_c 2 0 ++ flat_map (host_bytes be_c 4) (pos ++ dir) in
  Forall (λ v, 0 <= v < 2 ^ 32) (pos ++ dir) ->
  room p 26 ->
  RemoteServer.state cl = RemoteServer.START ->
  swapOnRead (RemoteServer.clientPipe cl) = false ->
  inbound (RemoteServer.clientPipe cl)
  = host_bytes be_c 4 0x12345678 ++ message ++ rest ->
  SandboxClient.sendPose be_c narrow_image head view p = Done (sent message p) ∧
  length message = 26%nat ∧
  ∃ cl1 cl2,
    RemoteServer.handleMessage be_s cl n
    = Done (cl1, (n + 1) mod RemoteServer.UINT_MAX1) ∧
    RemoteServer.handleMessage be_s cl1 ((n + 1) mod RemoteServer.UINT_MAX1)
    = Done (cl2, (n + 1) mod RemoteServer.UINT_MAX1) ∧
    RemoteServer.state cl2 = RemoteServer.STREAMING ∧
    RemoteServer.position cl2 = Some pos ∧
    RemoteServer.direction cl2 = Some dir ∧
    inbound (RemoteServer.clientPipe cl2) = rest.
Proof.
  intros pos dir message Hrange Hroom Hst Hswap Hin.
  split; [apply sendPose_room; exact Hroom|].
  split.
  { unfold message. rewrite length_app, length_host_bytes,
      length_flat_host_bytes. reflexivity. }
  set (q := consumed 4 (RemoteServer.clientPipe cl)).
  set (q1 := if xorb be_c be_s then setSwapOnRead true q else q).
  assert (Hq1s : xorb be_s (swapOnRead q1) = be_c).
  { subst q1 q. destruct (xorb be_c be_s) eqn:E; cbn;
      [|rewrite Hswap]; destruct be_c, be_s; try reflexivity; discriminate. }
  assert (Hq1i : inbound q1 = message ++ rest).
  { subst q1 q. assert (E : inbound (consumed 4 (RemoteServer.clientPipe cl))
                          = message ++ rest).
    { unfold consumed. cbn. rewrite Hin. apply drop_app_length'.
      symmetry. apply length_host_bytes. }
    destruct (xorb be_c be_s); [exact E|exact E]. }
  set (cl1 := RemoteServer.mkClient q1 (RemoteServer.listenerKey cl)
                RemoteServer.STREAMING (RemoteServer.position cl)
                (RemoteServer.direction cl)).
  assert (H1 : RemoteServer.handleMessage be_s cl n
               = Done (cl1, (n + 1) mod RemoteServer.UINT_MAX1)).
  { unfold RemoteServer.handleMessage. rewrite Hst.
    rewrite (read_int_bytes be_s 4 _ (host_bytes be_c 4 0x12345678) _ Hin
               (length_host_bytes _ _ _)).
    rewrite Hswap, token_seen. cbv zeta. subst cl1 q1. fold q.
    destruct (xorb be_c be_s).
    - rewrite decide_True by reflexivity. reflexivity.
    - rewrite decide_False by discriminate.
      rewrite decide_False by (intros Hc; now apply Hc). reflexivity. }
  pose proof Hq1i as Hmsg.
  unfold message in Hq1i. rewrite <- app_assoc in Hq1i.
  rewrite <- Hq1s in Hq1i at 1.
  destruct (read_int_wire be_s q1 2 0 _ ltac:(cbn; lia) Hq1i) as [Hr0 Hi0].
  rewrite flat_map_app, <- app_assoc in Hi0.
  assert (Hs0 : xorb be_s (swapOnRead (consumed 2 q1)) = be_c) by exact Hq1s.
  rewrite <- Hs0 in Hi0 at 1.
  apply Forall_app in Hrange as [Hpos Hdir].
  pose proof (read_ints_wire be_s (consumed 2 q1) pos _ Hpos Hi0) as Hr1.
  assert (Hi1 : inbound (consumed (4 * length pos) (consumed 2 q1))
                = flat_map (host_bytes
                     (xorb be_s (swapOnRead (consumed (4 * length pos)
                                               (consumed 2 q1)))) 4) dir ++ rest).
  { unfold consumed at 1. cbn [inbound]. rewrite Hi0.
    rewrite Hs0. change (xorb be_s (swapOnRead _)) with (xorb be_s (swapOnRead q1)).
    rewrite Hq1s. apply drop_app_length'.
    now rewrite length_flat_host_bytes. }
  pose proof (read_ints_wire be_s _ dir _ Hdir Hi1) as Hr2.
  eexists cl1, _. split; [exact H1|]. split.
  - unfold RemoteServer.handleMessage. subst cl1.
    cbn [RemoteServer.state RemoteServer.clientPipe].
    rewrite Hr0. cbv zeta. rewrite decide_True by reflexivity.
    change (length pos) with 3%nat in Hr1, Hr2.
    change (length dir) with 3%nat in Hr2.
    rewrite Hr1, Hr2. reflexivity.
  - cbn [RemoteServer.state RemoteServer.position RemoteServer.direction
         RemoteServer.clientPipe].
    split; [reflexivity|]. split; [reflexivity|]. split; [reflexivity|].
    rewrite !consumed_consumed. unfold consumed. cbn [inbound].
    rewrite Hmsg. apply drop_app_length'.
    unfold message. rewrite length_app, length_host_bytes,
      length_flat_host_bytes. reflexivity.
Qed.

Lemma pose_reaches_server_witness :
  ∃ cl1 cl2,
    RemoteServer.handleMessage false Sample.accepted_client 0 = Done (cl1, 1) ∧
    RemoteServer.handleMessage false cl1 1 = Done (cl2, 1) ∧
    RemoteServer.position cl2 = Some [1; 2; 3] ∧
    RemoteServer.direction cl2 = Some [4; 5; 6].
Proof.
  destruct (pose_reaches_server false false (λ v : Z, v) (1, 2, 3) (4, 5, 6)
              (Sample.fresh_pipe []) Sample.accepted_client 0 [])
    as (_ & _ & cl1 & cl2 & H1 & H2 & _ & Hp & Hd & _).
  - repeat constructor; cbn; lia.
  - exact I.
  - vm_compute; reflexivity.
  - vm_compute; reflexivity.
  - vm_compute; reflexivity.
  - exists cl1, cl2. auto.
Defined.

(** ** The water level above the head *)

Lemma cell_at_in_range {A} (l : list A) (base k : Z) :
  0 <= base + k < Z.of_nat (length l) ->
  ∃ v, SandboxClient.cell_at l base k = Some v.
Proof.
  intros Hr. unfold SandboxClient.cell_at.
  rewrite (proj2 (Z.ltb_ge (base + k) 0)) by lia.
  apply lookup_lt_is_Some_2. lia.
Qed.

(** For a water level grid of the size [init] allocates, the test of
    [frame] reads no water level outside the array, wherever the head
    is and whatever the arithmetic. *)
Theorem head_underwater_in_bounds {F Sc : Type} {NS : Numeric Sc} (widen : F -> Sc) (gridSize : Z * Z) (cellSize : F * F)
    (waterLevel : list F) (head : Sc * Sc * Sc) :
  Z.of_nat (length waterLevel) = gridSize.2 * gridSize.1 ->
  is_Some (SandboxClient.head_underwater widen gridSize cellSize waterLevel head).
Proof.
  intros Hlen. unfold SandboxClient.head_underwater. cbv zeta.
  set (gx := floor_int _). set (gy := floor_int _).
  destruct ((gx >=? 0) && (gx <? gridSize.1 - 1) && (gy >=? 0)
            && (gy <? gridSize.2 - 1)) eqn:Hc; [|eauto].
  rewrite !andb_true_iff, !Z.geb_le, !Z.ltb_lt in Hc.
  destruct Hc as [[[Hx0 Hx1] Hy0] Hy1].
  destruct (cell_at_in_range waterLevel (gy * gridSize.1 + gx) 0) as [c0 ->];
    [nia|].
  destruct (cell_at_in_range waterLevel (gy * gridSize.1 + gx) 1) as [c1 ->];
    [nia|].
  destruct (cell_at_in_range waterLevel (gy * gridSize.1 + gx + gridSize.1) 0)
    as [c2 ->]; [nia|].
  destruct (cell_at_in_range waterLevel (gy * gridSize.1 + gx + gridSize.1) 1)
    as [c3 ->]; [nia|].
  cbn. eauto.
Qed.

Lemma head_underwater_witness :
  is_Some (SandboxClient.head_underwater (NS := IEEE.binary64)
             (IEEE.widen 53 1024) Sample.gridSize Sample.cellSize32
             (RemoteServer.waterLevel Sample.server_grids)
             (IEEE.f64 1 (-1), IEEE.f64 1 (-1), IEEE.f64 1 0)).
Proof.
  apply (head_underwater_in_bounds (NS := IEEE.binary64)). reflexivity.
Defined.

(** ** Bilinear interpolation, in exact arithmetic *)

Lemma interpolate_exact (sq : Q -> Q) (c0 c1 c2 c3 dx dy : Q) :
  SandboxClient.interpolate (NS := Exact.ops sq)
    (Some c0) (Some c1) (Some c2) (Some c3) (Some dx) (Some dy)
  = Some ((c0 * (inject_Z 1 - dx) + c1 * dx) * (inject_Z 1 - dy)
          + (c2 * (inject_Z 1 - dx) + c3 * dx) * dy)%Q.
Proof. reflexivity. Qed.

(** A weighted mean of two numbers lies between them. *)
Lemma mean_between (a b t lo hi : Q) :
  (0 <= t)%Q -> (t <= 1)%Q -> (lo <= a)%Q -> (lo <= b)%Q ->
  (a <= hi)%Q -> (b <= hi)%Q ->
  (lo <= a * (inject_Z 1 - t) + b * t)%Q ∧ (a * (inject_Z 1 - t) + b * t <= hi)%Q.
Proof.
  change (inject_Z 1) with 1%Q. intros Ht0 Ht1 Ha Hb Ha' Hb'.
  assert (H1 : (0 <= (a - lo) * (1 - t))%Q) by (apply Qmult_le_0_compat; lra).
  assert (H2 : (0 <= (b - lo) * t)%Q) by (apply Qmult_le_0_compat; lra).
  assert (H3 : (0 <= (hi - a) * (1 - t))%Q) by (apply Qmult_le_0_compat; lra).
  assert (H4 : (0 <= (hi - b) * t)%Q) by (apply Qmult_le_0_compat; lra).
  split; lra.
Qed.

Lemma interpolation_between (c0 c1 c2 c3 dx dy lo hi : Q) :
  (0 <= dx)%Q -> (dx <= 1)%Q -> (0 <= dy)%Q -> (dy <= 1)%Q ->
  (lo <= c0)%Q -> (lo <= c1)%Q -> (lo <= c2)%Q -> (lo <= c3)%Q ->
  (c0 <= hi)%Q -> (c1 <= hi)%Q -> (c2 <= hi)%Q -> (c3 <= hi)%Q ->
  (lo <= (c0 * (inject_Z 1 - dx) + c1 * dx) * (inject_Z 1 - dy)
         + (c2 * (inject_Z 1 - dx) + c3 * dx) * dy)%Q ∧
  ((c0 * (inject_Z 1 - dx) + c1 * dx) * (inject_Z 1 - dy)
   + (c2 * (inject_Z 1 - dx) + c3 * dx) * dy <= hi)%Q.
Proof.
  intros.
  destruct (mean_between c0 c1 dx lo hi) as [? ?]; try assumption.
  destruct (mean_between c2 c3 dx lo hi) as [? ?]; try assumption.
  apply mean_between; assumption.
Qed.

Lemma fraction_range (q : Q) :
  (0 <= q - inject_Z (Qfloor q))%Q ∧ (q - inject_Z (Qfloor q) <= 1)%Q.
Proof.
  pose proof (Qfloor_le q). pose proof (Qlt_floor q) as Hlt.
  rewrite inject_Z_plus in Hlt. change (inject_Z 1) with 1%Q in Hlt.
  split; lra.
Qed.

Lemma cell_at_some (l : list Q) (base k : Z) (i : nat) (v : Q) :
  0 <= base + k -> Z.to_nat (base + k) = i -> l !! i = Some v ->
  SandboxClient.cell_at (Some <$> l : list Exact.real) base k = Some (Some v).
Proof.
  intros Hn <- Hl. unfold SandboxClient.cell_at.
  rewrite (proj2 (Z.ltb_ge (base + k) 0)) by lia.
  rewrite list_lookup_fmap, Hl. reflexivity.
Qed.

(** In exact arithmetic, for a head over the cell (gx, gy) of a water
    level grid of the allocated size, at the fractions dx and dy of the
    cell: [frame] finds the head under water exactly when it is at or
    below the level
    (c0*(1-dx) + c1*dx)*(1-dy) + (c2*(1-dx) + c3*dx)*dy
    interpolated from the four samples around it, and that level lies
    between the lowest and the highest of the four.  Over no cell, the
    head is not under water. *)
Theorem head_underwater_exact (sq : Q -> Q) (w h : Z) (cs0 cs1 : Q)
    (levels : list Q) (x y z : Q) :
  let gx := Qfloor (x / cs0) in
  let gy := Qfloor (y / cs1) in
  let dx := (x / cs0 - inject_Z gx)%Q in
  let dy := (y / cs1 - inject_Z gy)%Q in
  let under :=
    SandboxClient.head_underwater (NS := Exact.ops sq) id (w, h)
      (Some cs0, Some cs1) (Some <$> levels) (Some x, Some y, Some z) in
  ¬ (cs0 == 0)%Q -> ¬ (cs1 == 0)%Q ->
  Z.of_nat (length levels) = h * w ->
  (0 <= gx < w - 1 ∧ 0 <= gy < h - 1 ->
   ∃ c0 c1 c2 c3 : Q,
     levels !! Z.to_nat (gy * w + gx) = Some c0 ∧
     levels !! Z.to_nat (gy * w + gx + 1) = Some c1 ∧
     levels !! Z.to_nat ((gy + 1) * w + gx) = Some c2 ∧
     levels !! Z.to_nat ((gy + 1) * w + gx + 1) = Some c3 ∧
     let water := ((c0 * (1 - dx) + c1 * dx) * (1 - dy)
                   + (c2 * (1 - dx) + c3 * dx) * dy)%Q in
     (0 <= dx)%Q ∧ (dx < 1)%Q ∧ (0 <= dy)%Q ∧ (dy < 1)%Q ∧
     under = Some (Qle_bool z water) ∧
     ∀ lo hi, (lo <= c0)%Q -> (lo <= c1)%Q -> (lo <= c2)%Q -> (lo <= c3)%Q ->
              (c0 <= hi)%Q -> (c1 <= hi)%Q -> (c2 <= hi)%Q -> (c3 <= hi)%Q ->
              (lo <= water)%Q ∧ (water <= hi)%Q) ∧
  (¬ (0 <= gx < w - 1 ∧ 0 <= gy < h - 1) -> under = Some false).
Proof.
  intros gx gy dx dy under Hcs0 Hcs1 Hlen.
  assert (Eunder : under
    = if (gx >=? 0) && (gx <? w - 1) && (gy >=? 0) && (gy <? h - 1)
      then
        c0 ← SandboxClient.cell_at (Some <$> levels : list Exact.real) (gy * w + gx) 0;
        c1 ← SandboxClient.cell_at (Some <$> levels : list Exact.real) (gy * w + gx) 1;
        c2 ← SandboxClient.cell_at (Some <$> levels : list Exact.real) (gy * w + gx + w) 0;
        c3 ← SandboxClient.cell_at (Some <$> levels : list Exact.real) (gy * w + gx + w) 1;
        Some (@nleb _ (Exact.ops sq) (Some z)
                (SandboxClient.interpolate (NS := Exact.ops sq) c0 c1 c2 c3
                   (Some dx) (Some dy)))
      else Some false).
  { unfold under, dx, dy, SandboxClient.head_underwater.
    cbn [fst snd SandboxClient.coord id]. cbv zeta.
    rewrite !ex_div by assumption. exact_ops.
    fold gx gy. rewrite !option_fmap_id. reflexivity. }
  split.
  - intros [[Hx0 Hx1] [Hy0 Hy1]].
    destruct (lookup_lt_is_Some_2 levels (Z.to_nat (gy * w + gx)) ltac:(nia))
      as [c0 H0].
    destruct (lookup_lt_is_Some_2 levels (Z.to_nat (gy * w + gx + 1)) ltac:(nia))
      as [c1 H1].
    destruct (lookup_lt_is_Some_2 levels (Z.to_nat ((gy + 1) * w + gx)) ltac:(nia))
      as [c2 H2].
    destruct (lookup_lt_is_Some_2 levels (Z.to_nat ((gy + 1) * w + gx + 1))
                ltac:(nia)) as [c3 H3].
    exists c0, c1, c2, c3. repeat (split; [eassumption|]).
    intros water.
    destruct (fraction_range (x / cs0)) as [Hdx0 _].
    destruct (fraction_range (y / cs1)) as [Hdy0 _].
    pose proof (Qlt_floor (x / cs0)) as Hdx1.
    pose proof (Qlt_floor (y / cs1)) as Hdy1.
    rewrite inject_Z_plus in Hdx1, Hdy1.
    change (inject_Z 1) with 1%Q in Hdx1, Hdy1.
    fold gx in Hdx0, Hdx1. fold gy in Hdy0, Hdy1.
    fold dx in Hdx0. fold dy in Hdy0.
    assert (Hdx : (dx < 1)%Q) by (unfold dx; lra).
    assert (Hdy : (dy < 1)%Q) by (unfold dy; lra).
    repeat (split; [assumption|]).
    split.
    + rewrite Eunder.
      rewrite (proj2 (Z.geb_le gx 0)), (proj2 (Z.ltb_lt gx (w - 1))),
        (proj2 (Z.geb_le gy 0)), (proj2 (Z.ltb_lt gy (h - 1))) by lia.
      cbn [andb].
      rewrite (cell_at_some levels (gy * w + gx) 0
                 (Z.to_nat (gy * w + gx)) c0 ltac:(nia) ltac:(f_equal; lia) H0).
      rewrite (cell_at_some levels (gy * w + gx) 1
                 (Z.to_nat (gy * w + gx + 1)) c1 ltac:(nia) ltac:(f_equal; lia) H1).
      rewrite (cell_at_some levels (gy * w + gx + w) 0
                 (Z.to_nat ((gy + 1) * w + gx)) c2 ltac:(nia) ltac:(f_equal; lia) H2).
      rewrite (cell_at_some levels (gy * w + gx + w) 1
                 (Z.to_nat ((gy + 1) * w + gx + 1)) c3 ltac:(nia)
                 ltac:(f_equal; lia) H3).
      cbn [mbind option_bind]. rewrite interpolate_exact, ex_leb. reflexivity.
    + intros lo hi. intros.
      apply interpolation_between; try assumption; lra.
  - intros Hout. rewrite Eunder.
    destruct ((gx >=? 0) && (gx <? w - 1) && (gy >=? 0) && (gy <? h - 1)) eqn:E;
      [|reflexivity].
    exfalso. apply Hout.
    rewrite !andb_true_iff, !Z.geb_le, !Z.ltb_lt in E. lia.
Qed.

Lemma head_underwater_exact_witness :
  SandboxClient.head_underwater (NS := Exact.ops Exact.sqrt32) id (2, 2)
    (Some 1%Q, Some 1%Q) (Some <$> [0; 10; 1 # 2; -1]%Q)
    (Some (1 # 4)%Q, Some (1 # 2)%Q, Some 1%Q)
  = Some true.
Proof.
  destruct (head_underwater_exact Exact.sqrt32 2 2 1 1 [0; 10; 1 # 2; -1]%Q
              (1 # 4) (1 # 2) 1) as [Hin _].
  - discriminate.
  - discriminate.
  - reflexivity.
  - destruct Hin as (c0 & c1 & c2 & c3 & H0 & H1 & H2 & H3 & _ & _ & _ & _ & -> & _).
    + vm_compute. repeat split; discriminate.
    + injection H0 as <-. injection H1 as <-. injection H2 as <-.
      injection H3 as <-. vm_compute. reflexivity.
Defined.

(** ** Snapping a surface frame to the bathymetry *)

(** For a water table of at least 3 by 3 cells and a bathymetry grid of
    the size [init] allocates, [alignSurfaceFrame] reads no elevation
    outside the array, wherever the frame's origin is and whatever the
    arithmetic; the origin keeps its first two coordinates. *)
Theorem alignSurfaceFrame_in_bounds {F Sc : Type} {NS : Numeric Sc}
    (widen : F -> Sc) (gridSize : Z * Z) (cellSize : F * F)
    (bathymetry : list F) (base : Sc * Sc * Sc) :
  3 <= gridSize.1 -> 3 <= gridSize.2 ->
  Z.of_nat (length bathymetry) = (gridSize.2 - 1) * (gridSize.1 - 1) ->
  ∃ z, SandboxClient.alignSurfaceFrame widen gridSize cellSize bathymetry base
       = Some (SandboxClient.coord 0 base, SandboxClient.coord 1 base, z).
Proof.
  intros HW HH Hlen. unfold SandboxClient.alignSurfaceFrame. cbv zeta.
  set (gx := SandboxClient.Math_clamp _ 0 (gridSize.1 - 3)).
  set (gy := SandboxClient.Math_clamp _ 0 (gridSize.2 - 3)).
  assert (Hgx : 0 <= gx <= gridSize.1 - 3)
    by (apply Math_clamp_range; lia).
  assert (Hgy : 0 <= gy <= gridSize.2 - 3)
    by (apply Math_clamp_range; lia).
  destruct (cell_at_in_range bathymetry (gy * (gridSize.1 - 1) + gx) 0)
    as [c0 ->]; [nia|].
  destruct (cell_at_in_range bathymetry (gy * (gridSize.1 - 1) + gx) 1)
    as [c1 ->]; [nia|].
  destruct (cell_at_in_range bathymetry
              (gy * (gridSize.1 - 1) + gx + (gridSize.1 - 1)) 0)
    as [c2 ->]; [nia|].
  destruct (cell_at_in_range bathymetry
              (gy * (gridSize.1 - 1) + gx + (gridSize.1 - 1)) 1)
    as [c3 ->]; [nia|].
  cbn. eauto.
Qed.

Lemma alignSurfaceFrame_in_bounds_witness :
  ∃ z, SandboxClient.alignSurfaceFrame (NS := IEEE.binary64)
         (IEEE.widen 53 1024) Sample.gridSize4 Sample.cellSize32 Sample.flat
         Sample.above
       = Some (SandboxClient.coord 0 Sample.above,
               SandboxClient.coord 1 Sample.above, z).
Proof.
  apply (alignSurfaceFrame_in_bounds (NS := IEEE.binary64)).
  - simpl; lia.
  - simpl; lia.
  - reflexivity.
Defined.

Lemma inject_Z_pred (k : Z) : (inject_Z (k - 1) == inject_Z k - 1)%Q.
Proof. unfold Z.sub. rewrite inject_Z_plus. reflexivity. Qed.

Lemma Math_clamp_node (i n : Z) :
  3 <= n -> 0 <= i <= n - 2 ->
  SandboxClient.Math_clamp i 0 (n - 3) = i ∧ i <= n - 3
  ∨ SandboxClient.Math_clamp i 0 (n - 3) = i - 1 ∧ i = n - 2.
Proof.
  intros Hn Hi. unfold SandboxClient.Math_clamp.
  rewrite (proj2 (Z.ltb_ge i 0)) by lia.
  destruct (Z.gtb_spec i (n - 3)); [right|left]; lia.
Qed.

(** In exact arithmetic, on a water table of at least 3 by 3 cells: at
    the centre of the cell (i, j) of the bathymetry grid, for every
    sample of the grid including those of the last row and the last
    column, [alignSurfaceFrame] puts the origin at the elevation of that
    sample. *)
Theorem alignSurfaceFrame_at_samples (sq : Q -> Q) (w h : Z) (cs0 cs1 : Q)
    (grid : list Q) (i j : Z) (z : Q) :
  let x := ((inject_Z i + (1 # 2)) * cs0)%Q in
  let y := ((inject_Z j + (1 # 2)) * cs1)%Q in
  3 <= w -> 3 <= h -> ¬ (cs0 == 0)%Q -> ¬ (cs1 == 0)%Q ->
  Z.of_nat (length grid) = (h - 1) * (w - 1) ->
  0 <= i <= w - 2 -> 0 <= j <= h - 2 ->
  ∃ v z' : Q,
    grid !! Z.to_nat (j * (w - 1) + i) = Some v ∧
    SandboxClient.alignSurfaceFrame (NS := Exact.ops sq) id (w, h)
      (Some cs0, Some cs1) (Some <$> grid) (Some x, Some y, Some z)
    = Some (Some x, Some y, Some z') ∧
    (z' == v)%Q.
Proof.
  intros x y HW HH Hcs0 Hcs1 Hlen Hi Hj.
  assert (Ex : (x / cs0 - (1 # 2) == inject_Z i)%Q) by (unfold x; field; exact Hcs0).
  assert (Ey : (y / cs1 - (1 # 2) == inject_Z j)%Q) by (unfold y; field; exact Hcs1).
  assert (Efx : Qfloor (x / cs0 - (1 # 2)) = i) by (rewrite Ex; apply Qfloor_Z).
  assert (Efy : Qfloor (y / cs1 - (1 # 2)) = j) by (rewrite Ey; apply Qfloor_Z).
  set (gx := SandboxClient.Math_clamp i 0 (w - 3)).
  set (gy := SandboxClient.Math_clamp j 0 (h - 3)).
  assert (Eal :
    SandboxClient.alignSurfaceFrame (NS := Exact.ops sq) id (w, h)
      (Some cs0, Some cs1) (Some <$> grid) (Some x, Some y, Some z)
    = c0 ← SandboxClient.cell_at (Some <$> grid : list Exact.real)
             (gy * (w - 1) + gx) 0;
      c1 ← SandboxClient.cell_at (Some <$> grid : list Exact.real)
             (gy * (w - 1) + gx) 1;
      c2 ← SandboxClient.cell_at (Some <$> grid : list Exact.real)
             (gy * (w - 1) + gx + (w - 1)) 0;
      c3 ← SandboxClient.cell_at (Some <$> grid : list Exact.real)
             (gy * (w - 1) + gx + (w - 1)) 1;
      Some (Some x, Some y,
            SandboxClient.interpolate (NS := Exact.ops sq) c0 c1 c2 c3
              (Some (x / cs0 - (1 # 2) - inject_Z gx)%Q)
              (Some (y / cs1 - (1 # 2) - inject_Z gy)%Q))).
  { unfold SandboxClient.alignSurfaceFrame.
    cbn [fst snd SandboxClient.coord id]. cbv zeta.
    rewrite !ex_div by assumption. exact_ops.
    rewrite Efx, Efy. fold gx gy. rewrite !option_fmap_id. reflexivity. }
  assert (Hgx : 0 <= gx <= w - 3) by (apply Math_clamp_range; lia).
  assert (Hgy : 0 <= gy <= h - 3) by (apply Math_clamp_range; lia).
  destruct (lookup_lt_is_Some_2 grid (Z.to_nat (gy * (w - 1) + gx)) ltac:(nia))
    as [c0 H0].
  destruct (lookup_lt_is_Some_2 grid (Z.to_nat (gy * (w - 1) + gx + 1))
              ltac:(nia)) as [c1 H1].
  destruct (lookup_lt_is_Some_2 grid (Z.to_nat ((gy + 1) * (w - 1) + gx))
              ltac:(nia)) as [c2 H2].
  destruct (lookup_lt_is_Some_2 grid (Z.to_nat ((gy + 1) * (w - 1) + gx + 1))
              ltac:(nia)) as [c3 H3].
  rewrite (cell_at_some grid (gy * (w - 1) + gx) 0
             (Z.to_nat (gy * (w - 1) + gx)) c0 ltac:(nia)
             ltac:(f_equal; lia) H0) in Eal.
  rewrite (cell_at_some grid (gy * (w - 1) + gx) 1
             (Z.to_nat (gy * (w - 1) + gx + 1)) c1 ltac:(nia)
             ltac:(f_equal; lia) H1) in Eal.
  rewrite (cell_at_some grid (gy * (w - 1) + gx + (w - 1)) 0
             (Z.to_nat ((gy + 1) * (w - 1) + gx)) c2 ltac:(nia)
             ltac:(f_equal; lia) H2) in Eal.
  rewrite (cell_at_some grid (gy * (w - 1) + gx + (w - 1)) 1
             (Z.to_nat ((gy + 1) * (w - 1) + gx + 1)) c3 ltac:(nia)
             ltac:(f_equal; lia) H3) in Eal.
  cbn [mbind option_bind] in Eal. rewrite interpolate_exact in Eal.
  change (inject_Z 1) with 1%Q in Eal.
  destruct (Math_clamp_node i w HW Hi) as [[Egx Hix]|[Egx Hix]];
    destruct (Math_clamp_node j h HH Hj) as [[Egy Hjx]|[Egy Hjx]];
    fold gx in Egx; fold gy in Egy.
  - exists c0. eexists. split; [|split; [exact Eal|]].
    + rewrite <- H0. f_equal. rewrite Egx, Egy. reflexivity.
    + rewrite Ex, Ey, Egx, Egy. ring.
  - exists c2. eexists. split; [|split; [exact Eal|]].
    + rewrite <- H2. f_equal. rewrite Egx, Egy. lia.
    + rewrite Ex, Ey, Egx, Egy, ?inject_Z_pred. ring.
  - exists c1. eexists. split; [|split; [exact Eal|]].
    + rewrite <- H1. f_equal. rewrite Egx, Egy. lia.
    + rewrite Ex, Ey, Egx, Egy, ?inject_Z_pred. ring.
  - exists c3. eexists. split; [|split; [exact Eal|]].
    + rewrite <- H3. f_equal. rewrite Egx, Egy. lia.
    + rewrite Ex, Ey, Egx, Egy, ?inject_Z_pred. ring.
Qed.

Lemma alignSurfaceFrame_at_samples_witness :
  ∃ z' : Q,
    SandboxClient.alignSurfaceFrame (NS := Exact.ops Exact.sqrt32) id (3, 3)
      (Some 1%Q, Some 1%Q) (Some <$> [1; 2; 3; 4]%Q)
      (Some ((inject_Z 1 + (1 # 2)) * 1)%Q, Some ((inject_Z 1 + (1 # 2)) * 1)%Q,
       Some 0%Q)
    = Some (Some ((inject_Z 1 + (1 # 2)) * 1)%Q,
            Some ((inject_Z 1 + (1 # 2)) * 1)%Q, Some z') ∧
    (z' == 4)%Q.
Proof.
  destruct (alignSurfaceFrame_at_samples Exact.sqrt32 3 3 1 1 [1; 2; 3; 4]%Q
              1 1 0) as (v & z' & Hv & E & Hz); try lia; try discriminate.
  - reflexivity.
  - exists z'. split; [exact E|]. injection Hv as <-. exact Hz.
Defined.

(** ** A vertical segment meets the surface where the frame is snapped *)

Section Vertical.
Variable sq : Q -> Q.
Variables w h : Z.
Variable grid : list Q.

(** The coefficients of the cell (i, j) for a vertical segment. *)
Lemma vertical_coefficients (gx gy z0 dz : Q) (i j : Z) (c0 c1 c2 c3 : Q) :
  1 <= w -> 0 <= i -> 0 <= j ->
  grid !! Z.to_nat (j * (w - 1) + i) = Some c0 ->
  grid !! Z.to_nat (j * (w - 1) + i + 1) = Some c1 ->
  grid !! Z.to_nat ((j + 1) * (w - 1) + i) = Some c2 ->
  grid !! Z.to_nat ((j + 1) * (w - 1) + i + 1) = Some c3 ->
  ∃ a b c : Q,
    SandboxClient.coefficients (NS := Exact.ops sq) id (w, h)
      (Some <$> grid : list Exact.real)
      (Some gx, Some gy, Some z0) (Some (gx - gx)%Q, Some (gy - gy)%Q, Some dz)
      (i, j)
    = Some (Some a, Some b, Some c) ∧
    (a == 0)%Q ∧ (b == - dz)%Q ∧
    (c == (c0 * (1 - (gx - inject_Z i)) + c1 * (gx - inject_Z i))
          * (1 - (gy - inject_Z j))
          + (c2 * (1 - (gx - inject_Z i)) + c3 * (gx - inject_Z i))
            * (gy - inject_Z j) - z0)%Q.
Proof.
  intros Hw Hi Hj H0 H1 H2 H3.
  unfold SandboxClient.coefficients. cbn [fst snd].
  rewrite (cell_at_some grid (j * (w - 1) + i) 0
             (Z.to_nat (j * (w - 1) + i)) c0 ltac:(nia) ltac:(f_equal; lia) H0).
  rewrite (cell_at_some grid (j * (w - 1) + i) 1
             (Z.to_nat (j * (w - 1) + i + 1)) c1 ltac:(nia) ltac:(f_equal; lia) H1).
  rewrite (cell_at_some grid (j * (w - 1) + i) (w - 1)
             (Z.to_nat ((j + 1) * (w - 1) + i)) c2 ltac:(nia) ltac:(f_equal; lia) H2).
  rewrite (cell_at_some grid (j * (w - 1) + i) w
             (Z.to_nat ((j + 1) * (w - 1) + i + 1)) c3 ltac:(nia)
             ltac:(f_equal; lia) H3).
  cbn. eexists _, _, _. split; [reflexivity|].
  rewrite !inject_Z_plus. change (inject_Z 1) with 1%Q.
  repeat split; ring.
Qed.
End Vertical.

(** In exact arithmetic, on a water table of at least 3 by 3 cells and
    for a vertical segment over the grid from elevation z0 to a
    different elevation z1: with B the elevation [alignSurfaceFrame]
    snaps a frame at the segment's position to, [intersectLine] returns
    the parameter (B-z0)/(z1-z0) of the point of the segment at
    elevation B when that parameter is at least 0 and below 1, and
    returns 1 otherwise. *)
Theorem intersectLine_vertical_meets_surface (sq : Q -> Q) (w h : Z)
    (cs0 cs1 : Q) (grid : list Q) (x0 y0 z0 z1 B : Q) (fuel : nat) :
  let gx := (x0 / cs0 - (1 # 2))%Q in
  let gy := (y0 / cs1 - (1 # 2))%Q in
  let il := ((B - z0) / (z1 - z0))%Q in
  let hit :=
    SandboxClient.intersectLine (NS := Exact.ops sq) id (w, h)
      (Some cs0, Some cs1) (Some <$> grid) (S fuel)
      (Some x0, Some y0, Some z0) (Some x0, Some y0, Some z1) in
  3 <= w -> 3 <= h ->
  Z.of_nat (length grid) = (h - 1) * (w - 1) ->
  ¬ (cs0 == 0)%Q -> ¬ (cs1 == 0)%Q ->
  (0 <= gx)%Q -> (gx <= inject_Z (w - 2))%Q ->
  (0 <= gy)%Q -> (gy <= inject_Z (h - 2))%Q ->
  ¬ (z1 == z0)%Q ->
  SandboxClient.alignSurfaceFrame (NS := Exact.ops sq) id (w, h)
    (Some cs0, Some cs1) (Some <$> grid) (Some x0, Some y0, Some z0)
  = Some (Some x0, Some y0, Some B) ->
  ((0 <= il)%Q ∧ (il < 1)%Q ->
   ∃ l : Q, hit = SandboxClient.Lambda (Some l) ∧
            (l == il)%Q ∧ (z0 + l * (z1 - z0) == B)%Q) ∧
  (¬ ((0 <= il)%Q ∧ (il < 1)%Q) ->
   hit = SandboxClient.Lambda (Some (inject_Z 1))).
Proof.
  intros gx gy il hit HW HH Hlen Hc0 Hc1 Hx0 Hx1 Hy0 Hy1 Hdz Halign.
  (* the cell and the four samples of [alignSurfaceFrame] *)
  set (i := SandboxClient.Math_clamp (Qfloor gx) 0 (w - 3)).
  set (j := SandboxClient.Math_clamp (Qfloor gy) 0 (h - 3)).
  assert (Hi : 0 <= i <= w - 3) by (apply Math_clamp_range; lia).
  assert (Hj : 0 <= j <= h - 3) by (apply Math_clamp_range; lia).
  destruct (lookup_lt_is_Some_2 grid (Z.to_nat (j * (w - 1) + i)) ltac:(nia))
    as [c0 H0].
  destruct (lookup_lt_is_Some_2 grid (Z.to_nat (j * (w - 1) + i + 1))
              ltac:(nia)) as [c1 H1].
  destruct (lookup_lt_is_Some_2 grid (Z.to_nat ((j + 1) * (w - 1) + i))
              ltac:(nia)) as [c2 H2].
  destruct (lookup_lt_is_Some_2 grid (Z.to_nat ((j + 1) * (w - 1) + i + 1))
              ltac:(nia)) as [c3 H3].
  assert (EB : B = ((c0 * (inject_Z 1 - (gx - inject_Z i))
                     + c1 * (gx - inject_Z i)) * (inject_Z 1 - (gy - inject_Z j))
                    + (c2 * (inject_Z 1 - (gx - inject_Z i))
                       + c3 * (gx - inject_Z i)) * (gy - inject_Z j))%Q).
  { revert Halign. unfold SandboxClient.alignSurfaceFrame.
    cbn [fst snd SandboxClient.coord id]. cbv zeta.
    rewrite !ex_div by assumption. exact_ops. fold gx gy. fold i j.
    rewrite !option_fmap_id.
    rewrite (cell_at_some grid (j * (w - 1) + i) 0
               (Z.to_nat (j * (w - 1) + i)) c0 ltac:(nia)
               ltac:(f_equal; lia) H0).
    rewrite (cell_at_some grid (j * (w - 1) + i) 1
               (Z.to_nat (j * (w - 1) + i + 1)) c1 ltac:(nia)
               ltac:(f_equal; lia) H1).
    rewrite (cell_at_some grid (j * (w - 1) + i + (w - 1)) 0
               (Z.to_nat ((j + 1) * (w - 1) + i)) c2 ltac:(nia)
               ltac:(f_equal; lia) H2).
    rewrite (cell_at_some grid (j * (w - 1) + i + (w - 1)) 1
               (Z.to_nat ((j + 1) * (w - 1) + i + 1)) c3 ltac:(nia)
               ltac:(f_equal; lia) H3).
    cbn [mbind option_bind]. rewrite interpolate_exact.
    intros [= <-]. reflexivity. }
  (* the walk of [intersectLine] *)
  assert (Ehit : ∃ a b c : Q,
    (a == 0)%Q ∧ (b == - (z1 - z0))%Q ∧ (c == B - z0)%Q ∧
    hit = (let ilc := @ndiv _ (Exact.ops sq) (Some (- c)%Q) (Some b) in
           if SandboxClient.valid (NS := Exact.ops sq)
                (Some (inject_Z 0)) (Some (inject_Z 1)) ilc
           then SandboxClient.Lambda ilc
           else SandboxClient.Lambda (Some (inject_Z 1)))).
  { unfold hit, SandboxClient.intersectLine, SandboxClient.intersectLine_trace.
    unfold SandboxClient.to_grid, SandboxClient.difference, id.
    cbn [SandboxClient.coord fst snd].
    rewrite !(ex_div sq _ _ Hc0), !(ex_div sq _ _ Hc1).
    exact_ops. fold gx gy.
    match goal with |- context [SandboxClient.clip _ ?p ?q ?d] =>
      set (gp0 := p); set (gp1 := q); set (gd := d)
    end.
    assert (Hclip : SandboxClient.clip (NS := Exact.ops sq) (w, h) gp0 gp1 gd
                    = Some (Some (inject_Z 0), Some (inject_Z 1))).
    { unfold SandboxClient.clip, SandboxClient.clip_axis,
        SandboxClient.clip_lower, SandboxClient.clip_upper, SandboxClient.dim.
      cbn [SandboxClient.coord fst snd gp0 gp1 gd].
      exact_ops.
      rewrite !(Qltb_false gx (inject_Z 0) Hx0).
      rewrite !(Qltb_false _ gx Hx1). cbn [mbind option_bind].
      rewrite !(Qltb_false gy (inject_Z 0) Hy0).
      rewrite !(Qltb_false _ gy Hy1). reflexivity. }
    rewrite Hclip. exact_ops.
    change (Qle_bool (inject_Z 1) (inject_Z 0)) with false. cbv iota.
    unfold SandboxClient.affineCombination.
    cbn [SandboxClient.coord fst snd gp0 gp1 SandboxClient.dim]. exact_ops.
    replace (Qfloor (gx * (inject_Z 1 - inject_Z 0) + gx * inject_Z 0))
      with (Qfloor gx)
      by (apply Qfloor_comp; change (inject_Z 1) with 1%Q;
          change (inject_Z 0) with 0%Q; ring).
    replace (Qfloor (gy * (inject_Z 1 - inject_Z 0) + gy * inject_Z 0))
      with (Qfloor gy)
      by (apply Qfloor_comp; change (inject_Z 1) with 1%Q;
          change (inject_Z 0) with 0%Q; ring).
    fold i j.
    cbn [SandboxClient.walk]. exact_ops.
    change (Exact.Qltb (inject_Z 0) (inject_Z 1)) with true. cbv iota.
    assert (Hexit : SandboxClient.cell_exit (NS := Exact.ops sq) gp0 gp1 gd (i, j)
                      (Some (inject_Z 1))
                    = (Some (inject_Z 1), None)).
    { unfold SandboxClient.cell_exit, SandboxClient.exit_axis.
      cbn [SandboxClient.coord fst snd gp0 gp1 gd]. exact_ops.
      rewrite !(Qltb_false gx gx (Qle_refl _)). exact_ops.
      change (Exact.Qltb (inject_Z 1) (inject_Z 1)) with false. cbv iota.
      cbn [fst snd]. exact_ops.
      rewrite !(Qltb_false gy gy (Qle_refl _)). exact_ops.
      change (Exact.Qltb (inject_Z 1) (inject_Z 1)) with false. reflexivity. }
    rewrite Hexit.
    destruct (vertical_coefficients sq w h grid gx gy z0 (z1 - z0)%Q i j
                c0 c1 c2 c3 ltac:(lia) ltac:(lia) ltac:(lia) H0 H1 H2 H3)
      as (a & b & c & Hco & Ha & Hb & Hc).
    change (λ x : Exact.real, x) with (@id Exact.real).
    match goal with |- context [SandboxClient.coefficients ?ww ?g ?l ?p ?d ?ij] =>
      assert (E : SandboxClient.coefficients (NS := Exact.ops sq) ww g l p d ij
                  = Some (Some a, Some b, Some c)) by exact Hco;
      rewrite E; clear E
    end.
    exists a, b, c. split; [exact Ha|]. split; [exact Hb|].
    split; [rewrite Hc, EB; reflexivity|].
    unfold SandboxClient.solve. exact_ops.
    rewrite (proj2 (Qeq_bool_iff a (inject_Z 0)) Ha). cbn [negb]. cbv zeta.
    destruct (SandboxClient.valid _ _ _); [reflexivity|].
    cbn [SandboxClient.next_cell snd].
    destruct fuel; cbn [SandboxClient.walk]; exact_ops;
      change (Exact.Qltb (inject_Z 1) (inject_Z 1)) with false; reflexivity. }
  destruct Ehit as (a & b & c & Ha & Hb & Hc & Ehit).
  assert (Hb0 : ¬ (b == 0)%Q) by (intros E; rewrite Hb in E; apply Hdz; lra).
  rewrite (ex_div sq _ _ Hb0) in Ehit. cbv zeta in Ehit.
  unfold SandboxClient.valid in Ehit. rewrite ex_leb, ex_ltb in Ehit.
  assert (Hil : (- c / b == il)%Q).
  { unfold il. rewrite Hb, Hc. field. intros E. apply Hdz. lra. }
  change (inject_Z 0) with 0%Q in Ehit. change (inject_Z 1) with 1%Q in Ehit.
  split.
  - intros [Hlo Hhi]. exists (- c / b)%Q.
    rewrite Ehit.
    rewrite (Qle_bool_true 0 (- c / b)) by (rewrite Hil; exact Hlo).
    rewrite (Qltb_true (- c / b) 1) by (rewrite Hil; exact Hhi).
    split; [reflexivity|]. split; [exact Hil|].
    rewrite Hil. unfold il. field. intros E. apply Hdz. lra.
  - intros Hout. rewrite Ehit.
    destruct (Qle_bool 0 (- c / b)) eqn:E1; [|reflexivity].
    destruct (Exact.Qltb (- c / b) 1) eqn:E2; [|reflexivity].
    exfalso. apply Hout. rewrite <- Hil. split.
    + now apply Qle_bool_iff.
    + unfold Exact.Qltb in E2. apply negb_true_iff in E2.
      apply Qnot_le_lt. intros Hc'. apply Qle_bool_iff in Hc'. congruence.
Qed.

Lemma intersectLine_vertical_witness :
  ∃ l : Q,
    SandboxClient.intersectLine (NS := Exact.ops Exact.sqrt32) id (4, 4)
      (Some 1%Q, Some 1%Q) (Some <$> [1; 2; 3; 4; 5; 6; 7; 8; 9]%Q) 1
      (Some 2%Q, Some (9 # 4)%Q, Some 10%Q) (Some 2%Q, Some (9 # 4)%Q, Some 1%Q)
    = SandboxClient.Lambda (Some l) ∧
    (l == 1 # 4)%Q.
Proof.
  destruct (intersectLine_vertical_meets_surface Exact.sqrt32 4 4 1 1
              [1; 2; 3; 4; 5; 6; 7; 8; 9]%Q 2 (9 # 4) 10 1 (7936 # 1024) 0)
    as [Hhit _]; try lia; try discriminate.
  - reflexivity.
  - vm_compute; reflexivity.
  - destruct Hhit as (l & E & Hl & _).
    + split; [discriminate|reflexivity].
    + exists l. split; [exact E|]. rewrite Hl. reflexivity.
Defined.

(** * The teleport tool *)

Section CastArc.
Context {Sc : Type} {NS : Numeric Sc}.
Variable intersectLine : Sc * Sc * Sc -> Sc * Sc * Sc -> Sc.
Local Open Scope num_scope.

Lemma cast_loop_shape (n : nat) :
  ∀ (cp cv ca : Sc * Sc * Sc) (acc : list (Sc * Sc * Sc)),
  let pts k := (TeleportTool.flight k cp cv ca).1 in
  let lam k := intersectLine (pts k) (pts (S k)) in
  (∃ k, (k < n)%nat ∧
        (∀ i, (i < k)%nat -> (lam i <? of_int 1) = false) ∧
        (lam k <? of_int 1) = true ∧
        TeleportTool.cast_loop intersectLine n cp cv ca acc
        = acc ++ map pts (seq 0 (S k))
              ++ [SandboxClient.affineCombination (pts k) (pts (S k)) (lam k)])
  ∨ ((∀ i, (i < n)%nat -> (lam i <? of_int 1) = false) ∧
     TeleportTool.cast_loop intersectLine n cp cv ca acc
     = acc ++ map pts (seq 0 n)).
Proof.
  induction n as [|n IH]; intros cp cv ca acc pts lam.
  - right. split; [intros i Hi; lia|]. cbn. now rewrite app_nil_r.
  - cbn [TeleportTool.cast_loop]. cbv zeta.
    set (cpn := TeleportTool.plus cp (TeleportTool.scaled cv TeleportTool.literal_0_05)).
    set (cvn := TeleportTool.plus cv (TeleportTool.scaled ca TeleportTool.literal_0_05)).
    assert (Hshift : ∀ k, pts (S k) = (TeleportTool.flight k cpn cvn ca).1)
      by reflexivity.
    cbv iota.
    destruct (intersectLine cp cpn <? of_int 1) eqn:Hhit.
    + left. exists O. split; [lia|]. split; [intros i Hi; lia|].
      split; [exact Hhit|]. rewrite <- app_assoc. reflexivity.
    + destruct (IH cpn cvn ca (acc ++ [cp]))
        as [(k & Hk & Hno & Hyes & E)|[Hno E]].
      * left. exists (S k). split; [lia|]. split.
        { intros [|i] Hi; [exact Hhit|]. unfold lam. rewrite !Hshift.
          apply Hno. lia. }
        split; [unfold lam; rewrite !Hshift; exact Hyes|].
        etransitivity; [exact E|]. rewrite <- app_assoc. f_equal.
        change (seq 0 (S (S k))) with (0%nat :: seq 1 (S k)).
        rewrite <- (fmap_S_seq 0 (S k)). cbn [map app].
        unfold lam. rewrite !Hshift. f_equal. f_equal.
        rewrite <- list_fmap_compose. reflexivity.
      * right. split.
        { intros [|i] Hi; [exact Hhit|]. unfold lam. rewrite !Hshift.
          apply Hno. lia. }
        etransitivity; [exact E|]. rewrite <- app_assoc. f_equal.
        change (seq 0 (S n)) with (0%nat :: seq 1 n).
        rewrite <- (fmap_S_seq 0 n). cbn [map app]. f_equal.
        rewrite <- list_fmap_compose. reflexivity.
Qed.
End CastArc.

(** Whatever the arithmetic and whatever [intersectLine] returns, the
    arc [frame] casts is the free-flight positions of the steps up to
    the first one whose segment [intersectLine] reports hit (a result
    below 1), followed by the point of that segment at the returned
    parameter; with no hit in 100 steps it is the first 100 positions.
    It is never empty and has at most 101 points. *)
Theorem cast_arc_ends_at_first_hit {Sc : Type} {NS : Numeric Sc}
    (intersectLine : Sc * Sc * Sc -> Sc * Sc * Sc -> Sc)
    (cp cv ca : Sc * Sc * Sc) :
  let pts k := (TeleportTool.flight k cp cv ca).1 in
  let lam k := intersectLine (pts k) (pts (S k)) in
  let arc := TeleportTool.cast_loop intersectLine 100 cp cv ca [] in
  ((∃ k, (k < 100)%nat ∧
         (∀ i, (i < k)%nat -> (lam i <? of_int 1)%num = false) ∧
         (lam k <? of_int 1)%num = true ∧
         arc = map pts (seq 0 (S k))
               ++ [SandboxClient.affineCombination (pts k) (pts (S k)) (lam k)])
   ∨ ((∀ i, (i < 100)%nat -> (lam i <? of_int 1)%num = false) ∧
      arc = map pts (seq 0 100))) ∧
  (1 <= length arc <= 101)%nat.
Proof.
  intros pts lam arc.
  destruct (cast_loop_shape intersectLine 100 cp cv ca [])
    as [(k & Hk & Hno & Hyes & E)|[Hno E]]; cbn [app] in E.
  - split; [left; exists k; auto|].
    assert (Earc : arc = map pts (seq 0 (S k))
              ++ [SandboxClient.affineCombination (pts k) (pts (S k)) (lam k)])
      by exact E.
    rewrite Earc, length_app, length_map, length_seq. cbn. lia.
  - split; [right; auto|].
    assert (Earc : arc = map pts (seq 0 100)) by exact E.
    rewrite Earc, length_map, length_seq. lia.
Qed.

(** In exact arithmetic the free-flight positions lie on a parabola:
    after k steps the position is p + k*d*v + (k*(k-1)/2)*d*d*a in
    each coordinate, with d = 1/20. *)
Theorem flight_parabola (sq : Q -> Q) (k : nat) :
  ∀ (px py pz vx vy vz ax ay az : Q),
  ∃ qx qy qz ux uy uz : Q,
    TeleportTool.flight (NS := Exact.ops sq) k
      (Some px, Some py, Some pz) (Some vx, Some vy, Some vz)
      (Some ax, Some ay, Some az)
    = ((Some qx, Some qy, Some qz), (Some ux, Some uy, Some uz)) ∧
    let n := inject_Z (Z.of_nat k) in
    let d := (1 # 20)%Q in
    (qx == px + n * d * vx + n * (n - 1) / 2 * d * d * ax)%Q ∧
    (qy == py + n * d * vy + n * (n - 1) / 2 * d * d * ay)%Q ∧
    (qz == pz + n * d * vz + n * (n - 1) / 2 * d * d * az)%Q ∧
    (ux == vx + n * d * ax)%Q ∧ (uy == vy + n * d * ay)%Q ∧
    (uz == vz + n * d * az)%Q.
Proof.
  induction k as [|k IH]; intros px py pz vx vy vz ax ay az.
  - exists px, py, pz, vx, vy, vz. split; [reflexivity|].
    cbn. repeat split; field.
  - cbn [TeleportTool.flight].
    destruct (IH (px + vx * (inject_Z 5 / inject_Z 100))%Q
                 (py + vy * (inject_Z 5 / inject_Z 100))%Q
                 (pz + vz * (inject_Z 5 / inject_Z 100))%Q
                 (vx + ax * (inject_Z 5 / inject_Z 100))%Q
                 (vy + ay * (inject_Z 5 / inject_Z 100))%Q
                 (vz + az * (inject_Z 5 / inject_Z 100))%Q ax ay az)
      as (qx & qy & qz & ux & uy & uz & E & Hx & Hy & Hz & Hux & Huy & Huz).
    exists qx, qy, qz, ux, uy, uz. split; [exact E|].
    rewrite Nat2Z.inj_succ. unfold Z.succ. rewrite inject_Z_plus.
    cbv zeta in *.
    assert (Em : (inject_Z 5 / inject_Z 100 == 1 # 20)%Q) by reflexivity.
    rewrite Em in Hx, Hy, Hz, Hux, Huy, Huz.
    change (inject_Z 1) with 1%Q.
    rewrite Hx, Hy, Hz, Hux, Huy, Huz. repeat split; field.
Qed.

Section ToolStates.
Context {Sc : Type} {NS : Numeric Sc}.
Variable intersectLine : Sc * Sc * Sc -> Sc * Sc * Sc -> Sc.

Lemma buttonCallback_cast_active i b g (t t' : TeleportTool.Tool Sc) r :
  (TeleportTool.cast t = true -> TeleportTool.active t = true) ->
  TeleportTool.buttonCallback i b g t = Some (t', r) ->
  TeleportTool.cast t' = true -> TeleportTool.active t' = true.
Proof.
  intros Hinv. unfold TeleportTool.buttonCallback.
  destruct i as [|[p|p|]|p]; try (intros [= <- _]; exact Hinv).
  - destruct b; [|intros [= <- _]; exact Hinv].
    destruct (TeleportTool.active t) eqn:Ha.
    + destruct (TeleportTool.cast t) eqn:Hc; cbn [negb].
      * intros [= <- _]. rewrite Ha. auto.
      * intros [= <- _]. cbn. congruence.
    + destruct g; intros [= <- _]; cbn; auto.
      rewrite Ha. exact Hinv.
  - destruct (TeleportTool.active t) eqn:Ha; [|intros [= <- _]; rewrite Ha; exact Hinv].
    destruct b; [intros [= <- _]; reflexivity|].
    destruct (last (TeleportTool.castArc t)); [|discriminate].
    cbn. intros [= <- _]. cbn. discriminate.
Qed.

Lemma cast_loop_nonempty cp cv ca :
  TeleportTool.cast_loop intersectLine 100 cp cv ca [] ≠ [].
Proof.
  destruct (cast_loop_shape intersectLine 100 cp cv ca [])
    as [(k & _ & _ & _ & E)|[_ E]]; rewrite E; cbn [app].
  - intros Hnil. apply (f_equal length) in Hnil.
    rewrite length_app, length_map, length_seq in Hnil.
    cbn [length] in Hnil. lia.
  - intros Hnil. apply (f_equal length) in Hnil.
    rewrite length_map, length_seq in Hnil. cbn [length] in Hnil. lia.
Qed.

End ToolStates.

(** In every state the teleport tool reaches, through button events and
    frames in any order and whatever [activate] answers: while the
    teleport button is held ([cast]) the tool is active, so the toggle
    button cannot deactivate it; and after a frame in that state the arc
    is not empty, so [display] draws it and the release of the button
    teleports to its last point and ends the cast. *)
Theorem cast_implies_active {Sc : Type} {NS : Numeric Sc}
    (intersectLine : Sc * Sc * Sc -> Sc * Sc * Sc -> Sc)
    (t : TeleportTool.Tool Sc) :
  TeleportTool.reachable intersectLine t ->
  (TeleportTool.cast t = true -> TeleportTool.active t = true) ∧
  (TeleportTool.cast t = true ->
   ∀ g r, TeleportTool.buttonCallback 0 true g t = Some r -> r = (t, None)) ∧
  (TeleportTool.cast t = true ->
   ∀ cp cv ca g,
     let t1 := TeleportTool.frame intersectLine cp cv ca t in
     ∃ back,
       last (TeleportTool.castArc t1) = Some back ∧
       TeleportTool.display t1 = Some (TeleportTool.castArc t1 ++ [back]) ∧
       TeleportTool.buttonCallback 1 false g t1
       = Some (TeleportTool.mkTool true false (TeleportTool.castArc t1),
               Some back)).
Proof.
  intros Hreach.
  assert (Hinv : TeleportTool.cast t = true -> TeleportTool.active t = true).
  { induction Hreach as [|t ev t' Hr IH Hex]; [discriminate|].
    destruct ev as [i b g|cp cv ca]; unfold TeleportTool.exec in Hex.
    - destruct (TeleportTool.buttonCallback i b g t) as [[t1 r]|] eqn:E;
        [|discriminate].
      cbn [fmap option_fmap option_map fst] in Hex. injection Hex as <-. exact (buttonCallback_cast_active i b g t t1 r IH E).
    - injection Hex as <-. unfold TeleportTool.frame.
      destruct (TeleportTool.active t) eqn:Ha; [|rewrite Ha; exact IH].
      destruct (TeleportTool.cast t);
        cbn [TeleportTool.cast TeleportTool.active]; auto. }
  split; [exact Hinv|]. split.
  - intros Hc g r. unfold TeleportTool.buttonCallback.
    rewrite (Hinv Hc), Hc. cbn. now intros [= <-].
  - intros Hc cp cv ca g t1.
    assert (Et1 : t1 = TeleportTool.mkTool true true
                         (TeleportTool.cast_loop intersectLine 100 cp cv ca [])).
    { unfold t1, TeleportTool.frame. rewrite (Hinv Hc), Hc. reflexivity. }
    pose proof (cast_loop_nonempty intersectLine cp cv ca) as Hne.
    destruct (last (TeleportTool.cast_loop intersectLine 100 cp cv ca []))
      as [back|] eqn:El; [|apply last_None in El; contradiction].
    exists back. rewrite Et1.
    unfold TeleportTool.display, TeleportTool.buttonCallback.
    cbn [TeleportTool.active TeleportTool.cast TeleportTool.castArc andb].
    rewrite El. cbn [mbind option_bind]. auto.
Qed.

Lemma cast_implies_active_witness :
  TeleportTool.active
    (TeleportTool.mkTool (Sc := spec_float) true true []) = true.
Proof.
  apply (cast_implies_active (NS := IEEE.binary64) (λ _ _, S754_zero false)
           (TeleportTool.mkTool true true [])).
  - eapply TeleportTool.reach_step with (ev := TeleportTool.Button 1 true false).
    + eapply TeleportTool.reach_step with (ev := TeleportTool.Button 0 true true).
      * apply TeleportTool.reach_init.
      * reflexivity.
    + reflexivity.
  - reflexivity.
Defined.

(** The release of the teleport button on an active tool reads
    [castArc.back()] whether or not a cast is under way: it is defined
    exactly when the arc is not empty, and the tool reaches an active
    state with an empty arc (the teleport button pressed before the tool
    is activated, then released). *)
Theorem release_reads_the_arc {Sc : Type} {NS : Numeric Sc}
    (intersectLine : Sc * Sc * Sc -> Sc * Sc * Sc -> Sc) :
  (∀ (t : TeleportTool.Tool Sc) g,
     TeleportTool.active t = true ->
     (is_Some (TeleportTool.buttonCallback 1 false g t)
      ↔ TeleportTool.castArc t ≠ [])) ∧
  (∃ t : TeleportTool.Tool Sc,
     TeleportTool.reachable intersectLine t ∧
     TeleportTool.exec intersectLine (TeleportTool.Button 1 true false)
       TeleportTool.TeleportTool
     = Some TeleportTool.TeleportTool ∧
     TeleportTool.exec intersectLine (TeleportTool.Button 0 true true)
       TeleportTool.TeleportTool
     = Some t ∧
     ∀ g, TeleportTool.exec intersectLine (TeleportTool.Button 1 false g) t
          = None).
Proof.
  split.
  - intros t g Ha. unfold TeleportTool.buttonCallback. rewrite Ha.
    destruct (last (TeleportTool.castArc t)) as [back|] eqn:El; cbn.
    + split; [|eauto]. intros _ Hnil. rewrite Hnil in El. discriminate.
    + apply last_None in El. split; [intros [? ?]; discriminate|].
      intros Hne. contradiction.
  - exists (TeleportTool.mkTool true false []).
    split; [|split; [reflexivity|split; [reflexivity|reflexivity]]].
    eapply TeleportTool.reach_step with (ev := TeleportTool.Button 0 true true).
    + apply TeleportTool.reach_init.
    + reflexivity.
Qed.

(** * Roots of the quadratic [intersectLine] solves in a cell *)

(** ** Roots of the quadratic *)

Lemma root_over_a (a b c d l n : Q) :
  (d * d == b * b - 4 * a * c)%Q -> ¬ (a == 0)%Q ->
  (n == - b - d)%Q ∨ (n == - b + d)%Q ->
  l = (n / (2 * a))%Q ->
  (a * l * l + b * l + c == 0)%Q.
Proof.
  intros Hd Ha Hn ->.
  assert (H2a : ¬ (2 * a == 0)%Q) by (intros E; apply Ha; lra).
  set (l := (n / (2 * a))%Q).
  assert (Hl : (l * (2 * a) == n)%Q) by (unfold l; field; exact Ha).
  assert (H4 : (4 * a * (a * l * l + b * l + c)
                == (l * (2 * a) + b) * (l * (2 * a) + b) - (b * b - 4 * a * c))%Q)
    by ring.
  rewrite Hl, <- Hd in H4.
  assert (H0 : ((n + b) * (n + b) - d * d == 0)%Q)
    by (destruct Hn as [-> | ->]; ring).
  rewrite H0 in H4. apply Qmult_integral in H4 as [H4|H4]; [|exact H4].
  exfalso. apply Ha. lra.
Qed.

Lemma root_over_c (a b c d l e : Q) :
  (d * d == b * b - 4 * a * c)%Q -> ¬ (e == 0)%Q ->
  (e == - b - d)%Q ∨ (e == - b + d)%Q ->
  l = (2 * c / e)%Q ->
  (a * l * l + b * l + c == 0)%Q.
Proof.
  intros Hd He Hn ->.
  set (l := (2 * c / e)%Q).
  assert (Hl : (l * e == 2 * c)%Q) by (unfold l; field; exact He).
  assert (H4 : (e * e * (a * l * l + b * l + c)
                == a * (l * e) * (l * e) + b * (l * e) * e + c * (e * e))%Q)
    by ring.
  rewrite Hl in H4.
  assert (H0 : (a * (2 * c) * (2 * c) + b * (2 * c) * e + c * (e * e)
                == c * ((e + b) * (e + b) - (b * b - 4 * a * c)))%Q) by ring.
  rewrite H0, <- Hd in H4.
  assert (H1 : ((e + b) * (e + b) - d * d == 0)%Q)
    by (destruct Hn as [-> | ->]; ring).
  rewrite H1, Qmult_0_r in H4.
  apply Qmult_integral in H4 as [H4|H4]; [|exact H4].
  apply Qmult_integral in H4 as [H4|H4]; contradiction.
Qed.

Section Sound.
Variable sq : Q -> Q.

Lemma ex_div_cases (n m : Q) :
  @ndiv _ (Exact.ops sq) (Some n) (Some m)
  = if Qeq_bool m 0 then None else Some (n / m)%Q.
Proof. reflexivity. Qed.

Lemma ex_sqrt_cases (x : Q) :
  @nsqrt _ (Exact.ops sq) (Some x)
  = if Qle_bool 0 x then Some (sq x) else None.
Proof. reflexivity. Qed.

Lemma valid_defined (cl0 cl1 il : Exact.real) :
  SandboxClient.valid (NS := Exact.ops sq) cl0 cl1 il = true ->
  ∃ l0 l1 l : Q, cl0 = Some l0 ∧ cl1 = Some l1 ∧ il = Some l ∧
                 (l0 <= l)%Q ∧ (l < l1)%Q.
Proof.
  unfold SandboxClient.valid. intros Hv. apply andb_true_iff in Hv as [H1 H2].
  destruct cl0 as [l0|], cl1 as [l1|], il as [l|]; try discriminate.
  exists l0, l1, l. repeat split; try reflexivity.
  - apply Qle_bool_iff. exact H1.
  - cbn in H2. unfold Exact.Qltb in H2. apply negb_true_iff in H2.
    apply Qnot_le_lt. intros Hc. apply Qle_bool_iff in Hc. congruence.
Qed.

(** A valid candidate of [solve] is a root of a*l*l + b*l + c, when the
    root of the discriminant is exact. *)
Lemma solve_root (a b c : Q) (cl0 cl1 : Exact.real) (l : Q) :
  SandboxClient.solve (NS := Exact.ops sq) cl0 cl1 (Some a, Some b, Some c)
  = Some l ->
  SandboxClient.valid (NS := Exact.ops sq) cl0 cl1 (Some l) = true ->
  exact_root sq a b c ->
  (a * l * l + b * l + c == 0)%Q.
Proof.
  intros Hs Hv Hsq.
  destruct (valid_defined _ _ _ Hv) as (l0 & l1 & l' & -> & -> & [= <-] & Hlo & Hhi).
  revert Hs. unfold SandboxClient.solve. exact_ops.
  destruct (Qeq_bool a (inject_Z 0)) eqn:Ea; cbn [negb].
  - (* the linear equation *)
    rewrite ex_div_cases.
    destruct (Qeq_bool b 0) eqn:Eb; [discriminate|].
    intros [= <-]. apply Qeq_bool_iff in Ea. change (inject_Z 0) with 0%Q in Ea.
    rewrite Ea. field. intros E. apply Qeq_bool_neq in Eb. contradiction.
  - assert (Ha : ¬ (a == 0)%Q) by (apply Qeq_bool_neq; exact Ea).
    cbv zeta.
    destruct (Qle_bool (inject_Z 0) (b * b - inject_Z 4 * a * c)) eqn:Edet.
    2:{ intros [= ->]. lra. }
    rewrite ex_sqrt_cases. change (inject_Z 0) with 0%Q in Edet. rewrite Edet.
    apply Qle_bool_iff in Edet.
    destruct Hsq as [Hsq|Hd]; [contradiction|].
    change (inject_Z 4) with 4%Q.
    set (d := sq (b * b - 4 * a * c)) in *.
    exact_ops. rewrite !ex_div_cases. change (inject_Z 2) with 2%Q.
    assert (R1 : ∀ x, Some ((- b - d) / (2 * a))%Q = Some x ->
                      (a * x * x + b * x + c == 0)%Q).
    { intros x [= <-]. eapply (root_over_a a b c d); eauto. left. reflexivity. }
    assert (R2 : ∀ x, Some ((- b + d) / (2 * a))%Q = Some x ->
                      (a * x * x + b * x + c == 0)%Q).
    { intros x [= <-]. eapply (root_over_a a b c d); eauto. right. reflexivity. }
    assert (R3 : ∀ x, (if Qeq_bool (- b - d) 0 then None
                       else Some (2 * c / (- b - d))%Q) = Some x ->
                      (a * x * x + b * x + c == 0)%Q).
    { intros x. destruct (Qeq_bool (- b - d) 0) eqn:E; [discriminate|].
      intros [= <-]. apply Qeq_bool_neq in E.
      eapply (root_over_c a b c d); eauto. left. reflexivity. }
    assert (R4 : ∀ x, (if Qeq_bool (- b + d) 0 then None
                       else Some (2 * c / (- b + d))%Q) = Some x ->
                      (a * x * x + b * x + c == 0)%Q).
    { intros x. destruct (Qeq_bool (- b + d) 0) eqn:E; [discriminate|].
      intros [= <-]. apply Qeq_bool_neq in E.
      eapply (root_over_c a b c d); eauto. right. reflexivity. }
    assert (E2a : Qeq_bool (2 * a) 0 = false).
    { apply Qeq_bool_false. intros E. apply Ha. lra. }
    rewrite E2a.
    destruct (Exact.Qltb (inject_Z 0) a); destruct (Qle_bool (inject_Z 0) b);
      repeat match goal with
      | |- (if ?t then _ else _) = Some _ -> _ =>
          let E := fresh "E" in destruct t eqn:E
      end; eauto.
Qed.

Variables w h : Z.
Variable grid : list Q.

Lemma cell_at_inv (base k : Z) (v : Exact.real) :
  SandboxClient.cell_at (Some <$> grid : list Exact.real) base k = Some v ->
  ∃ q : Q, v = Some q ∧ 0 <= base + k ∧
           grid !! Z.to_nat (base + k) = Some q.
Proof.
  unfold SandboxClient.cell_at.
  destruct (Z.ltb_spec (base + k) 0); [discriminate|].
  rewrite list_lookup_fmap.
  destruct (grid !! Z.to_nat (base + k)) as [q|]; [|discriminate].
  intros [= <-]. eauto.
Qed.

(** The quadratic of a cell is the elevation of the interpolated
    surface over the point of the segment, less the elevation of that
    point. *)
Lemma coefficients_surface (gx gy gz dx dy dz : Q) (i j : Z) abc :
  SandboxClient.coefficients (NS := Exact.ops sq) id (w, h)
    (Some <$> grid : list Exact.real)
    (Some gx, Some gy, Some gz) (Some dx, Some dy, Some dz) (i, j)
  = Some abc ->
  ∃ a b c c0 c1 c2 c3 : Q,
    abc = (Some a, Some b, Some c) ∧
    0 <= j * (w - 1) + i ∧
    grid !! Z.to_nat (j * (w - 1) + i) = Some c0 ∧
    grid !! Z.to_nat (j * (w - 1) + i + 1) = Some c1 ∧
    grid !! Z.to_nat (j * (w - 1) + i + (w - 1)) = Some c2 ∧
    grid !! Z.to_nat (j * (w - 1) + i + w) = Some c3 ∧
    ∀ l : Q,
      (a * l * l + b * l + c
       == (c0 * (1 - (gx + l * dx - inject_Z i))
           + c1 * (gx + l * dx - inject_Z i))
          * (1 - (gy + l * dy - inject_Z j))
          + (c2 * (1 - (gx + l * dx - inject_Z i))
             + c3 * (gx + l * dx - inject_Z i))
            * (gy + l * dy - inject_Z j)
          - (gz + l * dz))%Q.
Proof.
  unfold SandboxClient.coefficients. cbn [fst snd].
  rewrite !option_fmap_id.
  destruct (SandboxClient.cell_at _ _ 0) as [v0|] eqn:E0; [|discriminate].
  destruct (SandboxClient.cell_at _ _ 1) as [v1|] eqn:E1; [|discriminate].
  destruct (SandboxClient.cell_at _ _ (w - 1)) as [v2|] eqn:E2; [|discriminate].
  destruct (SandboxClient.cell_at _ _ w) as [v3|] eqn:E3; [|discriminate].
  apply cell_at_inv in E0 as (c0 & -> & Hn & H0).
  apply cell_at_inv in E1 as (c1 & -> & _ & H1).
  apply cell_at_inv in E2 as (c2 & -> & _ & H2).
  apply cell_at_inv in E3 as (c3 & -> & _ & H3).
  rewrite Z.add_0_r in Hn, H0.
  cbn. intros [= <-]. eexists _, _, _, c0, c1, c2, c3.
  split; [reflexivity|]. repeat (split; [assumption|]).
  intros l. rewrite !inject_Z_plus. change (inject_Z 1) with 1%Q. ring.
Qed.

End Sound.

(** * [intersectLine] stays inside the grid and returns, in exact arithmetic *)

(** ** Parameters and coordinates along a segment *)

Lemma param_up (g0 gd t l : Q) :
  (0 < gd)%Q -> ((l <= (t - g0) / gd)%Q ↔ (g0 + l * gd <= t)%Q).
Proof.
  intros Hgd. set (q := ((t - g0) / gd)%Q).
  assert (Hq : (q * gd == t - g0)%Q) by (unfold q; field; lra).
  split; intros Hl.
  - assert (H1 : (l * gd <= q * gd)%Q) by (apply Qmult_le_compat_r; lra). lra.
  - apply Qnot_lt_le. intros Hc.
    assert (H1 : (q * gd < l * gd)%Q) by (apply Qmult_lt_compat_r; lra). lra.
Qed.

Lemma param_down (g0 gd t l : Q) :
  (gd < 0)%Q -> ((l <= (t - g0) / gd)%Q ↔ (t <= g0 + l * gd)%Q).
Proof.
  intros Hgd. set (q := ((t - g0) / gd)%Q).
  assert (Hq : (q * gd == t - g0)%Q) by (unfold q; field; lra).
  split; intros Hl.
  - assert (H1 : (l * - gd <= q * - gd)%Q) by (apply Qmult_le_compat_r; lra). lra.
  - apply Qnot_lt_le. intros Hc.
    assert (H1 : (q * - gd < l * - gd)%Q) by (apply Qmult_lt_compat_r; lra). lra.
Qed.

Lemma param_at (g0 gd t : Q) :
  ¬ (gd == 0)%Q -> (g0 + (t - g0) / gd * gd == t)%Q.
Proof. intros Hgd. field. exact Hgd. Qed.

(** A point between two points at or above a bound is at or above it. *)
Lemma between_above (g0 g1 b l : Q) :
  (0 <= l)%Q -> (l <= 1)%Q -> (b <= g0)%Q -> (b <= g1)%Q ->
  (b <= g0 + l * (g1 - g0))%Q.
Proof.
  intros H0 H1 Hg0 Hg1.
  assert (E : (g0 + l * (g1 - g0) - b == (g0 - b) * (1 - l) + (g1 - b) * l)%Q)
    by ring.
  assert (Ha : (0 <= (g0 - b) * (1 - l))%Q) by (apply Qmult_le_0_compat; lra).
  assert (Hb : (0 <= (g1 - b) * l)%Q) by (apply Qmult_le_0_compat; lra).
  lra.
Qed.

Lemma between_below (g0 g1 b l : Q) :
  (0 <= l)%Q -> (l <= 1)%Q -> (g0 <= b)%Q -> (g1 <= b)%Q ->
  (g0 + l * (g1 - g0) <= b)%Q.
Proof.
  intros H0 H1 Hg0 Hg1.
  assert (E : (b - (g0 + l * (g1 - g0)) == (b - g0) * (1 - l) + (b - g1) * l)%Q)
    by ring.
  assert (Ha : (0 <= (b - g0) * (1 - l))%Q) by (apply Qmult_le_0_compat; lra).
  assert (Hb : (0 <= (b - g1) * l)%Q) by (apply Qmult_le_0_compat; lra).
  lra.
Qed.

Section Clip.
Variable sq : Q -> Q.

Lemma Math_max_exact (v1 v2 : Q) :
  ∃ m : Q, SandboxClient.Math_max (NS := Exact.ops sq) (Some v1) (Some v2) = Some m ∧
           (v1 <= m)%Q ∧ (v2 <= m)%Q.
Proof.
  unfold SandboxClient.Math_max. rewrite ex_leb.
  destruct (Qle_bool v2 v1) eqn:E.
  - apply Qle_bool_iff in E. exists v1. split; [reflexivity|]. lra.
  - apply Qle_bool_false_gt in E. exists v2. split; [reflexivity|]. lra.
Qed.

Lemma Math_min_exact (v1 v2 : Q) :
  ∃ m : Q, SandboxClient.Math_min (NS := Exact.ops sq) (Some v1) (Some v2) = Some m ∧
           (m <= v1)%Q ∧ (m <= v2)%Q.
Proof.
  unfold SandboxClient.Math_min. rewrite ex_leb.
  destruct (Qle_bool v1 v2) eqn:E.
  - apply Qle_bool_iff in E. exists v1. split; [reflexivity|]. lra.
  - apply Qle_bool_false_gt in E. exists v2. split; [reflexivity|]. lra.
Qed.

Lemma Qltb_cases (x y : Q) :
  (Exact.Qltb x y = true ∧ (x < y)%Q) ∨ (Exact.Qltb x y = false ∧ (y <= x)%Q).
Proof.
  destruct (Qlt_le_dec x y) as [H|H].
  - left. split; [now apply Qltb_true|exact H].
  - right. split; [now apply Qltb_false|exact H].
Qed.

(** Clipping against a lower bound [b]. *)
Lemma clip_lower_spec (b g0 g1 m0 m1 : Q) :
  SandboxClient.clip_lower (NS := Exact.ops sq) (Some b) (Some g0) (Some g1)
    (Some (g1 - g0)%Q) (Some m0, Some m1) = None
  ∨ ∃ m0' m1' : Q,
      SandboxClient.clip_lower (NS := Exact.ops sq) (Some b) (Some g0) (Some g1)
        (Some (g1 - g0)%Q) (Some m0, Some m1) = Some (Some m0', Some m1') ∧
      (m0 <= m0')%Q ∧ (m1' <= m1)%Q ∧
      ∀ l, (m0' <= l)%Q -> (l <= m1')%Q -> (0 <= l)%Q -> (l <= 1)%Q ->
           (b <= g0 + l * (g1 - g0))%Q.
Proof.
  unfold SandboxClient.clip_lower. cbn [fst snd]. rewrite !ex_ltb.
  destruct (Qltb_cases g0 b) as [[-> H0]|[-> H0]].
  - destruct (Qltb_cases b g1) as [[-> H1]|[-> H1]]; [|now left].
    right. rewrite ex_sub, ex_div by lra.
    destruct (Math_max_exact m0 ((b - g0) / (g1 - g0))) as (m & -> & Hm0 & Hm).
    exists m, m1. split; [reflexivity|]. split; [exact Hm0|]. split; [lra|].
    intros l Hl _ _ _.
    assert (Hp : (g0 + l * (g1 - g0) >= g0 + (b - g0) / (g1 - g0) * (g1 - g0))%Q).
    { assert (H2 : ((b - g0) / (g1 - g0) * (g1 - g0) <= l * (g1 - g0))%Q)
        by (apply Qmult_le_compat_r; lra). lra. }
    rewrite param_at in Hp by lra. lra.
  - destruct (Qltb_cases g1 b) as [[-> H1]|[-> H1]].
    + destruct (Qltb_cases b g0) as [[-> H2]|[-> H2]]; [|now left].
      right. rewrite ex_sub, ex_div by lra.
      destruct (Math_min_exact m1 ((b - g0) / (g1 - g0))) as (m & -> & Hm1 & Hm).
      exists m0, m. split; [reflexivity|]. split; [lra|]. split; [exact Hm1|].
      intros l _ Hl _ _.
      apply (proj1 (param_down g0 (g1 - g0) b l ltac:(lra))). lra.
    + right. exists m0, m1. split; [reflexivity|]. split; [lra|]. split; [lra|].
      intros l _ _ Hl0 Hl1. apply between_above; assumption.
Qed.

(** Clipping against an upper bound [b]. *)
Lemma clip_upper_spec (b g0 g1 m0 m1 : Q) :
  SandboxClient.clip_upper (NS := Exact.ops sq) (Some b) (Some g0) (Some g1)
    (Some (g1 - g0)%Q) (Some m0, Some m1) = None
  ∨ ∃ m0' m1' : Q,
      SandboxClient.clip_upper (NS := Exact.ops sq) (Some b) (Some g0) (Some g1)
        (Some (g1 - g0)%Q) (Some m0, Some m1) = Some (Some m0', Some m1') ∧
      (m0 <= m0')%Q ∧ (m1' <= m1)%Q ∧
      ∀ l, (m0' <= l)%Q -> (l <= m1')%Q -> (0 <= l)%Q -> (l <= 1)%Q ->
           (g0 + l * (g1 - g0) <= b)%Q.
Proof.
  unfold SandboxClient.clip_upper. cbn [fst snd]. rewrite !ex_ltb.
  destruct (Qltb_cases b g0) as [[-> H0]|[-> H0]].
  - destruct (Qltb_cases g1 b) as [[-> H1]|[-> H1]]; [|now left].
    right. rewrite ex_sub, ex_div by lra.
    destruct (Math_max_exact m0 ((b - g0) / (g1 - g0))) as (m & -> & Hm0 & Hm).
    exists m, m1. split; [reflexivity|]. split; [exact Hm0|]. split; [lra|].
    intros l Hl _ _ _.
    assert (H2 : (l * - (g1 - g0) >= (b - g0) / (g1 - g0) * - (g1 - g0))%Q)
      by (apply Qmult_le_compat_r; lra).
    pose proof (param_at g0 (g1 - g0) b ltac:(lra)). lra.
  - destruct (Qltb_cases b g1) as [[-> H1]|[-> H1]].
    + destruct (Qltb_cases g0 b) as [[-> H2]|[-> H2]]; [|now left].
      right. rewrite ex_sub, ex_div by lra.
      destruct (Math_min_exact m1 ((b - g0) / (g1 - g0))) as (m & -> & Hm1 & Hm).
      exists m0, m. split; [reflexivity|]. split; [lra|]. split; [exact Hm1|].
      intros l _ Hl _ _.
      apply (proj1 (param_up g0 (g1 - g0) b l ltac:(lra))). lra.
    + right. exists m0, m1. split; [reflexivity|]. split; [lra|]. split; [lra|].
      intros l _ _ Hl0 Hl1. apply between_below; assumption.
Qed.
End Clip.

Lemma segment_in (g0 gd l a r lo hi : Q) :
  (a <= l)%Q -> (l <= r)%Q ->
  (lo <= g0 + a * gd)%Q -> (g0 + a * gd <= hi)%Q ->
  (lo <= g0 + r * gd)%Q -> (g0 + r * gd <= hi)%Q ->
  (lo <= g0 + l * gd)%Q ∧ (g0 + l * gd <= hi)%Q.
Proof.
  intros Hal Hlr Ha1 Ha2 Hr1 Hr2.
  destruct (Qlt_le_dec gd 0) as [Hneg|Hpos].
  - assert (H1 : (l * - gd <= r * - gd)%Q) by (apply Qmult_le_compat_r; lra).
    assert (H2 : (a * - gd <= l * - gd)%Q) by (apply Qmult_le_compat_r; lra).
    split; lra.
  - assert (H1 : (l * gd <= r * gd)%Q) by (apply Qmult_le_compat_r; lra).
    assert (H2 : (a * gd <= l * gd)%Q) by (apply Qmult_le_compat_r; lra).
    split; lra.
Qed.

Lemma start_cell (x : Q) (n : Z) :
  3 <= n -> (0 <= x)%Q -> (x <= inject_Z (n - 2))%Q ->
  let c := SandboxClient.Math_clamp (Qfloor x) 0 (n - 3) in
  0 <= c <= n - 3 ∧ (inject_Z c <= x)%Q ∧ (x <= inject_Z c + 1)%Q.
Proof.
  intros Hn H0 Hx c.
  pose proof (Qfloor_le x) as Hfl. pose proof (Qlt_floor x) as Hfu.
  rewrite inject_Z_plus in Hfu. change (inject_Z 1) with 1%Q in Hfu.
  assert (Hf0 : 0 <= Qfloor x).
  { change 0 with (Qfloor 0). apply Qfloor_resp_le. exact H0. }
  assert (Hf1 : Qfloor x <= n - 2).
  { rewrite <- (Qfloor_Z (n - 2)). apply Qfloor_resp_le. exact Hx. }
  split; [apply Math_clamp_range; lia|].
  unfold c, SandboxClient.Math_clamp.
  rewrite (proj2 (Z.ltb_ge (Qfloor x) 0)) by lia.
  destruct (Z.gtb_spec (Qfloor x) (n - 3)) as [Hgt|Hle].
  - assert (Ef : Qfloor x = n - 2) by lia. rewrite Ef in Hfl.
    replace (n - 3) with (n - 2 - 1) by lia. rewrite inject_Z_pred.
    split; lra.
  - split; lra.
Qed.

Section Traverse.
Variable sq : Q -> Q.
Variables w h : Z.
Variables a0 b0 z0 a1 b1 z1 : Q.

Local Abbreviation gp0 := (exact_point a0 b0 z0).
Local Abbreviation gp1 := (exact_point a1 b1 z1).
Local Abbreviation gd := (exact_point (a1 - a0) (b1 - b0) (z1 - z0)).

(** The interval the clipping leaves maps into the valid range. *)
Lemma clip_spec :
  SandboxClient.clip (NS := Exact.ops sq) (w, h) gp0 gp1 gd = None
  ∨ ∃ l0 l1 : Q,
      SandboxClient.clip (NS := Exact.ops sq) (w, h) gp0 gp1 gd
      = Some (Some l0, Some l1) ∧
      (0 <= l0)%Q ∧ (l1 <= 1)%Q ∧
      ∀ l, (l0 <= l)%Q -> (l <= l1)%Q ->
           (0 <= a0 + l * (a1 - a0))%Q ∧ (a0 + l * (a1 - a0) <= inject_Z (w - 2))%Q ∧
           (0 <= b0 + l * (b1 - b0))%Q ∧ (b0 + l * (b1 - b0) <= inject_Z (h - 2))%Q.
Proof.
  unfold SandboxClient.clip, SandboxClient.clip_axis, SandboxClient.dim.
  cbn [SandboxClient.coord fst snd exact_point]. exact_ops.
  destruct (clip_lower_spec sq (inject_Z 0) a0 a1 (inject_Z 0) (inject_Z 1))
    as [E|(m0 & m1 & E & Hm0 & Hm1 & H1)];
    match goal with |- context [SandboxClient.clip_lower ?b ?x ?y ?d ?l ≫= _] =>
      change (SandboxClient.clip_lower b x y d l) with
        (SandboxClient.clip_lower (NS := Exact.ops sq) (Some (inject_Z 0))
           (Some a0) (Some a1) (Some (a1 - a0)%Q)
           (Some (inject_Z 0), Some (inject_Z 1)))
    end; rewrite E; [now left|].
  cbn [mbind option_bind].
  destruct (clip_upper_spec sq (inject_Z (w - 2)) a0 a1 m0 m1)
    as [->|(n0 & n1 & -> & Hn0 & Hn1 & H2)]; [now left|].
  cbn [mbind option_bind].
  destruct (clip_lower_spec sq (inject_Z 0) b0 b1 n0 n1)
    as [->|(p0 & p1 & -> & Hp0 & Hp1 & H3)]; [now left|].
  cbn [mbind option_bind].
  destruct (clip_upper_spec sq (inject_Z (h - 2)) b0 b1 p0 p1)
    as [->|(q0 & q1 & -> & Hq0 & Hq1 & H4)]; [now left|].
  right. exists q0, q1. split; [reflexivity|].
  change (inject_Z 0) with 0%Q in *. change (inject_Z 1) with 1%Q in *.
  split; [lra|]. split; [lra|].
  intros l Hl0 Hl1.
  repeat split; [apply H1|apply H2|apply H3|apply H4]; lra.
Qed.

(** The search for the exit parameter along the first axis. *)
Lemma exit_axis_0 (ci cj : Z) (cl0 cur : Q) (e : option nat) :
  in_cell a0 a1 ci cl0 -> (cl0 <= cur)%Q ->
  ∃ (r : Q) (e' : option nat),
    SandboxClient.exit_axis (NS := Exact.ops sq) gp0 gp1 gd (ci, cj) 0 (Some cur, e)
    = (Some r, e') ∧
    (cl0 <= r)%Q ∧ (r <= cur)%Q ∧ in_cell a0 a1 ci r ∧
    (e' = e ∧ r = cur
     ∨ e' = Some 0%nat ∧ (r < cur)%Q ∧
       ((a0 < a1)%Q ∧ (a0 + r * (a1 - a0) == inject_Z ci + 1)%Q
        ∨ (a1 < a0)%Q ∧ (a0 + r * (a1 - a0) == inject_Z ci)%Q)).
Proof.
  unfold in_cell. intros [Hlo Hhi] Hcur.
  unfold SandboxClient.exit_axis.
  cbn [SandboxClient.coord fst snd exact_point]. exact_ops.
  rewrite inject_Z_plus. change (inject_Z 1) with 1%Q.
  destruct (Qltb_cases a0 a1) as [[-> Hlt]|[-> Hge]].
  - rewrite ex_div by lra. rewrite ex_ltb.
    set (el := ((inject_Z ci + 1 - a0) / (a1 - a0))%Q).
    pose proof (param_at a0 (a1 - a0) (inject_Z ci + 1) ltac:(lra)) as Hel.
    fold el in Hel.
    assert (Hcl : (cl0 <= el)%Q)
      by (apply (proj2 (param_up a0 (a1 - a0) (inject_Z ci + 1) cl0 ltac:(lra)));
          lra).
    destruct (Qltb_cases el cur) as [[-> Hc]|[-> Hc]].
    + exists el, (Some 0%nat). split; [reflexivity|].
      repeat split; try lra. right. split; [reflexivity|]. split; [exact Hc|].
      left. split; [exact Hlt|exact Hel].
    + exists cur, e. split; [reflexivity|].
      assert (Hx : (a0 + cur * (a1 - a0) <= inject_Z ci + 1)%Q)
        by (apply (proj1 (param_up a0 (a1 - a0) (inject_Z ci + 1) cur
                            ltac:(lra))); exact Hc).
      assert (Hm : (cl0 * (a1 - a0) <= cur * (a1 - a0))%Q)
        by (apply Qmult_le_compat_r; lra).
      repeat split; try lra. left. split; reflexivity.
  - destruct (Qltb_cases a1 a0) as [[-> Hlt]|[-> Hge']].
    + rewrite ex_div by lra. rewrite ex_ltb.
      set (el := ((inject_Z ci - a0) / (a1 - a0))%Q).
      pose proof (param_at a0 (a1 - a0) (inject_Z ci) ltac:(lra)) as Hel.
      fold el in Hel.
      assert (Hcl : (cl0 <= el)%Q)
        by (apply (proj2 (param_down a0 (a1 - a0) (inject_Z ci) cl0 ltac:(lra)));
            lra).
      destruct (Qltb_cases el cur) as [[-> Hc]|[-> Hc]].
      * exists el, (Some 0%nat). split; [reflexivity|].
        repeat split; try lra. right. split; [reflexivity|]. split; [exact Hc|].
        right. split; [exact Hlt|exact Hel].
      * exists cur, e. split; [reflexivity|].
        assert (Hx : (inject_Z ci <= a0 + cur * (a1 - a0))%Q)
          by (apply (proj1 (param_down a0 (a1 - a0) (inject_Z ci) cur
                              ltac:(lra))); exact Hc).
        assert (Hm : (cl0 * - (a1 - a0) <= cur * - (a1 - a0))%Q)
          by (apply Qmult_le_compat_r; lra).
        repeat split; try lra. left. split; reflexivity.
    + rewrite ex_ltb, (Qltb_false cur cur) by lra.
      exists cur, e. split; [reflexivity|].
      assert (E : (a1 - a0 == 0)%Q) by lra.
      rewrite E in *. repeat split; try lra. left. split; reflexivity.
Qed.

(** The search for the exit parameter along the second axis. *)
Lemma exit_axis_1 (ci cj : Z) (cl0 cur : Q) (e : option nat) :
  in_cell b0 b1 cj cl0 -> (cl0 <= cur)%Q ->
  ∃ (r : Q) (e' : option nat),
    SandboxClient.exit_axis (NS := Exact.ops sq) gp0 gp1 gd (ci, cj) 1 (Some cur, e)
    = (Some r, e') ∧
    (cl0 <= r)%Q ∧ (r <= cur)%Q ∧ in_cell b0 b1 cj r ∧
    (e' = e ∧ r = cur
     ∨ e' = Some 1%nat ∧ (r < cur)%Q ∧
       ((b0 < b1)%Q ∧ (b0 + r * (b1 - b0) == inject_Z cj + 1)%Q
        ∨ (b1 < b0)%Q ∧ (b0 + r * (b1 - b0) == inject_Z cj)%Q)).
Proof.
  unfold in_cell. intros [Hlo Hhi] Hcur.
  unfold SandboxClient.exit_axis.
  cbn [SandboxClient.coord fst snd exact_point]. exact_ops.
  rewrite inject_Z_plus. change (inject_Z 1) with 1%Q.
  destruct (Qltb_cases b0 b1) as [[-> Hlt]|[-> Hge]].
  - rewrite ex_div by lra. rewrite ex_ltb.
    set (el := ((inject_Z cj + 1 - b0) / (b1 - b0))%Q).
    pose proof (param_at b0 (b1 - b0) (inject_Z cj + 1) ltac:(lra)) as Hel.
    fold el in Hel.
    assert (Hcl : (cl0 <= el)%Q)
      by (apply (proj2 (param_up b0 (b1 - b0) (inject_Z cj + 1) cl0 ltac:(lra)));
          lra).
    destruct (Qltb_cases el cur) as [[-> Hc]|[-> Hc]].
    + exists el, (Some 1%nat). split; [reflexivity|].
      repeat split; try lra. right. split; [reflexivity|]. split; [exact Hc|].
      left. split; [exact Hlt|exact Hel].
    + exists cur, e. split; [reflexivity|].
      assert (Hx : (b0 + cur * (b1 - b0) <= inject_Z cj + 1)%Q)
        by (apply (proj1 (param_up b0 (b1 - b0) (inject_Z cj + 1) cur
                            ltac:(lra))); exact Hc).
      assert (Hm : (cl0 * (b1 - b0) <= cur * (b1 - b0))%Q)
        by (apply Qmult_le_compat_r; lra).
      repeat split; try lra. left. split; reflexivity.
  - destruct (Qltb_cases b1 b0) as [[-> Hlt]|[-> Hge']].
    + rewrite ex_div by lra. rewrite ex_ltb.
      set (el := ((inject_Z cj - b0) / (b1 - b0))%Q).
      pose proof (param_at b0 (b1 - b0) (inject_Z cj) ltac:(lra)) as Hel.
      fold el in Hel.
      assert (Hcl : (cl0 <= el)%Q)
        by (apply (proj2 (param_down b0 (b1 - b0) (inject_Z cj) cl0 ltac:(lra)));
            lra).
      destruct (Qltb_cases el cur) as [[-> Hc]|[-> Hc]].
      * exists el, (Some 1%nat). split; [reflexivity|].
        repeat split; try lra. right. split; [reflexivity|]. split; [exact Hc|].
        right. split; [exact Hlt|exact Hel].
      * exists cur, e. split; [reflexivity|].
        assert (Hx : (inject_Z cj <= b0 + cur * (b1 - b0))%Q)
          by (apply (proj1 (param_down b0 (b1 - b0) (inject_Z cj) cur
                              ltac:(lra))); exact Hc).
        assert (Hm : (cl0 * - (b1 - b0) <= cur * - (b1 - b0))%Q)
          by (apply Qmult_le_compat_r; lra).
        repeat split; try lra. left. split; reflexivity.
    + rewrite ex_ltb, (Qltb_false cur cur) by lra.
      exists cur, e. split; [reflexivity|].
      assert (E : (b1 - b0 == 0)%Q) by lra.
      rewrite E in *. repeat split; try lra. left. split; reflexivity.
Qed.

(** The parameter at which the segment leaves a cell it is in. *)
Lemma cell_exit_spec (ci cj : Z) (cl0 l1 : Q) :
  in_cell a0 a1 ci cl0 -> in_cell b0 b1 cj cl0 -> (cl0 <= l1)%Q ->
  ∃ (cl1 : Q) (e : option nat),
    SandboxClient.cell_exit (NS := Exact.ops sq) gp0 gp1 gd (ci, cj) (Some l1)
    = (Some cl1, e) ∧
    (cl0 <= cl1)%Q ∧ (cl1 <= l1)%Q ∧
    in_cell a0 a1 ci cl1 ∧ in_cell b0 b1 cj cl1 ∧
    match e with
    | None => cl1 = l1
    | Some O =>
        (cl1 < l1)%Q ∧
        ((a0 < a1)%Q ∧ (a0 + cl1 * (a1 - a0) == inject_Z ci + 1)%Q
         ∨ (a1 < a0)%Q ∧ (a0 + cl1 * (a1 - a0) == inject_Z ci)%Q)
    | Some (S k) =>
        k = 0%nat ∧ (cl1 < l1)%Q ∧
        ((b0 < b1)%Q ∧ (b0 + cl1 * (b1 - b0) == inject_Z cj + 1)%Q
         ∨ (b1 < b0)%Q ∧ (b0 + cl1 * (b1 - b0) == inject_Z cj)%Q)
    end.
Proof.
  intros Hx Hy Hl.
  destruct (exit_axis_0 ci cj cl0 l1 None Hx Hl)
    as (r0 & e0 & E0 & Hr0 & Hr0' & Hx0 & He0).
  destruct (exit_axis_1 ci cj cl0 r0 e0 Hy Hr0)
    as (r1 & e1 & E1 & Hr1 & Hr1' & Hy1 & He1).
  exists r1, e1.
  split.
  { change (SandboxClient.exit_axis (NS := Exact.ops sq) gp0 gp1 gd (ci, cj) 1
              (SandboxClient.exit_axis (NS := Exact.ops sq) gp0 gp1 gd (ci, cj) 0
                 (Some l1, None)) = (Some r1, e1)).
    rewrite E0. exact E1. }
  split; [exact Hr1|]. split; [lra|].
  assert (Hx1 : in_cell a0 a1 ci r1).
  { unfold in_cell in *.
    apply (segment_in a0 (a1 - a0) r1 cl0 r0); try tauto; lra. }
  split; [exact Hx1|]. split; [exact Hy1|].
  destruct He1 as [[-> ->]|(-> & Hlt & Hb)].
  - destruct He0 as [[-> ->]|(-> & Hlt & Hb)]; [reflexivity|]. split; assumption.
  - split; [reflexivity|]. split; [lra|exact Hb].
Qed.

(** Crossing the boundary a coordinate reaches before the end of the
    clipped segment leads to a cell of the grid, one cell nearer to the
    last one in the direction of travel. *)
Lemma cross_boundary (n : Z) (g0 g1 : Q) (c : Z) (cl1 l1 : Q) :
  0 <= c <= n - 3 ->
  (0 <= g0 + l1 * (g1 - g0))%Q -> (g0 + l1 * (g1 - g0) <= inject_Z (n - 2))%Q ->
  (cl1 < l1)%Q ->
  (g0 < g1)%Q ∧ (g0 + cl1 * (g1 - g0) == inject_Z c + 1)%Q
  ∨ (g1 < g0)%Q ∧ (g0 + cl1 * (g1 - g0) == inject_Z c)%Q ->
  let d := if Exact.Qltb (g1 - g0) 0 then -1 else 1 in
  0 <= c + d <= n - 3 ∧ in_cell g0 g1 (c + d) cl1 ∧
  remaining n g0 g1 (c + d) = remaining n g0 g1 c - 1.
Proof.
  intros Hc H0 Hn Hlt [[Hg E]|[Hg E]] d; unfold d, remaining, in_cell.
  - rewrite (Qltb_false (g1 - g0) 0), (Qltb_true g0 g1) by lra.
    assert (Hm : (cl1 * (g1 - g0) < l1 * (g1 - g0))%Q)
      by (apply Qmult_lt_compat_r; lra).
    assert (Hq : (inject_Z (c + 1) < inject_Z (n - 2))%Q)
      by (rewrite inject_Z_plus; change (inject_Z 1) with 1%Q; lra).
    rewrite <- Zlt_Qlt in Hq.
    rewrite inject_Z_plus. change (inject_Z 1) with 1%Q.
    split; [lia|]. split; [split; lra|lia].
  - rewrite (Qltb_true (g1 - g0) 0), (Qltb_false g0 g1), (Qltb_true g1 g0) by lra.
    assert (Hm : (cl1 * - (g1 - g0) < l1 * - (g1 - g0))%Q)
      by (apply Qmult_lt_compat_r; lra).
    assert (Hq : (inject_Z 0 < inject_Z c)%Q)
      by (change (inject_Z 0) with 0%Q; lra).
    rewrite <- Zlt_Qlt in Hq.
    rewrite inject_Z_plus. change (inject_Z (-1)) with (-1 # 1)%Q.
    split; [lia|]. split; [split; lra|lia].
Qed.

Lemma remaining_range (n : Z) (g0 g1 : Q) (c : Z) :
  0 <= c <= n - 3 -> 0 <= remaining n g0 g1 c <= n - 3.
Proof.
  intros Hc. unfold remaining.
  destruct (Exact.Qltb g0 g1); [lia|]. destruct (Exact.Qltb g1 g0); lia.
Qed.

Variable grid : list Exact.real.
Hypothesis Hw : 3 <= w.
Hypothesis Hh : 3 <= h.
Hypothesis Hgrid : (w - 1) * (h - 1) <= Z.of_nat (length grid).

(** The four samples of a cell of the grid are in the array. *)
Lemma coefficients_defined (p d : Exact.real * Exact.real * Exact.real)
    (ci cj : Z) :
  0 <= ci <= w - 3 -> 0 <= cj <= h - 3 ->
  ∃ abc, SandboxClient.coefficients (NS := Exact.ops sq) id (w, h) grid p d (ci, cj)
         = Some abc.
Proof using Hw Hgrid.
  intros Hi Hj. unfold SandboxClient.coefficients. cbn [fst snd].
  set (base := cj * (w - 1) + ci).
  assert (Hb0 : 0 <= base) by (unfold base; nia).
  assert (Hb1 : base + w < Z.of_nat (length grid)) by (unfold base; nia).
  destruct (cell_at_in_range grid base 0 ltac:(lia)) as [c0 ->].
  destruct (cell_at_in_range grid base 1 ltac:(lia)) as [c1 ->].
  destruct (cell_at_in_range grid base (w - 1) ltac:(lia)) as [c2 ->].
  destruct (cell_at_in_range grid base w ltac:(lia)) as [c3 ->].
  cbn [fmap option_fmap option_map mbind option_bind]. eexists. reflexivity.
Qed.

Variable l1 : Q.
Hypothesis Hx1 : (0 <= a0 + l1 * (a1 - a0))%Q ∧ (a0 + l1 * (a1 - a0) <= inject_Z (w - 2))%Q.
Hypothesis Hy1 : (0 <= b0 + l1 * (b1 - b0))%Q ∧ (b0 + l1 * (b1 - b0) <= inject_Z (h - 2))%Q.

(** The walk from a cell of the grid the segment is in: it reads no
    sample outside the array, and the cells ahead bound its length. *)
Lemma walk_total (fuel : nat) : ∀ (ci cj : Z) (cl0 : Q),
  0 <= ci <= w - 3 -> 0 <= cj <= h - 3 ->
  in_cell a0 a1 ci cl0 -> in_cell b0 b1 cj cl0 ->
  remaining w a0 a1 ci + remaining h b0 b1 cj < Z.of_nat fuel ->
  ∃ (tr : list (Exact.real * Exact.real * Exact.real)) (r : Q),
    SandboxClient.walk (NS := Exact.ops sq) id (w, h) grid fuel gp0 gp1 gd
      (Some l1) (ci, cj) (Some cl0)
    = (tr, SandboxClient.Lambda (Some r)) ∧
    (r = inject_Z 1 ∨ (cl0 <= r)%Q ∧ (r < l1)%Q).
Proof using All.
  induction fuel as [|fuel IH]; intros ci cj cl0 Hi Hj Hx Hy Hmu.
  { pose proof (remaining_range w a0 a1 ci Hi).
    pose proof (remaining_range h b0 b1 cj Hj). lia. }
  cbn [SandboxClient.walk]. rewrite ex_ltb.
  destruct (Qltb_cases cl0 l1) as [[-> Hlt]|[-> Hge]];
    [|exists [], (inject_Z 1); split; [reflexivity|now left]].
  destruct (cell_exit_spec ci cj cl0 l1 Hx Hy ltac:(lra))
    as (cl1 & e & -> & Hc0 & Hc1 & Hx' & Hy' & He).
  destruct (coefficients_defined gp0 gd ci cj Hi Hj) as [abc ->].
  destruct (SandboxClient.valid _ _ _) eqn:Ev.
  { destruct (valid_defined sq _ _ _ Ev) as (m0 & m1 & l & [= <-] & [= <-] & -> & H0 & H1).
    exists [abc], l. split; [reflexivity|]. right. split; lra. }
  destruct e as [[|k]|].
  - destruct He as [Hlt1 Hb].
    destruct (cross_boundary w a0 a1 ci cl1 l1 Hi (proj1 Hx1) (proj2 Hx1) Hlt1 Hb)
      as (Hi' & Hxn & Hr).
    unfold SandboxClient.next_cell.
    cbn [SandboxClient.coord fst snd exact_point]. exact_ops.
    change (inject_Z 0) with 0%Q.
    destruct (IH _ cj cl1 Hi' Hj Hxn Hy' ltac:(lia)) as (tr & r & -> & Hres).
    exists (abc :: tr), r. split; [reflexivity|].
    destruct Hres as [->|[? ?]]; [now left|right; split; lra].
  - destruct He as (-> & Hlt1 & Hb).
    destruct (cross_boundary h b0 b1 cj cl1 l1 Hj (proj1 Hy1) (proj2 Hy1) Hlt1 Hb)
      as (Hj' & Hyn & Hr).
    unfold SandboxClient.next_cell.
    cbn [SandboxClient.coord fst snd exact_point]. exact_ops.
    change (inject_Z 0) with 0%Q.
    destruct (IH ci _ cl1 Hi Hj' Hx' Hyn ltac:(lia)) as (tr & r & -> & Hres).
    exists (abc :: tr), r. split; [reflexivity|].
    destruct Hres as [->|[? ?]]; [now left|right; split; lra].
  - subst cl1. unfold SandboxClient.next_cell.
    exists [abc], (inject_Z 1). split; [|now left].
    destruct fuel; cbn [SandboxClient.walk]; rewrite ex_ltb, (Qltb_false l1 l1) by lra;
      reflexivity.
Qed.
End Traverse.

(** In exact arithmetic, on a grid of at least 3 by 3 samples whose
    bathymetry array holds a sample for each cell corner and with cell
    sizes other than zero: whatever the two points, [intersectLine]
    reads no sample outside the array, leaves its loop within
    [w + h - 5] cells, and returns either 1 or a parameter from 0 up to,
    but not including, 1. *)
Theorem intersectLine_total (sq : Q -> Q) (w h : Z) (cs0 cs1 : Q)
    (grid : list Exact.real) (x0 y0 z0 x1 y1 z1 : Q) (fuel : nat) :
  3 <= w -> 3 <= h ->
  (w - 1) * (h - 1) <= Z.of_nat (length grid) ->
  ¬ (cs0 == 0)%Q -> ¬ (cs1 == 0)%Q ->
  w + h - 5 <= Z.of_nat fuel ->
  ∃ l : Q,
    SandboxClient.intersectLine (NS := Exact.ops sq) id (w, h)
      (Some cs0, Some cs1) grid fuel
      (Some x0, Some y0, Some z0) (Some x1, Some y1, Some z1)
    = SandboxClient.Lambda (Some l) ∧
    (l = inject_Z 1 ∨ (0 <= l)%Q ∧ (l < 1)%Q).
Proof.
  intros Hw Hh Hgrid Hc0 Hc1 Hfuel.
  unfold SandboxClient.intersectLine, SandboxClient.intersectLine_trace.
  unfold SandboxClient.to_grid, SandboxClient.difference, id.
  cbn [SandboxClient.coord fst snd].
  rewrite !(ex_div sq _ _ Hc0), !(ex_div sq _ _ Hc1).
  exact_ops.
  set (a0 := (x0 / cs0 - (1 # 2))%Q). set (b0 := (y0 / cs1 - (1 # 2))%Q).
  set (a1 := (x1 / cs0 - (1 # 2))%Q). set (b1 := (y1 / cs1 - (1 # 2))%Q).
  destruct (clip_spec sq w h a0 b0 z0 a1 b1 z1)
    as [E|(l0 & l1 & E & Hl0 & Hl1 & Hin)];
    match goal with |- context [SandboxClient.clip ?gs ?p ?q ?d] =>
      change (SandboxClient.clip gs p q d) with
        (SandboxClient.clip (NS := Exact.ops sq) (w, h) (exact_point a0 b0 z0)
           (exact_point a1 b1 z1) (exact_point (a1 - a0) (b1 - b0) (z1 - z0)))
    end; rewrite E.
  { exists (inject_Z 1). split; [reflexivity|now left]. }
  rewrite ex_leb.
  destruct (Qle_bool l1 l0) eqn:Ele.
  { exists (inject_Z 1). split; [reflexivity|now left]. }
  apply Qle_bool_false_gt in Ele.
  unfold SandboxClient.affineCombination, SandboxClient.dim.
  cbn [SandboxClient.coord fst snd]. exact_ops.
  change (inject_Z 1) with 1%Q.
  assert (Ea : (a0 * (1 - l0) + a1 * l0 == a0 + l0 * (a1 - a0))%Q) by ring.
  assert (Eb : (b0 * (1 - l0) + b1 * l0 == b0 + l0 * (b1 - b0))%Q) by ring.
  rewrite (Qfloor_comp _ _ Ea), (Qfloor_comp _ _ Eb).
  destruct (Hin l0 ltac:(lra) ltac:(lra)) as (Hx0 & Hx0' & Hy0 & Hy0').
  destruct (Hin l1 ltac:(lra) ltac:(lra)) as (Hx1 & Hx1' & Hy1 & Hy1').
  destruct (start_cell _ w Hw Hx0 Hx0') as (Hi & Hxa & Hxb).
  destruct (start_cell _ h Hh Hy0 Hy0') as (Hj & Hya & Hyb).
  set (ci := SandboxClient.Math_clamp _ 0 (w - 3)) in *.
  set (cj := SandboxClient.Math_clamp _ 0 (h - 3)) in *.
  pose proof (remaining_range w a0 a1 ci Hi) as Hrx.
  pose proof (remaining_range h b0 b1 cj Hj) as Hry.
  destruct (walk_total sq w h a0 b0 z0 a1 b1 z1 grid Hw Hh Hgrid l1
              (conj Hx1 Hx1') (conj Hy1 Hy1') fuel ci cj l0 Hi Hj
              (conj Hxa Hxb) (conj Hya Hyb) ltac:(lia))
    as (tr & r & Ewalk & Hr).
  exists r. split.
  - etransitivity; [|exact (f_equal snd Ewalk)]. reflexivity.
  - destruct Hr as [->|[? ?]]; [now left|right; split; lra].
Qed.

Lemma intersectLine_total_witness :
  ∃ l : Q,
    SandboxClient.intersectLine (NS := Exact.ops Exact.sqrt32) id (5, 5)
      (Some 1%Q, Some 1%Q) (Some <$> Sample.twisted : list Exact.real) 5
      (Some 1%Q, Some 1%Q, Some (11 # 2)%Q) (Some 3%Q, Some 3%Q, Some (7 # 2)%Q)
    = SandboxClient.Lambda (Some l) ∧
    (l = inject_Z 1 ∨ (0 <= l)%Q ∧ (l < 1)%Q).
Proof.
  apply (intersectLine_total Exact.sqrt32 5 5 1 1
           (Some <$> Sample.twisted) 1 1 (11 # 2) 3 3 (7 # 2) 5).
  - lia.
  - lia.
  - vm_compute. discriminate.
  - discriminate.
  - discriminate.
  - lia.
Defined.

(** * The intersection found by [intersectLine] lies on the surface *)

Section Hit.
Variable sq : Q -> Q.
Variables w h : Z.
Variables a0 b0 z0 a1 b1 z1 : Q.
Variable grid : list Q.
Variable l1 : Q.
Hypothesis Hx1 : (0 <= a0 + l1 * (a1 - a0))%Q ∧ (a0 + l1 * (a1 - a0) <= inject_Z (w - 2))%Q.
Hypothesis Hy1 : (0 <= b0 + l1 * (b1 - b0))%Q ∧ (b0 + l1 * (b1 - b0) <= inject_Z (h - 2))%Q.

Local Abbreviation gp0 := (exact_point a0 b0 z0).
Local Abbreviation gp1 := (exact_point a1 b1 z1).
Local Abbreviation gd := (exact_point (a1 - a0) (b1 - b0) (z1 - z0)).

(** What the walk returns from a cell of the grid the segment is in:
    1, or a parameter found in the last cell solved, at which the
    segment is in that cell. *)
Lemma walk_hit (fuel : nat) :
  ∀ (ci cj : Z) (cl0 : Q) tr x,
  0 <= ci <= w - 3 -> 0 <= cj <= h - 3 ->
  in_cell a0 a1 ci cl0 -> in_cell b0 b1 cj cl0 ->
  SandboxClient.walk (NS := Exact.ops sq) id (w, h)
    (Some <$> grid : list Exact.real) fuel gp0 gp1 gd (Some l1) (ci, cj)
    (Some cl0)
  = (tr, SandboxClient.Lambda x) ->
  x = Some (inject_Z 1) ∨
  ∃ (l : Q) (i j : Z) (a b c : Q),
    x = Some l ∧ (cl0 <= l)%Q ∧ (l < l1)%Q ∧
    last tr = Some (Some a, Some b, Some c) ∧
    SandboxClient.coefficients (NS := Exact.ops sq) id (w, h)
      (Some <$> grid : list Exact.real) gp0 gd (i, j)
    = Some (Some a, Some b, Some c) ∧
    0 <= i <= w - 3 ∧ 0 <= j <= h - 3 ∧
    in_cell a0 a1 i l ∧ in_cell b0 b1 j l ∧
    (exact_root sq a b c ->
     on_cell_surface w grid i j (a0 + l * (a1 - a0)) (b0 + l * (b1 - b0))
       (z0 + l * (z1 - z0))).
Proof using All.
  induction fuel as [|fuel IH]; intros ci cj cl0 tr x Hi Hj Hx Hy;
    cbn [SandboxClient.walk]; rewrite ex_ltb.
  { destruct (Exact.Qltb cl0 l1); [discriminate|]. intros [= _ <-]. now left. }
  destruct (Qltb_cases cl0 l1) as [[-> Hlt]|[-> Hge]];
    [|intros [= _ <-]; now left].
  destruct (cell_exit_spec sq a0 b0 z0 a1 b1 z1 ci cj cl0 l1 Hx Hy ltac:(lra))
    as (cl1 & e & -> & Hc0 & Hc1 & Hx' & Hy' & He).
  destruct (SandboxClient.coefficients _ _ _ _ _ (ci, cj)) as [abc|] eqn:Eco;
    [|discriminate].
  destruct (SandboxClient.valid _ _ _) eqn:Ev.
  - intros [= <- <-]. right.
    destruct (coefficients_surface sq w h grid _ _ _ _ _ _ ci cj abc Eco)
      as (a & b & c & c0 & c1 & c2 & c3 & -> & Hn & H0 & H1 & H2 & H3 & Hsurf).
    destruct (valid_defined sq _ _ _ Ev)
      as (m0 & m1 & l & [= <-] & [= <-] & El & Hl0 & Hl1).
    exists l, ci, cj, a, b, c.
    split; [exact El|]. split; [exact Hl0|]. split; [lra|].
    split; [reflexivity|]. split; [exact Eco|].
    split; [exact Hi|]. split; [exact Hj|].
    unfold in_cell in *.
    split; [apply (segment_in a0 (a1 - a0) l cl0 cl1); try tauto; lra|].
    split; [apply (segment_in b0 (b1 - b0) l cl0 cl1); try tauto; lra|].
    intros Hsq. rewrite El in Ev.
    pose proof (solve_root sq a b c _ _ l El Ev Hsq) as Hroot.
    exists c0, c1, c2, c3. repeat (split; [assumption|]).
    specialize (Hsurf l). rewrite Hroot in Hsurf. lra.
  - assert (Hrec : ∀ ci' cj' tr' x',
              0 <= ci' <= w - 3 -> 0 <= cj' <= h - 3 ->
              in_cell a0 a1 ci' cl1 -> in_cell b0 b1 cj' cl1 ->
              SandboxClient.walk (NS := Exact.ops sq) id (w, h)
                (Some <$> grid : list Exact.real) fuel gp0 gp1 gd (Some l1)
                (ci', cj') (Some cl1) = (tr', SandboxClient.Lambda x') ->
              x' = Some (inject_Z 1) ∨
              ∃ (l : Q) (i j : Z) (a b c : Q),
                x' = Some l ∧ (cl0 <= l)%Q ∧ (l < l1)%Q ∧
                last (abc :: tr') = Some (Some a, Some b, Some c) ∧
                SandboxClient.coefficients (NS := Exact.ops sq) id (w, h)
                  (Some <$> grid : list Exact.real) gp0 gd (i, j)
                = Some (Some a, Some b, Some c) ∧
                0 <= i <= w - 3 ∧ 0 <= j <= h - 3 ∧
                in_cell a0 a1 i l ∧ in_cell b0 b1 j l ∧
                (exact_root sq a b c ->
                 on_cell_surface w grid i j (a0 + l * (a1 - a0))
                   (b0 + l * (b1 - b0)) (z0 + l * (z1 - z0)))).
    { intros ci' cj' tr' x' Hi' Hj' Hxn Hyn Ew.
      destruct (IH ci' cj' cl1 tr' x' Hi' Hj' Hxn Hyn Ew)
        as [->|(l & i & j & a & b & c & -> & Hl0 & Hl1 & Hlast & Hrest)];
        [now left|right].
      exists l, i, j, a, b, c. split; [reflexivity|]. split; [lra|].
      split; [exact Hl1|]. split; [|exact Hrest].
      rewrite last_cons, Hlast. reflexivity. }
    destruct e as [[|k]|].
    + destruct He as [Hlt1 Hb].
      destruct (cross_boundary w a0 a1 ci cl1 l1 Hi (proj1 Hx1) (proj2 Hx1) Hlt1 Hb)
        as (Hi' & Hxn & _).
      unfold SandboxClient.next_cell.
      cbn [SandboxClient.coord fst snd exact_point]. exact_ops.
      change (inject_Z 0) with 0%Q.
      destruct (SandboxClient.walk _ _ _ fuel _ _ _ _ _ _) as [tr' x'] eqn:Ew.
      cbn [fst snd]. intros [= <- ->].
      exact (Hrec _ _ _ _ Hi' Hj Hxn Hy' Ew).
    + destruct He as (-> & Hlt1 & Hb).
      destruct (cross_boundary h b0 b1 cj cl1 l1 Hj (proj1 Hy1) (proj2 Hy1) Hlt1 Hb)
        as (Hj' & Hyn & _).
      unfold SandboxClient.next_cell.
      cbn [SandboxClient.coord fst snd exact_point]. exact_ops.
      change (inject_Z 0) with 0%Q.
      destruct (SandboxClient.walk _ _ _ fuel _ _ _ _ _ _) as [tr' x'] eqn:Ew.
      cbn [fst snd]. intros [= <- ->].
      exact (Hrec _ _ _ _ Hi Hj' Hx' Hyn Ew).
    + subst cl1. unfold SandboxClient.next_cell.
      assert (Eend : SandboxClient.walk (NS := Exact.ops sq) id (w, h)
                       (Some <$> grid : list Exact.real) fuel gp0 gp1 gd
                       (Some l1) (ci, cj) (Some l1)
                     = ([], SandboxClient.Lambda (Some (inject_Z 1)))).
      { destruct fuel; cbn [SandboxClient.walk];
          rewrite ex_ltb, (Qltb_false l1 l1) by lra; reflexivity. }
      rewrite Eend. cbn [fst snd]. intros [= _ <-]. now left.
Qed.
End Hit.

(** In exact arithmetic, on a grid of at least 3 by 3 samples: whatever
    [intersectLine] returns, other than the final 1, is a parameter l
    from 0 up to, but not including, 1, found in the last cell (i, j)
    the call has solved (the coefficients a, b, c are the last of its
    trace); at l the segment is inside that cell of the grid, and its
    point lies on the surface interpolated from the four samples of the
    cell, provided the root the call took of that cell's discriminant
    is exact (or the cell's equation is linear). *)
Theorem intersectLine_on_surface (sq : Q -> Q) (w h : Z) (cs0 cs1 : Q)
    (grid : list Q) (x0 y0 z0 x1 y1 z1 : Q) (fuel : nat)
    (tr : list (Exact.real * Exact.real * Exact.real)) (x : Exact.real) :
  let gx0 := (x0 / cs0 - (1 # 2))%Q in
  let gy0 := (y0 / cs1 - (1 # 2))%Q in
  let gx1 := (x1 / cs0 - (1 # 2))%Q in
  let gy1 := (y1 / cs1 - (1 # 2))%Q in
  3 <= w -> 3 <= h -> ¬ (cs0 == 0)%Q -> ¬ (cs1 == 0)%Q ->
  SandboxClient.intersectLine_trace (NS := Exact.ops sq) id (w, h)
    (Some cs0, Some cs1) (Some <$> grid) fuel
    (Some x0, Some y0, Some z0) (Some x1, Some y1, Some z1)
  = (tr, SandboxClient.Lambda x) ->
  x = Some (inject_Z 1) ∨
  ∃ (l : Q) (i j : Z) (a b c : Q),
    x = Some l ∧ (0 <= l)%Q ∧ (l < 1)%Q ∧
    last tr = Some (Some a, Some b, Some c) ∧
    SandboxClient.coefficients (NS := Exact.ops sq) id (w, h)
      (Some <$> grid : list Exact.real)
      (Some gx0, Some gy0, Some z0)
      (Some (gx1 - gx0)%Q, Some (gy1 - gy0)%Q, Some (z1 - z0)%Q) (i, j)
    = Some (Some a, Some b, Some c) ∧
    0 <= i <= w - 3 ∧ 0 <= j <= h - 3 ∧
    in_cell gx0 gx1 i l ∧ in_cell gy0 gy1 j l ∧
    (exact_root sq a b c ->
     on_cell_surface w grid i j (gx0 + l * (gx1 - gx0)) (gy0 + l * (gy1 - gy0))
       (z0 + l * (z1 - z0))).
Proof.
  intros gx0 gy0 gx1 gy1 Hw Hh Hc0 Hc1.
  unfold SandboxClient.intersectLine_trace.
  unfold SandboxClient.to_grid, SandboxClient.difference, id.
  cbn [SandboxClient.coord fst snd].
  rewrite !(ex_div sq _ _ Hc0), !(ex_div sq _ _ Hc1).
  exact_ops. fold gx0 gy0 gx1 gy1.
  destruct (clip_spec sq w h gx0 gy0 z0 gx1 gy1 z1)
    as [E|(l0 & l1 & E & Hl0 & Hl1 & Hin)];
    match goal with |- context [SandboxClient.clip ?gs ?p ?q ?d] =>
      change (SandboxClient.clip gs p q d) with
        (SandboxClient.clip (NS := Exact.ops sq) (w, h) (exact_point gx0 gy0 z0)
           (exact_point gx1 gy1 z1)
           (exact_point (gx1 - gx0) (gy1 - gy0) (z1 - z0)))
    end; rewrite E.
  { intros [= _ <-]. now left. }
  rewrite ex_leb.
  destruct (Qle_bool l1 l0) eqn:Ele; [intros [= _ <-]; now left|].
  apply Qle_bool_false_gt in Ele.
  unfold SandboxClient.affineCombination, SandboxClient.dim.
  cbn [SandboxClient.coord fst snd]. exact_ops.
  change (inject_Z 1) with 1%Q.
  assert (Ea : (gx0 * (1 - l0) + gx1 * l0 == gx0 + l0 * (gx1 - gx0))%Q) by ring.
  assert (Eb : (gy0 * (1 - l0) + gy1 * l0 == gy0 + l0 * (gy1 - gy0))%Q) by ring.
  rewrite (Qfloor_comp _ _ Ea), (Qfloor_comp _ _ Eb).
  destruct (Hin l0 ltac:(lra) ltac:(lra)) as (Hx0 & Hx0' & Hy0 & Hy0').
  destruct (Hin l1 ltac:(lra) ltac:(lra)) as (Hx1 & Hx1' & Hy1 & Hy1').
  destruct (start_cell _ w Hw Hx0 Hx0') as (Hi & Hxa & Hxb).
  destruct (start_cell _ h Hh Hy0 Hy0') as (Hj & Hya & Hyb).
  set (ci := SandboxClient.Math_clamp _ 0 (w - 3)) in *.
  set (cj := SandboxClient.Math_clamp _ 0 (h - 3)) in *.
  intros Ewalk.
  destruct (walk_hit sq w h gx0 gy0 z0 gx1 gy1 z1 grid l1
              (conj Hx1 Hx1') (conj Hy1 Hy1') fuel ci cj l0 tr x Hi Hj
              (conj Hxa Hxb) (conj Hya Hyb) Ewalk)
    as [->|(l & i & j & a & b & c & -> & Hl & Hl' & Hrest)]; [now left|right].
  exists l, i, j, a, b, c. split; [reflexivity|].
  split; [lra|]. split; [lra|]. exact Hrest.
Qed.

(** On the surface x*y sampled at the nodes of a 5 by 5 water table,
    the segment from (1, 1, 13/4) to (3, 3, 5/4) comes down on the
    surface at its middle: the call returns a parameter at which the
    segment is in the cell found and on its surface. *)
Lemma intersectLine_on_surface_witness :
  ∃ (l : Q) (i j : Z),
    (SandboxClient.intersectLine_trace (NS := Exact.ops Exact.sqrt32) id (5, 5)
       (Some 1%Q, Some 1%Q) (Some <$> Sample.twisted : list Exact.real) 10
       (Some 1%Q, Some 1%Q, Some (13 # 4)%Q)
       (Some 3%Q, Some 3%Q, Some (5 # 4)%Q)).2
    = SandboxClient.Lambda (Some l) ∧
    (l == 1 # 2)%Q ∧
    in_cell (1 / 1 - (1 # 2)) (3 / 1 - (1 # 2)) i l ∧
    in_cell (1 / 1 - (1 # 2)) (3 / 1 - (1 # 2)) j l ∧
    on_cell_surface 5 Sample.twisted i j
      (1 / 1 - (1 # 2) + l * (3 / 1 - (1 # 2) - (1 / 1 - (1 # 2))))
      (1 / 1 - (1 # 2) + l * (3 / 1 - (1 # 2) - (1 / 1 - (1 # 2))))
      ((13 # 4) + l * ((5 # 4) - (13 # 4))).
Proof.
  destruct (SandboxClient.intersectLine_trace (NS := Exact.ops Exact.sqrt32) id
              (5, 5) (Some 1%Q, Some 1%Q)
              (Some <$> Sample.twisted : list Exact.real) 10
              (Some 1%Q, Some 1%Q, Some (13 # 4)%Q)
              (Some 3%Q, Some 3%Q, Some (5 # 4)%Q)) as [tr r] eqn:E.
  pose proof E as E'. vm_compute in E'. injection E' as <- <-.
  destruct (intersectLine_on_surface Exact.sqrt32 5 5 1 1 Sample.twisted
              1 1 (13 # 4) 3 3 (5 # 4) 10 _ _ ltac:(lia) ltac:(lia)
              ltac:(discriminate) ltac:(discriminate) E)
    as [Hc|(l & i & j & a & b & c & Hx & _ & _ & Hlast & _ & _ & _ & Hxi & Hyj & Hs)];
    [discriminate Hc|].
  injection Hx as <-. cbn [last] in Hlast. injection Hlast as <- <- <-.
  eexists _, i, j. split; [reflexivity|]. split; [vm_compute; reflexivity|].
  split; [exact Hxi|]. split; [exact Hyj|].
  apply Hs. right. vm_compute. reflexivity.
Defined.

(** * The template meshes and their draw calls *)

(** A list laid out in chunks of one length. *)
Lemma flat_map_chunks {A B} (g : A -> list B) (n : nat) (l : list A) :
  (∀ a, a ∈ l -> length (g a) = n) ->
  length (flat_map g l) = (length l * n)%nat ∧
  ∀ i a, l !! i = Some a -> take n (drop (i * n) (flat_map g l)) = g a.
Proof.
  induction l as [|a0 l IH]; intros Hn.
  { split; [reflexivity|]. intros i a Hi. discriminate. }
  destruct IH as [IHl IHc]. { intros a Ha. apply Hn. now right. }
  assert (H0 : length (g a0) = n) by (apply Hn; left).
  cbn [flat_map]. split.
  - rewrite length_app, IHl, H0. cbn [length]. lia.
  - intros [|i] a Hi.
    + injection Hi as <-. cbn [Nat.mul drop]. apply take_app_length'. now symmetry.
    + cbn [Nat.mul]. rewrite drop_app_add' by (now symmetry).
      apply IHc. exact Hi.
Qed.

Lemma chunk_lookup {A} (l c : list A) (n k j : nat) (v : A) :
  take n (drop k l) = c -> c !! j = Some v -> l !! (k + j)%nat = Some v.
Proof.
  intros <- Hj. apply lookup_take_Some in Hj as [Hj _].
  rewrite lookup_drop in Hj. exact Hj.
Qed.

Lemma length_strip (W y : Z) :
  length (SandboxClient.strip W y) = (Z.to_nat W * 2)%nat.
Proof.
  unfold SandboxClient.strip.
  destruct (flat_map_chunks (λ x, [y * W + x; (y - 1) * W + x]) 2 (seqZ 0 W))
    as [-> _]; [reflexivity|].
  now rewrite length_seqZ.
Qed.

(** For a mesh of [W] by [H] vertices, the indices written fill an
    index buffer of [(H-1)*W*2] entries, and the draw calls read, each
    inside the buffer, the strips of the rows 1 to [H - 1] in turn. *)
Lemma draw_mesh_strips (W H : Z) :
  0 <= W -> 1 <= H ->
  Z.of_nat (length (SandboxClient.strip_indices W H)) = (H - 1) * W * 2 ∧
  SandboxClient.draw_mesh W H (SandboxClient.strip_indices W H)
  = (λ y, Some (SandboxClient.strip W y)) <$> seqZ 1 (H - 1).
Proof.
  intros HW HH.
  destruct (flat_map_chunks (SandboxClient.strip W) (Z.to_nat W * 2)
              (seqZ 1 (H - 1)) (λ a _, length_strip W a)) as [Hlen Hchunk].
  fold (SandboxClient.strip_indices W H) in Hlen, Hchunk.
  rewrite length_seqZ in Hlen.
  assert (Hl : Z.of_nat (length (SandboxClient.strip_indices W H)) = (H - 1) * W * 2)
    by (rewrite Hlen; nia).
  split; [exact Hl|].
  unfold SandboxClient.draw_mesh.
  apply list_eq. intros i. rewrite !list_lookup_fmap.
  destruct (seqZ 1 (H - 1) !! i) as [y|] eqn:Ei; [|reflexivity].
  cbn [fmap option_fmap option_map]. f_equal.
  pose proof Ei as Ei'. apply lookup_seqZ in Ei' as [-> Hi].
  unfold SandboxClient.glDrawElements. rewrite Hl.
  rewrite decide_True by nia. f_equal.
  replace (Z.to_nat ((1 + Z.of_nat i - 1) * (W * 2))) with (i * (Z.to_nat W * 2))%nat
    by nia.
  replace (Z.to_nat (W * 2)) with (Z.to_nat W * 2)%nat by lia.
  apply Hchunk. exact Ei.
Qed.

(** [initContext] and [display]: for a grid of [w] by [h] samples, the
    indices [initContext] writes fill the two index buffers exactly as
    allocated, and each draw call of [display] reads, inside the bound
    buffer, one strip: those of the bathymetry rows 1 to [h - 2], then
    those of the water rows 1 to [h - 1]. *)
Theorem display_reads_strips (w h : Z) :
  1 <= w -> 2 <= h -> (h - 1) * w * 2 < 2 ^ 31 ->
  Z.of_nat (length (SandboxClient.bathymetryIndexBuffer (w, h)))
  = (h - 2) * (w - 1) * 2 ∧
  Z.of_nat (length (SandboxClient.waterIndexBuffer (w, h))) = (h - 1) * w * 2 ∧
  SandboxClient.display (w, h)
  = ((λ y, Some (SandboxClient.strip (w - 1) y)) <$> seqZ 1 (h - 2))
    ++ ((λ y, Some (SandboxClient.strip w y)) <$> seqZ 1 (h - 1)).
Proof.
  intros Hw Hh _.
  unfold SandboxClient.display, SandboxClient.bathymetryIndexBuffer,
    SandboxClient.waterIndexBuffer. cbn [fst snd].
  destruct (draw_mesh_strips (w - 1) (h - 1)) as [Hb ->]; [lia|lia|].
  destruct (draw_mesh_strips w h) as [Hwa ->]; [lia|lia|].
  replace (h - 1 - 1) with (h - 2) in * by lia.
  repeat split; assumption || reflexivity.
Qed.

Lemma display_reads_strips_witness :
  Z.of_nat (length (SandboxClient.bathymetryIndexBuffer (5, 5)))
  = (5 - 2) * (5 - 1) * 2 ∧
  Z.of_nat (length (SandboxClient.waterIndexBuffer (5, 5))) = (5 - 1) * 5 * 2 ∧
  SandboxClient.display (5, 5)
  = ((λ y, Some (SandboxClient.strip (5 - 1) y)) <$> seqZ 1 (5 - 2))
    ++ ((λ y, Some (SandboxClient.strip 5 y)) <$> seqZ 1 (5 - 1)).
Proof.
  apply (display_reads_strips 5 5); lia.
Defined.

(** [initContext]: in a mesh of [W] by [H] vertices, the strip of row
    [y] joins, column by column, the template vertex of row [y] with
    the one of row [y - 1]: its entries 2x and 2x+1 are the places, in
    the vertex buffer, of the vertices at the centres of the pixels
    (x, y) and (x, y - 1). *)
Theorem strip_joins_rows {F : Type} {NF : Numeric F} (W H y x : Z) :
  1 <= y < H -> 0 <= x < W -> H * W < 2 ^ 31 ->
  ∃ i0 i1 : Z,
    SandboxClient.strip W y !! Z.to_nat (2 * x) = Some i0 ∧
    SandboxClient.strip W y !! Z.to_nat (2 * x + 1) = Some i1 ∧
    0 <= i0 ∧ 0 <= i1 ∧
    SandboxClient.template_vertices (F := F) W H !! Z.to_nat i0
    = Some (of_int x + half, of_int y + half)%num ∧
    SandboxClient.template_vertices (F := F) W H !! Z.to_nat i1
    = Some (of_int x + half, of_int (y - 1) + half)%num.
Proof.
  intros Hy Hx _. exists (y * W + x), ((y - 1) * W + x).
  assert (Ex : seqZ 0 W !! Z.to_nat x = Some x).
  { rewrite lookup_seqZ_lt by lia. f_equal. lia. }
  destruct (flat_map_chunks (λ x, [y * W + x; (y - 1) * W + x]) 2 (seqZ 0 W))
    as [_ Hs]; [reflexivity|].
  specialize (Hs _ _ Ex). fold (SandboxClient.strip W y) in Hs.
  split.
  { replace (Z.to_nat (2 * x)) with (Z.to_nat x * 2 + 0)%nat by lia.
    apply (chunk_lookup _ _ 2 (Z.to_nat x * 2) 0 _ Hs). reflexivity. }
  split.
  { replace (Z.to_nat (2 * x + 1)) with (Z.to_nat x * 2 + 1)%nat by lia.
    apply (chunk_lookup _ _ 2 (Z.to_nat x * 2) 1 _ Hs). reflexivity. }
  split; [nia|]. split; [nia|].
  assert (Hrow : ∀ r, 0 <= r < H ->
    SandboxClient.template_vertices (F := F) W H !! Z.to_nat (r * W + x)
    = Some (of_int x + half, of_int r + half)%num).
  { intros r Hr.
    assert (Er : seqZ 0 H !! Z.to_nat r = Some r).
    { rewrite lookup_seqZ_lt by lia. f_equal. lia. }
    destruct (flat_map_chunks
                (λ y : Z, (λ x : Z, (of_int x + half, of_int y + half)%num)
                          <$> seqZ 0 W)
                (Z.to_nat W) (seqZ 0 H)) as [_ Hv].
    { intros a _. now rewrite length_fmap, length_seqZ. }
    specialize (Hv _ _ Er). fold (SandboxClient.template_vertices (F := F) W H) in Hv.
    replace (Z.to_nat (r * W + x)) with (Z.to_nat r * Z.to_nat W + Z.to_nat x)%nat
      by nia.
    apply (chunk_lookup _ _ (Z.to_nat W) (Z.to_nat r * Z.to_nat W) (Z.to_nat x) _ Hv).
    rewrite list_lookup_fmap, Ex. reflexivity. }
  split; apply Hrow; lia.
Qed.

Lemma strip_joins_rows_witness :
  ∃ i0 i1 : Z,
    SandboxClient.strip 5 2 !! Z.to_nat (2 * 3) = Some i0 ∧
    SandboxClient.strip 5 2 !! Z.to_nat (2 * 3 + 1) = Some i1 ∧
    0 <= i0 ∧ 0 <= i1 ∧
    SandboxClient.waterVertexBuffer (NF := IEEE.binary32) (5, 5) !! Z.to_nat i0
    = Some (@nadd _ IEEE.binary32 (@of_int _ IEEE.binary32 3) (@half _ IEEE.binary32),
            @nadd _ IEEE.binary32 (@of_int _ IEEE.binary32 2) (@half _ IEEE.binary32)) ∧
    SandboxClient.waterVertexBuffer (NF := IEEE.binary32) (5, 5) !! Z.to_nat i1
    = Some (@nadd _ IEEE.binary32 (@of_int _ IEEE.binary32 3) (@half _ IEEE.binary32),
            @nadd _ IEEE.binary32 (@of_int _ IEEE.binary32 (2 - 1))
              (@half _ IEEE.binary32)).
Proof.
  apply (strip_joins_rows (NF := IEEE.binary32) 5 5 2 3); [lia|lia|lia].
Defined.

(** * The grids the foreground reads and the grids [readGrids] writes *)

(** The slot [startNewValue] hands out is neither the locked one nor
    the most recent one. *)
Lemma nextIndex_fresh {A} (tb : TripleBuffer.t A) :
  (TripleBuffer.lockedIndex tb < 3)%nat ->
  (TripleBuffer.mostRecentIndex tb < 3)%nat ->
  (TripleBuffer.nextIndex tb < 3)%nat
  ∧ TripleBuffer.nextIndex tb ≠ TripleBuffer.lockedIndex tb
  ∧ TripleBuffer.nextIndex tb ≠ TripleBuffer.mostRecentIndex tb.
Proof.
  unfold TripleBuffer.nextIndex. intros Hl Hm.
  destruct (TripleBuffer.lockedIndex tb) as [|[|[|?]]]; [| | |lia];
    destruct (TripleBuffer.mostRecentIndex tb) as [|[|[|?]]]; try lia;
    vm_compute; repeat split; lia.
Qed.

(** [readGrids], whether it returns or throws: the grids the foreground
    has locked are as they were, and after a throw so are the grids the
    next [lockNewValue] will lock. *)
Theorem readGrids_spares_locked_grids {F : Type} `{Numeric F} (be : bool)
    (gridSize : Z * Z) (elevationRange : F * F) (c : SandboxClient.Client F) :
  tb_wf (SandboxClient.grids c) ->
  let r := SandboxClient.readGrids be gridSize elevationRange c in
  tb_wf (SandboxClient.grids (final r))
  ∧ TripleBuffer.getLockedValue (SandboxClient.grids (final r))
    = TripleBuffer.getLockedValue (SandboxClient.grids c)
  ∧ (completed r = false ->
     TripleBuffer.mostRecent (SandboxClient.grids (final r))
     = TripleBuffer.mostRecent (SandboxClient.grids c)).
Proof.
  intros (Hlen & Hl & Hm) r.
  destruct (nextIndex_fresh (SandboxClient.grids c) Hl Hm) as (Hn & Hnl & Hnm).
  unfold r, SandboxClient.readGrids.
  destruct (SandboxClient.receiveGrids _ _ _ _ _) as [[p gb']|[p gb']];
    cbn [final completed SandboxClient.grids];
    unfold tb_wf, TripleBuffer.getLockedValue, TripleBuffer.mostRecent,
      TripleBuffer.postNewValue, TripleBuffer.store;
    cbn [TripleBuffer.buffer TripleBuffer.lockedIndex TripleBuffer.mostRecentIndex];
    rewrite length_insert, list_lookup_insert_ne by exact Hnl.
  - repeat split; try assumption. discriminate.
  - repeat split; try assumption. intros _.
    now rewrite list_lookup_insert_ne by exact Hnm.
Qed.

Lemma readGrids_spares_witness :
  let r := SandboxClient.readGrids (H := IEEE.binary32) false Sample.gridSize
             Sample.er32 Sample.client0 in
  tb_wf (SandboxClient.grids (final r))
  ∧ TripleBuffer.getLockedValue (SandboxClient.grids (final r))
    = TripleBuffer.getLockedValue (SandboxClient.grids Sample.client0)
  ∧ (completed r = false ->
     TripleBuffer.mostRecent (SandboxClient.grids (final r))
     = TripleBuffer.mostRecent (SandboxClient.grids Sample.client0)).
Proof.
  apply (readGrids_spares_locked_grids (H := IEEE.binary32) false
           Sample.gridSize Sample.er32 Sample.client0).
  vm_compute. repeat split; lia.
Defined.

(** The first [frame] after a [readGrids] that returned locks the grids
    that call read from the pipe, counts a new grid version and tests
    the head against their water level; the triple buffer then holds
    nothing newer. *)
Theorem frame_locks_posted_grids {F Sc : Type} {NF : Numeric F} {NS : Numeric Sc}
    (widen : F -> Sc) (be : bool) (narrow_image : Sc -> Z) (gridSize : Z * Z)
    (cellSize elevationRange : F * F) (c c' : SandboxClient.Client F)
    (head view : Sc * Sc * Sc) (v : Z) (uw0 : bool) :
  tb_wf (SandboxClient.grids c) ->
  SandboxClient.readGrids be gridSize elevationRange c = Done c' ->
  ∃ (slot gb' : SandboxClient.GridBuffers F)
    (tb' : TripleBuffer.t (SandboxClient.GridBuffers F)),
    TripleBuffer.startNewValue (SandboxClient.grids c) = Some slot ∧
    SandboxClient.receiveGrids be gridSize elevationRange slot (SandboxClient.pipe c)
    = Done (SandboxClient.pipe c', gb') ∧
    TripleBuffer.getLockedValue tb' = Some gb' ∧
    TripleBuffer.lockNewValue tb' = (false, tb') ∧
    SandboxClient.frame widen be narrow_image gridSize cellSize head view
      (SandboxClient.mkApp c' v uw0)
    = (λ uw,
         outcome_map
           (λ p, SandboxClient.mkApp
                   (SandboxClient.mkClient p (SandboxClient.connected c)
                      (SandboxClient.listening c) tb')
                   ((v + 1) mod 2 ^ 32) uw)
           (SandboxClient.sendPose be narrow_image head view (SandboxClient.pipe c')))
      <$> SandboxClient.head_underwater widen gridSize cellSize
            (SandboxClient.waterLevel gb') head.
Proof.
  intros (Hlen & Hl & Hm) Hread.
  destruct (nextIndex_fresh (SandboxClient.grids c) Hl Hm) as (Hn & Hnl & Hnm).
  unfold SandboxClient.readGrids in Hread.
  destruct (TripleBuffer.startNewValue (SandboxClient.grids c)) as [slot|] eqn:Eslot.
  2:{ unfold TripleBuffer.startNewValue in Eslot.
      apply lookup_ge_None in Eslot. lia. }
  cbn [default from_option] in Hread. unfold id in Hread.
  destruct (SandboxClient.receiveGrids be gridSize elevationRange slot
              (SandboxClient.pipe c)) as [[p gb']|[p gb']] eqn:Erecv;
    [|discriminate].
  injection Hread as <-.
  set (next := TripleBuffer.nextIndex (SandboxClient.grids c)) in *.
  exists slot, gb',
    (TripleBuffer.mk
       (<[next := gb']> (TripleBuffer.buffer (SandboxClient.grids c))) next next).
  split; [reflexivity|]. split; [exact Erecv|].
  assert (Eg : (<[next := gb']> (TripleBuffer.buffer (SandboxClient.grids c)))
               !! next = Some gb')
    by (apply list_lookup_insert_eq; lia).
  split; [exact Eg|].
  split.
  { unfold TripleBuffer.lockNewValue.
    cbn [TripleBuffer.buffer TripleBuffer.lockedIndex TripleBuffer.mostRecentIndex].
    rewrite bool_decide_eq_false_2 by (intros Hc; now apply Hc). reflexivity. }
  unfold SandboxClient.frame, TripleBuffer.lockNewValue, TripleBuffer.postNewValue,
    TripleBuffer.store, TripleBuffer.getLockedValue.
  cbn [SandboxClient.client SandboxClient.grids SandboxClient.gridVersion
       SandboxClient.pipe SandboxClient.connected SandboxClient.listening
       TripleBuffer.buffer TripleBuffer.lockedIndex TripleBuffer.mostRecentIndex].
  assert (En : ∀ b, TripleBuffer.nextIndex
                      (TripleBuffer.mk (A := SandboxClient.GridBuffers F) b
                         (TripleBuffer.lockedIndex (SandboxClient.grids c))
                         (TripleBuffer.mostRecentIndex (SandboxClient.grids c)))
                    = next) by reflexivity.
  rewrite !En. fold next.
  rewrite bool_decide_eq_true_2 by (intros Hc; apply Hnl; now symmetry).
  rewrite Eg. cbn [mbind option_bind].
  destruct (SandboxClient.head_underwater _ _ _ _ _); reflexivity.
Qed.

Lemma frame_locks_posted_witness :
  ∃ (slot gb' : SandboxClient.GridBuffers spec_float)
    (tb' : TripleBuffer.t (SandboxClient.GridBuffers spec_float)),
    TripleBuffer.startNewValue (SandboxClient.grids Sample.client1) = Some slot ∧
    SandboxClient.receiveGrids (H := IEEE.binary32) false Sample.gridSize
      Sample.er32 slot (SandboxClient.pipe Sample.client1)
    = Done (SandboxClient.pipe Sample.posted, gb') ∧
    TripleBuffer.getLockedValue tb' = Some gb' ∧
    TripleBuffer.lockNewValue tb' = (false, tb') ∧
    SandboxClient.frame (NS := IEEE.binary64)
      (IEEE.widen 53 1024) false Sample.narrow_image Sample.gridSize Sample.cellSize32
      (IEEE.f64 1 (-1), IEEE.f64 1 (-1), IEEE.f64 1 0)
      (IEEE.f64 0 0, IEEE.f64 0 0, IEEE.f64 (-1) 0)
      (SandboxClient.mkApp Sample.posted 0 false)
    = (λ uw,
         outcome_map
           (λ p, SandboxClient.mkApp
                   (SandboxClient.mkClient p
                      (SandboxClient.connected Sample.client1)
                      (SandboxClient.listening Sample.client1) tb')
                   ((0 + 1) mod 2 ^ 32) uw)
           (SandboxClient.sendPose false Sample.narrow_image
              (IEEE.f64 1 (-1), IEEE.f64 1 (-1), IEEE.f64 1 0)
              (IEEE.f64 0 0, IEEE.f64 0 0, IEEE.f64 (-1) 0)
              (SandboxClient.pipe Sample.posted)))
      <$> SandboxClient.head_underwater (NS := IEEE.binary64)
            (IEEE.widen 53 1024) Sample.gridSize Sample.cellSize32
            (SandboxClient.waterLevel gb')
            (IEEE.f64 1 (-1), IEEE.f64 1 (-1), IEEE.f64 1 0).
Proof.
  apply (frame_locks_posted_grids (NF := IEEE.binary32) (NS := IEEE.binary64)
           (IEEE.widen 53 1024) false Sample.narrow_image Sample.gridSize
           Sample.cellSize32 Sample.er32 Sample.client1 Sample.posted
           (IEEE.f64 1 (-1), IEEE.f64 1 (-1), IEEE.f64 1 0)
           (IEEE.f64 0 0, IEEE.f64 0 0, IEEE.f64 (-1) 0) 0 false).
  - vm_compute. repeat split; lia.
  - vm_compute. reflexivity.
Defined.
